(** * CycloneCrypto block ciphers: AES (aes.c) and Camellia (camellia.c)

    A shallow embedding of the key schedules and single-block primitives of
    [src/cyclone_crypto/aes.c] and [src/cyclone_crypto/camellia.c], with the
    properties stated for them in the specification.

    Conventions.
    - [uint8_t] and [uint32_t] values are integers of [Z]; the range of the C
      type is the predicate [is_byte] resp. [is_word32].
    - C arrays are lists.  A read through a pointer is [nth_error]
      ([None] is an access outside the object, undefined behaviour in C);
      functions that may perform such an access return [option].
    - The host is little-endian: [memcpy] between bytes and [uint32_t]
      objects, and the byte/word union [AesState], use the little-endian
      layout.  (The AES key expansion of aes.c is only FIPS-197 conformant on
      such a host, see [rotWord].) *)

From Stdlib Require Import ZArith List Lia Bool Arith Ring.
Import ListNotations.

Local Open Scope Z_scope.

(* ================================================================== *)
(** ** Shared helpers: option monad, loops, arrays, byte order          *)
(* ================================================================== *)

Module Common.

Definition bind {A B : Type} (m : option A) (f : A -> option B) : option B :=
  match m with
  | Some a => f a
  | None => None
  end.

Notation "x <- m ;; k" := (bind m (fun x => k))
  (at level 61, m at next level, right associativity).

(** Error codes returned by the initializers (error.h). *)
Inductive error_t : Type :=
  | NO_ERROR
  | ERROR_INVALID_KEY_LENGTH.

(** Ranges of the C types. *)
Definition is_byte (b : Z) : Prop := 0 <= b < 256.
Definition is_word32 (x : Z) : Prop := 0 <= x < 2 ^ 32.

Definition is_byteb (b : Z) : bool := (0 <=? b) && (b <? 256).

(** [for(i = from; i < from + count; i++) body] over a state that may fault. *)
Fixpoint forUp {S : Type} (count from : nat) (body : nat -> S -> option S)
  (s : S) : option S :=
  match count with
  | O => Some s
  | Datatypes.S c => s' <- body from s ;; forUp c (Datatypes.S from) body s'
  end.

(** [for(i = n; i > 0; i--) body], the counter takes the values n, n-1, ..., 1. *)
Fixpoint forDown {S : Type} (n : nat) (body : nat -> S -> option S)
  (s : S) : option S :=
  match n with
  | O => Some s
  | Datatypes.S m => s' <- body n s ;; forDown m body s'
  end.

(** Array update [a[i] = v]; [store] faults outside the array. *)
Fixpoint upd {A : Type} (i : nat) (v : A) (l : list A) : list A :=
  match l, i with
  | [], _ => []
  | _ :: t, O => v :: t
  | h :: t, Datatypes.S j => h :: upd j v t
  end.

Definition store {A : Type} (i : nat) (v : A) (l : list A) : option (list A) :=
  if (i <? length l)%nat then Some (upd i v l) else None.

(** Read of a constant table indexed by a [uint8_t] (or small) value. *)
Definition tbl (t : list Z) (i : Z) : Z := nth (Z.to_nat i) t 0.

(** Byte [t] (0 = least significant) of a word. *)
Definition byteOf (x : Z) (t : Z) : Z := Z.land (Z.shiftr x (8 * t)) 0xFF.

(** Little-endian (host) layout of a [uint32_t] in memory. *)
Definition LOAD32LE (b0 b1 b2 b3 : Z) : Z :=
  Z.lor (Z.lor (Z.lor b0 (Z.shiftl b1 8)) (Z.shiftl b2 16)) (Z.shiftl b3 24).

Definition STORE32LE (x : Z) : list Z :=
  [byteOf x 0; byteOf x 1; byteOf x 2; byteOf x 3].

(** Modelled from the spec: the rotation macros ROL32 and ROR32 of crypto.h
    (section 4.4: rotations of a 32-bit unsigned value, result masked to 32
    bits). *)
Definition ROL32 (x : Z) (n : Z) : Z :=
  Z.land (Z.lor (Z.shiftl x n) (Z.shiftr x (32 - n))) 0xFFFFFFFF.

Definition ROR32 (x : Z) (n : Z) : Z :=
  Z.land (Z.lor (Z.shiftr x n) (Z.shiftl x (32 - n))) 0xFFFFFFFF.

(** Modelled from the spec: the big-endian load and store macros LOAD32BE and
    STORE32BE of crypto.h (section 4.4), on four bytes at [p + off]. *)
Definition LOAD32BE (p : list Z) (off : nat) : option Z :=
  b0 <- nth_error p off ;;
  b1 <- nth_error p (off + 1) ;;
  b2 <- nth_error p (off + 2) ;;
  b3 <- nth_error p (off + 3) ;;
  Some (Z.lor (Z.lor (Z.lor (Z.shiftl b0 24) (Z.shiftl b1 16)) (Z.shiftl b2 8)) b3).

Definition STORE32BE (x : Z) : list Z :=
  [byteOf x 3; byteOf x 2; byteOf x 1; byteOf x 0].

(** Modelled from the spec: betoh32 of crypto.h, big-endian storage to host
    order; on the little-endian host it swaps the four bytes. *)
Definition betoh32 (x : Z) : Z :=
  LOAD32LE (byteOf x 3) (byteOf x 2) (byteOf x 1) (byteOf x 0).

(** [memcpy(dst, src, n)] into an array of [uint32_t], for [n] a multiple of
    four (all call sites): word [j] receives bytes [4j .. 4j+3] of [src]. *)
Definition memcpyWord (src : list Z) (j : nat) (dst : list Z) : option (list Z) :=
  b0 <- nth_error src (4 * j) ;;
  b1 <- nth_error src (4 * j + 1) ;;
  b2 <- nth_error src (4 * j + 2) ;;
  b3 <- nth_error src (4 * j + 3) ;;
  store j (LOAD32LE b0 b1 b2 b3) dst.

Definition memcpyWords (dst src : list Z) (n : nat) : option (list Z) :=
  forUp (n / 4) 0 (memcpyWord src) dst.

End Common.

Import Common.

(* ================================================================== *)
(** ** AES (aes.c)                                                      *)
(* ================================================================== *)

Module Aes.

(** Substitution table used by encryption algorithm (S-box),
    its inverse, multiplication by {02} in GF(256), round constants. *)
Definition sbox : list Z :=
  [
   0x63; 0x7c; 0x77; 0x7b; 0xf2; 0x6b; 0x6f; 0xc5; 0x30; 0x01; 0x67; 0x2b; 0xfe; 0xd7; 0xab; 0x76;
   0xca; 0x82; 0xc9; 0x7d; 0xfa; 0x59; 0x47; 0xf0; 0xad; 0xd4; 0xa2; 0xaf; 0x9c; 0xa4; 0x72; 0xc0;
   0xb7; 0xfd; 0x93; 0x26; 0x36; 0x3f; 0xf7; 0xcc; 0x34; 0xa5; 0xe5; 0xf1; 0x71; 0xd8; 0x31; 0x15;
   0x04; 0xc7; 0x23; 0xc3; 0x18; 0x96; 0x05; 0x9a; 0x07; 0x12; 0x80; 0xe2; 0xeb; 0x27; 0xb2; 0x75;
   0x09; 0x83; 0x2c; 0x1a; 0x1b; 0x6e; 0x5a; 0xa0; 0x52; 0x3b; 0xd6; 0xb3; 0x29; 0xe3; 0x2f; 0x84;
   0x53; 0xd1; 0x00; 0xed; 0x20; 0xfc; 0xb1; 0x5b; 0x6a; 0xcb; 0xbe; 0x39; 0x4a; 0x4c; 0x58; 0xcf;
   0xd0; 0xef; 0xaa; 0xfb; 0x43; 0x4d; 0x33; 0x85; 0x45; 0xf9; 0x02; 0x7f; 0x50; 0x3c; 0x9f; 0xa8;
   0x51; 0xa3; 0x40; 0x8f; 0x92; 0x9d; 0x38; 0xf5; 0xbc; 0xb6; 0xda; 0x21; 0x10; 0xff; 0xf3; 0xd2;
   0xcd; 0x0c; 0x13; 0xec; 0x5f; 0x97; 0x44; 0x17; 0xc4; 0xa7; 0x7e; 0x3d; 0x64; 0x5d; 0x19; 0x73;
   0x60; 0x81; 0x4f; 0xdc; 0x22; 0x2a; 0x90; 0x88; 0x46; 0xee; 0xb8; 0x14; 0xde; 0x5e; 0x0b; 0xdb;
   0xe0; 0x32; 0x3a; 0x0a; 0x49; 0x06; 0x24; 0x5c; 0xc2; 0xd3; 0xac; 0x62; 0x91; 0x95; 0xe4; 0x79;
   0xe7; 0xc8; 0x37; 0x6d; 0x8d; 0xd5; 0x4e; 0xa9; 0x6c; 0x56; 0xf4; 0xea; 0x65; 0x7a; 0xae; 0x08;
   0xba; 0x78; 0x25; 0x2e; 0x1c; 0xa6; 0xb4; 0xc6; 0xe8; 0xdd; 0x74; 0x1f; 0x4b; 0xbd; 0x8b; 0x8a;
   0x70; 0x3e; 0xb5; 0x66; 0x48; 0x03; 0xf6; 0x0e; 0x61; 0x35; 0x57; 0xb9; 0x86; 0xc1; 0x1d; 0x9e;
   0xe1; 0xf8; 0x98; 0x11; 0x69; 0xd9; 0x8e; 0x94; 0x9b; 0x1e; 0x87; 0xe9; 0xce; 0x55; 0x28; 0xdf;
   0x8c; 0xa1; 0x89; 0x0d; 0xbf; 0xe6; 0x42; 0x68; 0x41; 0x99; 0x2d; 0x0f; 0xb0; 0x54; 0xbb; 0x16
  ].
Definition isbox : list Z :=
  [
   0x52; 0x09; 0x6a; 0xd5; 0x30; 0x36; 0xa5; 0x38; 0xbf; 0x40; 0xa3; 0x9e; 0x81; 0xf3; 0xd7; 0xfb;
   0x7c; 0xe3; 0x39; 0x82; 0x9b; 0x2f; 0xff; 0x87; 0x34; 0x8e; 0x43; 0x44; 0xc4; 0xde; 0xe9; 0xcb;
   0x54; 0x7b; 0x94; 0x32; 0xa6; 0xc2; 0x23; 0x3d; 0xee; 0x4c; 0x95; 0x0b; 0x42; 0xfa; 0xc3; 0x4e;
   0x08; 0x2e; 0xa1; 0x66; 0x28; 0xd9; 0x24; 0xb2; 0x76; 0x5b; 0xa2; 0x49; 0x6d; 0x8b; 0xd1; 0x25;
   0x72; 0xf8; 0xf6; 0x64; 0x86; 0x68; 0x98; 0x16; 0xd4; 0xa4; 0x5c; 0xcc; 0x5d; 0x65; 0xb6; 0x92;
   0x6c; 0x70; 0x48; 0x50; 0xfd; 0xed; 0xb9; 0xda; 0x5e; 0x15; 0x46; 0x57; 0xa7; 0x8d; 0x9d; 0x84;
   0x90; 0xd8; 0xab; 0x00; 0x8c; 0xbc; 0xd3; 0x0a; 0xf7; 0xe4; 0x58; 0x05; 0xb8; 0xb3; 0x45; 0x06;
   0xd0; 0x2c; 0x1e; 0x8f; 0xca; 0x3f; 0x0f; 0x02; 0xc1; 0xaf; 0xbd; 0x03; 0x01; 0x13; 0x8a; 0x6b;
   0x3a; 0x91; 0x11; 0x41; 0x4f; 0x67; 0xdc; 0xea; 0x97; 0xf2; 0xcf; 0xce; 0xf0; 0xb4; 0xe6; 0x73;
   0x96; 0xac; 0x74; 0x22; 0xe7; 0xad; 0x35; 0x85; 0xe2; 0xf9; 0x37; 0xe8; 0x1c; 0x75; 0xdf; 0x6e;
   0x47; 0xf1; 0x1a; 0x71; 0x1d; 0x29; 0xc5; 0x89; 0x6f; 0xb7; 0x62; 0x0e; 0xaa; 0x18; 0xbe; 0x1b;
   0xfc; 0x56; 0x3e; 0x4b; 0xc6; 0xd2; 0x79; 0x20; 0x9a; 0xdb; 0xc0; 0xfe; 0x78; 0xcd; 0x5a; 0xf4;
   0x1f; 0xdd; 0xa8; 0x33; 0x88; 0x07; 0xc7; 0x31; 0xb1; 0x12; 0x10; 0x59; 0x27; 0x80; 0xec; 0x5f;
   0x60; 0x51; 0x7f; 0xa9; 0x19; 0xb5; 0x4a; 0x0d; 0x2d; 0xe5; 0x7a; 0x9f; 0x93; 0xc9; 0x9c; 0xef;
   0xa0; 0xe0; 0x3b; 0x4d; 0xae; 0x2a; 0xf5; 0xb0; 0xc8; 0xeb; 0xbb; 0x3c; 0x83; 0x53; 0x99; 0x61;
   0x17; 0x2b; 0x04; 0x7e; 0xba; 0x77; 0xd6; 0x26; 0xe1; 0x69; 0x14; 0x63; 0x55; 0x21; 0x0c; 0x7d
  ].
Definition mul2 : list Z :=
  [
   0x00; 0x02; 0x04; 0x06; 0x08; 0x0a; 0x0c; 0x0e; 0x10; 0x12; 0x14; 0x16; 0x18; 0x1a; 0x1c; 0x1e;
   0x20; 0x22; 0x24; 0x26; 0x28; 0x2a; 0x2c; 0x2e; 0x30; 0x32; 0x34; 0x36; 0x38; 0x3a; 0x3c; 0x3e;
   0x40; 0x42; 0x44; 0x46; 0x48; 0x4a; 0x4c; 0x4e; 0x50; 0x52; 0x54; 0x56; 0x58; 0x5a; 0x5c; 0x5e;
   0x60; 0x62; 0x64; 0x66; 0x68; 0x6a; 0x6c; 0x6e; 0x70; 0x72; 0x74; 0x76; 0x78; 0x7a; 0x7c; 0x7e;
   0x80; 0x82; 0x84; 0x86; 0x88; 0x8a; 0x8c; 0x8e; 0x90; 0x92; 0x94; 0x96; 0x98; 0x9a; 0x9c; 0x9e;
   0xa0; 0xa2; 0xa4; 0xa6; 0xa8; 0xaa; 0xac; 0xae; 0xb0; 0xb2; 0xb4; 0xb6; 0xb8; 0xba; 0xbc; 0xbe;
   0xc0; 0xc2; 0xc4; 0xc6; 0xc8; 0xca; 0xcc; 0xce; 0xd0; 0xd2; 0xd4; 0xd6; 0xd8; 0xda; 0xdc; 0xde;
   0xe0; 0xe2; 0xe4; 0xe6; 0xe8; 0xea; 0xec; 0xee; 0xf0; 0xf2; 0xf4; 0xf6; 0xf8; 0xfa; 0xfc; 0xfe;
   0x1b; 0x19; 0x1f; 0x1d; 0x13; 0x11; 0x17; 0x15; 0x0b; 0x09; 0x0f; 0x0d; 0x03; 0x01; 0x07; 0x05;
   0x3b; 0x39; 0x3f; 0x3d; 0x33; 0x31; 0x37; 0x35; 0x2b; 0x29; 0x2f; 0x2d; 0x23; 0x21; 0x27; 0x25;
   0x5b; 0x59; 0x5f; 0x5d; 0x53; 0x51; 0x57; 0x55; 0x4b; 0x49; 0x4f; 0x4d; 0x43; 0x41; 0x47; 0x45;
   0x7b; 0x79; 0x7f; 0x7d; 0x73; 0x71; 0x77; 0x75; 0x6b; 0x69; 0x6f; 0x6d; 0x63; 0x61; 0x67; 0x65;
   0x9b; 0x99; 0x9f; 0x9d; 0x93; 0x91; 0x97; 0x95; 0x8b; 0x89; 0x8f; 0x8d; 0x83; 0x81; 0x87; 0x85;
   0xbb; 0xb9; 0xbf; 0xbd; 0xb3; 0xb1; 0xb7; 0xb5; 0xab; 0xa9; 0xaf; 0xad; 0xa3; 0xa1; 0xa7; 0xa5;
   0xdb; 0xd9; 0xdf; 0xdd; 0xd3; 0xd1; 0xd7; 0xd5; 0xcb; 0xc9; 0xcf; 0xcd; 0xc3; 0xc1; 0xc7; 0xc5;
   0xfb; 0xf9; 0xff; 0xfd; 0xf3; 0xf1; 0xf7; 0xf5; 0xeb; 0xe9; 0xef; 0xed; 0xe3; 0xe1; 0xe7; 0xe5
  ].
Definition rcon : list Z :=
  [
   0x00000000;
   0x00000001;
   0x00000002;
   0x00000004;
   0x00000008;
   0x00000010;
   0x00000020;
   0x00000040;
   0x00000080;
   0x0000001b;
   0x00000036
  ].

(** Modelled from the spec: the structure AesContext of aes.h (section 3):
    the number of rounds and the key schedule, an array of 60 words. *)
Record AesContext : Type := mkAesContext { nr : nat; w : list Z }.

(** The union AesState of aes.h: 16 bytes [b], also viewed as 4 words [w]. *)
Definition AesState : Type := list Z.

Definition getb (state : AesState) (i : nat) : Z := nth i state 0.

(** [state->w[j]] as a value and as an lvalue (little-endian host). *)
Definition getw (state : AesState) (j : nat) : Z :=
  LOAD32LE (getb state (4 * j)) (getb state (4 * j + 1))
           (getb state (4 * j + 2)) (getb state (4 * j + 3)).

Definition setw (j : nat) (x : Z) (state : AesState) : AesState :=
  upd (4 * j + 3) (byteOf x 3)
    (upd (4 * j + 2) (byteOf x 2)
      (upd (4 * j + 1) (byteOf x 1)
        (upd (4 * j) (byteOf x 0) state))).

(** Rotate macro used by key expansion. *)
Definition rotWord (x : Z) : Z := ROR32 x 8.

(** SubWord transformation: the four bytes of the word in memory order. *)
Definition subWord (x : Z) : Z :=
  let p0 := tbl sbox (byteOf x 0) in
  let p1 := tbl sbox (byteOf x 1) in
  let p2 := tbl sbox (byteOf x 2) in
  let p3 := tbl sbox (byteOf x 3) in
  LOAD32LE p0 p1 p2 p3.

(** AddRoundKey transformation; [k] points into the key schedule. *)
Definition addRoundKey (state : AesState) (k : list Z) : option AesState :=
  k0 <- nth_error k 0 ;;
  let state := setw 0 (Z.lxor (getw state 0) k0) state in
  k1 <- nth_error k 1 ;;
  let state := setw 1 (Z.lxor (getw state 1) k1) state in
  k2 <- nth_error k 2 ;;
  let state := setw 2 (Z.lxor (getw state 2) k2) state in
  k3 <- nth_error k 3 ;;
  let state := setw 3 (Z.lxor (getw state 3) k3) state in
  Some state.

(** SubBytes and InvSubBytes transformations. *)
Definition subBytes (state : AesState) : AesState :=
  fold_left (fun st i => upd i (tbl sbox (getb st i)) st) (seq 0 16) state.

Definition invSubBytes (state : AesState) : AesState :=
  fold_left (fun st i => upd i (tbl isbox (getb st i)) st) (seq 0 16) state.

(** ShiftRows transformation, assignment by assignment. *)
Definition shiftRows (state : AesState) : AesState :=
  (* The second row is shifted left by 1 byte *)
  let temp := getb state 1 in
  let state := upd 1 (getb state 5) state in
  let state := upd 5 (getb state 9) state in
  let state := upd 9 (getb state 13) state in
  let state := upd 13 temp state in
  (* The third row is shifted left by 2 bytes *)
  let temp := getb state 2 in
  let state := upd 2 (getb state 10) state in
  let state := upd 10 temp state in
  let temp := getb state 6 in
  let state := upd 6 (getb state 14) state in
  let state := upd 14 temp state in
  (* The last row is shifted left by 3 bytes *)
  let temp := getb state 3 in
  let state := upd 3 (getb state 15) state in
  let state := upd 15 (getb state 11) state in
  let state := upd 11 (getb state 7) state in
  let state := upd 7 temp state in
  state.

(** InvShiftRows transformation. *)
Definition invShiftRows (state : AesState) : AesState :=
  (* The second row is shifted right by 1 byte *)
  let temp := getb state 1 in
  let state := upd 1 (getb state 13) state in
  let state := upd 13 (getb state 9) state in
  let state := upd 9 (getb state 5) state in
  let state := upd 5 temp state in
  (* The third row is shifted right by 2 bytes *)
  let temp := getb state 2 in
  let state := upd 2 (getb state 10) state in
  let state := upd 10 temp state in
  let temp := getb state 6 in
  let state := upd 6 (getb state 14) state in
  let state := upd 14 temp state in
  (* The last row is shifted right by 3 bytes *)
  let temp := getb state 3 in
  let state := upd 3 (getb state 7) state in
  let state := upd 7 (getb state 11) state in
  let state := upd 11 (getb state 15) state in
  let state := upd 15 temp state in
  state.

(** MixColumns transformation: one column, at byte offset [i]. *)
Definition mixColumn (i : nat) (state : AesState) : AesState :=
  let b0 := getb state (i + 0) in
  let b1 := getb state (i + 1) in
  let b2 := getb state (i + 2) in
  let b3 := getb state (i + 3) in
  let p := Z.lxor (Z.lxor (Z.lxor b0 b1) b2) b3 in
  let state := upd (i + 0) (Z.lxor (Z.lxor p b0) (tbl mul2 (Z.lxor b0 b1))) state in
  let state := upd (i + 1) (Z.lxor (Z.lxor p b1) (tbl mul2 (Z.lxor b1 b2))) state in
  let state := upd (i + 2) (Z.lxor (Z.lxor p b2) (tbl mul2 (Z.lxor b2 b3))) state in
  let state := upd (i + 3) (Z.lxor (Z.lxor p b3) (tbl mul2 (Z.lxor b3 b0))) state in
  state.

Definition mixColumns (state : AesState) : AesState :=
  fold_left (fun st i => mixColumn i st) [0; 4; 8; 12]%nat state.

(** InvMixColumns transformation: one column, at byte offset [i]. *)
Definition invMixColumn (i : nat) (state : AesState) : AesState :=
  let b0 := getb state (i + 0) in
  let b1 := getb state (i + 1) in
  let b2 := getb state (i + 2) in
  let b3 := getb state (i + 3) in
  let q := Z.lxor (Z.lxor (Z.lxor b0 b1) b2) b3 in
  (* {09}{b0^b1^b2^b3} *)
  let q := Z.lxor q (tbl mul2 (tbl mul2 (tbl mul2 q))) in
  (* {09}{b0^b1^b2^b3} ^ {04}{b0^b2} *)
  let p := Z.lxor q (tbl mul2 (tbl mul2 (Z.lxor b0 b2))) in
  (* {09}{b0^b1^b2^b3} ^ {04}{b1^b3} *)
  let q := Z.lxor q (tbl mul2 (tbl mul2 (Z.lxor b1 b3))) in
  let state := upd (i + 0) (Z.lxor (Z.lxor p b0) (tbl mul2 (Z.lxor b0 b1))) state in
  let state := upd (i + 1) (Z.lxor (Z.lxor q b1) (tbl mul2 (Z.lxor b1 b2))) state in
  let state := upd (i + 2) (Z.lxor (Z.lxor p b2) (tbl mul2 (Z.lxor b2 b3))) state in
  let state := upd (i + 3) (Z.lxor (Z.lxor q b3) (tbl mul2 (Z.lxor b3 b0))) state in
  state.

Definition invMixColumns (state : AesState) : AesState :=
  fold_left (fun st i => invMixColumn i st) [0; 4; 8; 12]%nat state.

(** The number of rounds selected by the key length; [None] when the key
    length is not supported. *)
Definition roundsOfKeyLength (keyLength : nat) : option nat :=
  if (keyLength =? 16)%nat then Some 10%nat
  else if (keyLength =? 24)%nat then Some 12%nat
  else if (keyLength =? 32)%nat then Some 14%nat
  else None.

(** One iteration of the key-expansion loop; [keyLength] is in words here.
    Every array access is checked. *)
Definition expandStep (keyLength : nat) (i : nat) (w : list Z) : option (list Z) :=
  (* Save previous word *)
  temp <- nth_error w (i - 1) ;;
  (* Apply transformation *)
  temp <- (if (i mod keyLength =? 0)%nat then
             rc <- nth_error rcon (i / keyLength) ;;
             Some (Z.lxor (subWord (rotWord temp)) rc)
           else if (6 <? keyLength)%nat && (i mod keyLength =? 4)%nat then
             Some (subWord temp)
           else Some temp) ;;
  (* Update the key schedule *)
  prev <- nth_error w (i - keyLength) ;;
  store i (Z.lxor prev temp) w.

(** Key expansion.  The result is the error code and the context after the
    call; [None] is an out-of-bounds access. *)
Definition aesInit (context : AesContext) (key : list Z) (keyLength : nat)
  : option (error_t * AesContext) :=
  match roundsOfKeyLength keyLength with
  | None => Some (ERROR_INVALID_KEY_LENGTH, context)
  | Some n =>
      let context := mkAesContext n (w context) in
      (* Copy the original key *)
      w1 <- memcpyWords (w context) key keyLength ;;
      let context := mkAesContext (nr context) w1 in
      (* Determine the number of 32-bit words in the key *)
      let keyLength := (keyLength / 4)%nat in
      (* The size of the key schedule depends on the number of rounds *)
      let keyScheduleSize := (4 * (nr context + 1))%nat in
      (* Perform a key expansion to generate the key schedule *)
      w2 <- forUp (keyScheduleSize - keyLength) keyLength
                  (expandStep keyLength) (w context) ;;
      Some (NO_ERROR, mkAesContext (nr context) w2)
  end.

(** The memory the block functions work on: the caller's context and the
    local state array. *)
Definition AesMem : Type := (AesContext * AesState)%type.

Definition memcpyBlock (src : list Z) : option (list Z) :=
  if (16 <=? length src)%nat then Some (firstn 16 src) else None.

Definition encryptRound (i : nat) (m : AesMem) : option AesMem :=
  let (context, state) := m in
  let state := subBytes state in
  let state := shiftRows state in
  let state := mixColumns state in
  state <- addRoundKey state (skipn (4 * i) (w context)) ;;
  Some (context, state).

(** Encrypt a 16-byte block using AES algorithm.  Returns the context after
    the call and the output block. *)
Definition aesEncryptBlock (context : AesContext) (input : list Z)
  : option (AesContext * list Z) :=
  (* Copy the plaintext to the state array *)
  state <- memcpyBlock input ;;
  (* Initial round key addition *)
  state <- addRoundKey state (w context) ;;
  (* for(i = 1; i < context->nr; i++) *)
  m <- forUp (nr context - 1) 1 encryptRound (context, state) ;;
  let (context, state) := m in
  (* The last round differs slightly from the first rounds *)
  let state := subBytes state in
  let state := shiftRows state in
  state <- addRoundKey state (skipn (4 * nr context) (w context)) ;;
  (* The final state is then copied to the output *)
  output <- memcpyBlock state ;;
  Some (context, output).

Definition decryptRound (i : nat) (m : AesMem) : option AesMem :=
  let (context, state) := m in
  let state := invShiftRows state in
  let state := invSubBytes state in
  state <- addRoundKey state (skipn (4 * i) (w context)) ;;
  let state := invMixColumns state in
  Some (context, state).

(** Decrypt a 16-byte block using AES algorithm.  With [nr = 0] the unsigned
    counter [nr - 1] wraps and the first round key read is outside the
    schedule. *)
Definition aesDecryptBlock (context : AesContext) (input : list Z)
  : option (AesContext * list Z) :=
  (* Copy the ciphertext to the state array *)
  state <- memcpyBlock input ;;
  (* Initial round key addition *)
  state <- addRoundKey state (skipn (4 * nr context) (w context)) ;;
  (* for(i = context->nr - 1; i >= 1; i--) *)
  m <- (if (nr context =? 0)%nat then None
        else forDown (nr context - 1) decryptRound (context, state)) ;;
  let (context, state) := m in
  (* The last round differs slightly from the first rounds *)
  let state := invShiftRows state in
  let state := invSubBytes state in
  state <- addRoundKey state (w context) ;;
  (* The final state is then copied to the output *)
  output <- memcpyBlock state ;;
  Some (context, output).

End Aes.

(* ================================================================== *)
(** ** Camellia (camellia.c)                                            *)
(* ================================================================== *)

Module Camellia.

(** Modelled from the spec: the structure CamelliaSubkey of camellia.h
    (section 4.3): slot index, source bank, left shift in bits, half. *)
Record CamelliaSubkey : Type :=
  mkSubkey { index : nat; key : nat; shift : nat; position : nat }.

(** Key schedule related constants. *)
Definition KL : nat := 0.
Definition KR : nat := 4.
Definition KA : nat := 8.
Definition KB : nat := 12.
Definition L : nat := 0.
Definition R : nat := 64.

(** Key schedule for 128-bit key, and for 192 and 256-bit keys. *)
Definition ks1 : list CamelliaSubkey :=
  [
   mkSubkey 0  KL 0   L  (* kw1 *);
   mkSubkey 2  KL 0   R  (* kw2 *);
   mkSubkey 4  KA 0   L  (* k1 *);
   mkSubkey 6  KA 0   R  (* k2 *);
   mkSubkey 8  KL 15  L  (* k3 *);
   mkSubkey 10 KL 15  R  (* k4 *);
   mkSubkey 12 KA 15  L  (* k5 *);
   mkSubkey 14 KA 15  R  (* k6 *);
   mkSubkey 16 KA 30  L  (* ke1 *);
   mkSubkey 18 KA 30  R  (* ke2 *);
   mkSubkey 20 KL 45  L  (* k7 *);
   mkSubkey 22 KL 45  R  (* k8 *);
   mkSubkey 24 KA 45  L  (* k9 *);
   mkSubkey 26 KL 60  R  (* k10 *);
   mkSubkey 28 KA 60  L  (* k11 *);
   mkSubkey 30 KA 60  R  (* k12 *);
   mkSubkey 32 KL 77  L  (* ke3 *);
   mkSubkey 34 KL 77  R  (* ke4 *);
   mkSubkey 36 KL 94  L  (* k13 *);
   mkSubkey 38 KL 94  R  (* k14 *);
   mkSubkey 40 KA 94  L  (* k15 *);
   mkSubkey 42 KA 94  R  (* k16 *);
   mkSubkey 44 KL 111 L  (* k17 *);
   mkSubkey 46 KL 111 R  (* k18 *);
   mkSubkey 48 KA 111 L  (* kw3 *);
   mkSubkey 50 KA 111 R  (* kw4 *)
  ].
Definition ks2 : list CamelliaSubkey :=
  [
   mkSubkey 0  KL 0   L  (* kw1 *);
   mkSubkey 2  KL 0   R  (* k2 *);
   mkSubkey 4  KB 0   L  (* k1 *);
   mkSubkey 6  KB 0   R  (* k2 *);
   mkSubkey 8  KR 15  L  (* k3 *);
   mkSubkey 10 KR 15  R  (* k4 *);
   mkSubkey 12 KA 15  L  (* k5 *);
   mkSubkey 14 KA 15  R  (* k6 *);
   mkSubkey 16 KR 30  L  (* ke1 *);
   mkSubkey 18 KR 30  R  (* ke2 *);
   mkSubkey 20 KB 30  L  (* k7 *);
   mkSubkey 22 KB 30  R  (* k8 *);
   mkSubkey 24 KL 45  L  (* k9 *);
   mkSubkey 26 KL 45  R  (* k10 *);
   mkSubkey 28 KA 45  L  (* k11 *);
   mkSubkey 30 KA 45  R  (* k12 *);
   mkSubkey 32 KL 60  L  (* ke3 *);
   mkSubkey 34 KL 60  R  (* ke4 *);
   mkSubkey 36 KR 60  L  (* k13 *);
   mkSubkey 38 KR 60  R  (* k14 *);
   mkSubkey 40 KB 60  L  (* k15 *);
   mkSubkey 42 KB 60  R  (* k16 *);
   mkSubkey 44 KL 77  L  (* k17 *);
   mkSubkey 46 KL 77  R  (* k18 *);
   mkSubkey 48 KA 77  L  (* ke5 *);
   mkSubkey 50 KA 77  R  (* ke6 *);
   mkSubkey 52 KR 94  L  (* k19 *);
   mkSubkey 54 KR 94  R  (* k20 *);
   mkSubkey 56 KA 94  L  (* k21 *);
   mkSubkey 58 KA 94  R  (* k22 *);
   mkSubkey 60 KL 111 L  (* k23 *);
   mkSubkey 62 KL 111 R  (* k24 *);
   mkSubkey 64 KB 111 L  (* kw3 *);
   mkSubkey 66 KB 111 R  (* kw4 *)
  ].

(** Key schedule constants and the four substitution tables. *)
Definition sigma : list Z :=
  [
   0xa09e667f; 0x3bcc908b;
   0xb67ae858; 0x4caa73b2;
   0xc6ef372f; 0xe94f82be;
   0x54ff53a5; 0xf1d36f1c;
   0x10e527fa; 0xde682d1d;
   0xb05688c2; 0xb3e6c1fd
  ].
Definition sbox1 : list Z :=
  [
   0x70; 0x82; 0x2c; 0xec; 0xb3; 0x27; 0xc0; 0xe5; 0xe4; 0x85; 0x57; 0x35; 0xea; 0x0c; 0xae; 0x41;
   0x23; 0xef; 0x6b; 0x93; 0x45; 0x19; 0xa5; 0x21; 0xed; 0x0e; 0x4f; 0x4e; 0x1d; 0x65; 0x92; 0xbd;
   0x86; 0xb8; 0xaf; 0x8f; 0x7c; 0xeb; 0x1f; 0xce; 0x3e; 0x30; 0xdc; 0x5f; 0x5e; 0xc5; 0x0b; 0x1a;
   0xa6; 0xe1; 0x39; 0xca; 0xd5; 0x47; 0x5d; 0x3d; 0xd9; 0x01; 0x5a; 0xd6; 0x51; 0x56; 0x6c; 0x4d;
   0x8b; 0x0d; 0x9a; 0x66; 0xfb; 0xcc; 0xb0; 0x2d; 0x74; 0x12; 0x2b; 0x20; 0xf0; 0xb1; 0x84; 0x99;
   0xdf; 0x4c; 0xcb; 0xc2; 0x34; 0x7e; 0x76; 0x05; 0x6d; 0xb7; 0xa9; 0x31; 0xd1; 0x17; 0x04; 0xd7;
   0x14; 0x58; 0x3a; 0x61; 0xde; 0x1b; 0x11; 0x1c; 0x32; 0x0f; 0x9c; 0x16; 0x53; 0x18; 0xf2; 0x22;
   0xfe; 0x44; 0xcf; 0xb2; 0xc3; 0xb5; 0x7a; 0x91; 0x24; 0x08; 0xe8; 0xa8; 0x60; 0xfc; 0x69; 0x50;
   0xaa; 0xd0; 0xa0; 0x7d; 0xa1; 0x89; 0x62; 0x97; 0x54; 0x5b; 0x1e; 0x95; 0xe0; 0xff; 0x64; 0xd2;
   0x10; 0xc4; 0x00; 0x48; 0xa3; 0xf7; 0x75; 0xdb; 0x8a; 0x03; 0xe6; 0xda; 0x09; 0x3f; 0xdd; 0x94;
   0x87; 0x5c; 0x83; 0x02; 0xcd; 0x4a; 0x90; 0x33; 0x73; 0x67; 0xf6; 0xf3; 0x9d; 0x7f; 0xbf; 0xe2;
   0x52; 0x9b; 0xd8; 0x26; 0xc8; 0x37; 0xc6; 0x3b; 0x81; 0x96; 0x6f; 0x4b; 0x13; 0xbe; 0x63; 0x2e;
   0xe9; 0x79; 0xa7; 0x8c; 0x9f; 0x6e; 0xbc; 0x8e; 0x29; 0xf5; 0xf9; 0xb6; 0x2f; 0xfd; 0xb4; 0x59;
   0x78; 0x98; 0x06; 0x6a; 0xe7; 0x46; 0x71; 0xba; 0xd4; 0x25; 0xab; 0x42; 0x88; 0xa2; 0x8d; 0xfa;
   0x72; 0x07; 0xb9; 0x55; 0xf8; 0xee; 0xac; 0x0a; 0x36; 0x49; 0x2a; 0x68; 0x3c; 0x38; 0xf1; 0xa4;
   0x40; 0x28; 0xd3; 0x7b; 0xbb; 0xc9; 0x43; 0xc1; 0x15; 0xe3; 0xad; 0xf4; 0x77; 0xc7; 0x80; 0x9e
  ].
Definition sbox2 : list Z :=
  [
   0xe0; 0x05; 0x58; 0xd9; 0x67; 0x4e; 0x81; 0xcb; 0xc9; 0x0b; 0xae; 0x6a; 0xd5; 0x18; 0x5d; 0x82;
   0x46; 0xdf; 0xd6; 0x27; 0x8a; 0x32; 0x4b; 0x42; 0xdb; 0x1c; 0x9e; 0x9c; 0x3a; 0xca; 0x25; 0x7b;
   0x0d; 0x71; 0x5f; 0x1f; 0xf8; 0xd7; 0x3e; 0x9d; 0x7c; 0x60; 0xb9; 0xbe; 0xbc; 0x8b; 0x16; 0x34;
   0x4d; 0xc3; 0x72; 0x95; 0xab; 0x8e; 0xba; 0x7a; 0xb3; 0x02; 0xb4; 0xad; 0xa2; 0xac; 0xd8; 0x9a;
   0x17; 0x1a; 0x35; 0xcc; 0xf7; 0x99; 0x61; 0x5a; 0xe8; 0x24; 0x56; 0x40; 0xe1; 0x63; 0x09; 0x33;
   0xbf; 0x98; 0x97; 0x85; 0x68; 0xfc; 0xec; 0x0a; 0xda; 0x6f; 0x53; 0x62; 0xa3; 0x2e; 0x08; 0xaf;
   0x28; 0xb0; 0x74; 0xc2; 0xbd; 0x36; 0x22; 0x38; 0x64; 0x1e; 0x39; 0x2c; 0xa6; 0x30; 0xe5; 0x44;
   0xfd; 0x88; 0x9f; 0x65; 0x87; 0x6b; 0xf4; 0x23; 0x48; 0x10; 0xd1; 0x51; 0xc0; 0xf9; 0xd2; 0xa0;
   0x55; 0xa1; 0x41; 0xfa; 0x43; 0x13; 0xc4; 0x2f; 0xa8; 0xb6; 0x3c; 0x2b; 0xc1; 0xff; 0xc8; 0xa5;
   0x20; 0x89; 0x00; 0x90; 0x47; 0xef; 0xea; 0xb7; 0x15; 0x06; 0xcd; 0xb5; 0x12; 0x7e; 0xbb; 0x29;
   0x0f; 0xb8; 0x07; 0x04; 0x9b; 0x94; 0x21; 0x66; 0xe6; 0xce; 0xed; 0xe7; 0x3b; 0xfe; 0x7f; 0xc5;
   0xa4; 0x37; 0xb1; 0x4c; 0x91; 0x6e; 0x8d; 0x76; 0x03; 0x2d; 0xde; 0x96; 0x26; 0x7d; 0xc6; 0x5c;
   0xd3; 0xf2; 0x4f; 0x19; 0x3f; 0xdc; 0x79; 0x1d; 0x52; 0xeb; 0xf3; 0x6d; 0x5e; 0xfb; 0x69; 0xb2;
   0xf0; 0x31; 0x0c; 0xd4; 0xcf; 0x8c; 0xe2; 0x75; 0xa9; 0x4a; 0x57; 0x84; 0x11; 0x45; 0x1b; 0xf5;
   0xe4; 0x0e; 0x73; 0xaa; 0xf1; 0xdd; 0x59; 0x14; 0x6c; 0x92; 0x54; 0xd0; 0x78; 0x70; 0xe3; 0x49;
   0x80; 0x50; 0xa7; 0xf6; 0x77; 0x93; 0x86; 0x83; 0x2a; 0xc7; 0x5b; 0xe9; 0xee; 0x8f; 0x01; 0x3d
  ].
Definition sbox3 : list Z :=
  [
   0x38; 0x41; 0x16; 0x76; 0xd9; 0x93; 0x60; 0xf2; 0x72; 0xc2; 0xab; 0x9a; 0x75; 0x06; 0x57; 0xa0;
   0x91; 0xf7; 0xb5; 0xc9; 0xa2; 0x8c; 0xd2; 0x90; 0xf6; 0x07; 0xa7; 0x27; 0x8e; 0xb2; 0x49; 0xde;
   0x43; 0x5c; 0xd7; 0xc7; 0x3e; 0xf5; 0x8f; 0x67; 0x1f; 0x18; 0x6e; 0xaf; 0x2f; 0xe2; 0x85; 0x0d;
   0x53; 0xf0; 0x9c; 0x65; 0xea; 0xa3; 0xae; 0x9e; 0xec; 0x80; 0x2d; 0x6b; 0xa8; 0x2b; 0x36; 0xa6;
   0xc5; 0x86; 0x4d; 0x33; 0xfd; 0x66; 0x58; 0x96; 0x3a; 0x09; 0x95; 0x10; 0x78; 0xd8; 0x42; 0xcc;
   0xef; 0x26; 0xe5; 0x61; 0x1a; 0x3f; 0x3b; 0x82; 0xb6; 0xdb; 0xd4; 0x98; 0xe8; 0x8b; 0x02; 0xeb;
   0x0a; 0x2c; 0x1d; 0xb0; 0x6f; 0x8d; 0x88; 0x0e; 0x19; 0x87; 0x4e; 0x0b; 0xa9; 0x0c; 0x79; 0x11;
   0x7f; 0x22; 0xe7; 0x59; 0xe1; 0xda; 0x3d; 0xc8; 0x12; 0x04; 0x74; 0x54; 0x30; 0x7e; 0xb4; 0x28;
   0x55; 0x68; 0x50; 0xbe; 0xd0; 0xc4; 0x31; 0xcb; 0x2a; 0xad; 0x0f; 0xca; 0x70; 0xff; 0x32; 0x69;
   0x08; 0x62; 0x00; 0x24; 0xd1; 0xfb; 0xba; 0xed; 0x45; 0x81; 0x73; 0x6d; 0x84; 0x9f; 0xee; 0x4a;
   0xc3; 0x2e; 0xc1; 0x01; 0xe6; 0x25; 0x48; 0x99; 0xb9; 0xb3; 0x7b; 0xf9; 0xce; 0xbf; 0xdf; 0x71;
   0x29; 0xcd; 0x6c; 0x13; 0x64; 0x9b; 0x63; 0x9d; 0xc0; 0x4b; 0xb7; 0xa5; 0x89; 0x5f; 0xb1; 0x17;
   0xf4; 0xbc; 0xd3; 0x46; 0xcf; 0x37; 0x5e; 0x47; 0x94; 0xfa; 0xfc; 0x5b; 0x97; 0xfe; 0x5a; 0xac;
   0x3c; 0x4c; 0x03; 0x35; 0xf3; 0x23; 0xb8; 0x5d; 0x6a; 0x92; 0xd5; 0x21; 0x44; 0x51; 0xc6; 0x7d;
   0x39; 0x83; 0xdc; 0xaa; 0x7c; 0x77; 0x56; 0x05; 0x1b; 0xa4; 0x15; 0x34; 0x1e; 0x1c; 0xf8; 0x52;
   0x20; 0x14; 0xe9; 0xbd; 0xdd; 0xe4; 0xa1; 0xe0; 0x8a; 0xf1; 0xd6; 0x7a; 0xbb; 0xe3; 0x40; 0x4f
  ].
Definition sbox4 : list Z :=
  [
   0x70; 0x2c; 0xb3; 0xc0; 0xe4; 0x57; 0xea; 0xae; 0x23; 0x6b; 0x45; 0xa5; 0xed; 0x4f; 0x1d; 0x92;
   0x86; 0xaf; 0x7c; 0x1f; 0x3e; 0xdc; 0x5e; 0x0b; 0xa6; 0x39; 0xd5; 0x5d; 0xd9; 0x5a; 0x51; 0x6c;
   0x8b; 0x9a; 0xfb; 0xb0; 0x74; 0x2b; 0xf0; 0x84; 0xdf; 0xcb; 0x34; 0x76; 0x6d; 0xa9; 0xd1; 0x04;
   0x14; 0x3a; 0xde; 0x11; 0x32; 0x9c; 0x53; 0xf2; 0xfe; 0xcf; 0xc3; 0x7a; 0x24; 0xe8; 0x60; 0x69;
   0xaa; 0xa0; 0xa1; 0x62; 0x54; 0x1e; 0xe0; 0x64; 0x10; 0x00; 0xa3; 0x75; 0x8a; 0xe6; 0x09; 0xdd;
   0x87; 0x83; 0xcd; 0x90; 0x73; 0xf6; 0x9d; 0xbf; 0x52; 0xd8; 0xc8; 0xc6; 0x81; 0x6f; 0x13; 0x63;
   0xe9; 0xa7; 0x9f; 0xbc; 0x29; 0xf9; 0x2f; 0xb4; 0x78; 0x06; 0xe7; 0x71; 0xd4; 0xab; 0x88; 0x8d;
   0x72; 0xb9; 0xf8; 0xac; 0x36; 0x2a; 0x3c; 0xf1; 0x40; 0xd3; 0xbb; 0x43; 0x15; 0xad; 0x77; 0x80;
   0x82; 0xec; 0x27; 0xe5; 0x85; 0x35; 0x0c; 0x41; 0xef; 0x93; 0x19; 0x21; 0x0e; 0x4e; 0x65; 0xbd;
   0xb8; 0x8f; 0xeb; 0xce; 0x30; 0x5f; 0xc5; 0x1a; 0xe1; 0xca; 0x47; 0x3d; 0x01; 0xd6; 0x56; 0x4d;
   0x0d; 0x66; 0xcc; 0x2d; 0x12; 0x20; 0xb1; 0x99; 0x4c; 0xc2; 0x7e; 0x05; 0xb7; 0x31; 0x17; 0xd7;
   0x58; 0x61; 0x1b; 0x1c; 0x0f; 0x16; 0x18; 0x22; 0x44; 0xb2; 0xb5; 0x91; 0x08; 0xa8; 0xfc; 0x50;
   0xd0; 0x7d; 0x89; 0x97; 0x5b; 0x95; 0xff; 0xd2; 0xc4; 0x48; 0xf7; 0xdb; 0x03; 0xda; 0x3f; 0x94;
   0x5c; 0x02; 0x4a; 0x33; 0x67; 0xf3; 0x7f; 0xe2; 0x9b; 0x26; 0x37; 0x3b; 0x96; 0x4b; 0xbe; 0x2e;
   0x79; 0x8c; 0x6e; 0x8e; 0xf5; 0xb6; 0xfd; 0x59; 0x98; 0x6a; 0x46; 0xba; 0x25; 0x42; 0xa2; 0xfa;
   0x07; 0x55; 0xee; 0x0a; 0x49; 0x68; 0x38; 0xa4; 0x28; 0x7b; 0xc9; 0xc1; 0xe3; 0xf4; 0xc7; 0x9e
  ].

(** Modelled from the spec: the structure CamelliaContext of camellia.h
    (section 3): the number of rounds, the 16 words of KL, KR, KA and KB, and
    the 68 words of subkeys. *)
Record CamelliaContext : Type :=
  mkCamelliaContext { nr : nat; k : list Z; ks : list Z }.

(** The four words (left1, left2, right1, right2) of the data block. *)
Definition Block : Type := (Z * Z * Z * Z)%type.

(** Operations on [uint32_t]: [~x] and [x << m]. *)
Definition not32 (x : Z) : Z := Z.land (Z.lnot x) 0xFFFFFFFF.
Definition shl32 (x : Z) (m : Z) : Z := Z.land (Z.shiftl x m) 0xFFFFFFFF.

(** S-function. *)
Definition CAMELLIA_S (zl zr : Z) : Z * Z :=
  let zl' :=
    Z.lor (Z.lor (Z.lor
      (Z.shiftl (tbl sbox1 (Z.land (Z.shiftr zl 24) 0xFF)) 24)
      (Z.shiftl (tbl sbox2 (Z.land (Z.shiftr zl 16) 0xFF)) 16))
      (Z.shiftl (tbl sbox3 (Z.land (Z.shiftr zl 8) 0xFF)) 8))
      (tbl sbox4 (Z.land zl 0xFF)) in
  let zr' :=
    Z.lor (Z.lor (Z.lor
      (Z.shiftl (tbl sbox2 (Z.land (Z.shiftr zr 24) 0xFF)) 24)
      (Z.shiftl (tbl sbox3 (Z.land (Z.shiftr zr 16) 0xFF)) 16))
      (Z.shiftl (tbl sbox4 (Z.land (Z.shiftr zr 8) 0xFF)) 8))
      (tbl sbox1 (Z.land zr 0xFF)) in
  (zl', zr').

(** P-function. *)
Definition CAMELLIA_P (zl zr : Z) : Z * Z :=
  let zl := Z.lxor zl (ROL32 zr 8) in
  let zr := Z.lxor zr (ROL32 zl 16) in
  let zl := Z.lxor zl (ROR32 zr 8) in
  let zr := Z.lxor zr (ROR32 zl 8) in
  (zl, zr).

(** Camellia round function; the result is the new value of the four
    lvalues (left1, left2, right1, right2). *)
Definition CAMELLIA_ROUND (left1 left2 right1 right2 k1 k2 : Z) : Block :=
  let temp1 := Z.lxor left1 k1 in
  let temp2 := Z.lxor left2 k2 in
  let '(temp1, temp2) := CAMELLIA_S temp1 temp2 in
  let '(temp1, temp2) := CAMELLIA_P temp1 temp2 in
  let temp1 := Z.lxor temp1 right2 in
  let temp2 := Z.lxor temp2 right1 in
  let right1 := left1 in
  let right2 := left2 in
  let left1 := temp2 in
  let left2 := temp1 in
  (left1, left2, right1, right2).

(** FL-function; the result is the new value of (xl, xr). *)
Definition CAMELLIA_FL (xl xr kl kr : Z) : Z * Z :=
  let temp1 := Z.land xl kl in
  let xr := Z.lxor xr (ROL32 temp1 1) in
  let xl := Z.lxor xl (Z.lor xr kr) in
  (xl, xr).

(** Inverse FL-function; the result is the new value of (yl, yr). *)
Definition CAMELLIA_INV_FL (yl yr kl kr : Z) : Z * Z :=
  let yl := Z.lxor yl (Z.lor yr kr) in
  let temp1 := Z.land yl kl in
  let yr := Z.lxor yr (ROL32 temp1 1) in
  (yl, yr).

(** The number of rounds selected by the key length. *)
Definition roundsOfKeyLength (keyLength : nat) : option nat :=
  if (keyLength =? 16)%nat then Some 18%nat
  else if (keyLength =? 24)%nat || (keyLength =? 32)%nat then Some 24%nat
  else None.

(** [memset(k, 0, 64)]. *)
Definition memsetKey (k : list Z) : option (list Z) :=
  if (16 <=? length k)%nat then Some (repeat 0 16 ++ skipn 16 k) else None.

(** [k[dst] ^= k[src]]. *)
Definition xorInto (dst src : nat) (k : list Z) : option (list Z) :=
  a <- nth_error k dst ;;
  b <- nth_error k src ;;
  store dst (Z.lxor a b) k.

(** Body of the loop that converts KL and KR and forms KB. *)
Definition convertStep (i : nat) (k : list Z) : option (list Z) :=
  x <- nth_error k (KL + i) ;;
  k <- store (KL + i) (betoh32 x) k ;;
  x <- nth_error k (KR + i) ;;
  k <- store (KR + i) (betoh32 x) k ;;
  a <- nth_error k (KL + i) ;;
  b <- nth_error k (KR + i) ;;
  store (KB + i) (Z.lxor a b) k.

(** First part of camelliaInit: the key is saved in [k], completed to 256
    bits, converted to host order and KL ^ KR is stored in KB. *)
Definition loadKey (k : list Z) (key : list Z) (keyLength : nat)
  : option (list Z) :=
  (* Clear key contents *)
  k <- memsetKey k ;;
  (* Save the supplied secret key *)
  k <- memcpyWords k key keyLength ;;
  (* 192-bit keys require special processing *)
  k <- (if (keyLength =? 24)%nat then
          x <- nth_error k (KR + 0) ;;
          k <- store (KR + 2) (not32 x) k ;;
          x <- nth_error k (KR + 1) ;;
          store (KR + 3) (not32 x) k
        else Some k) ;;
  (* XOR KL and KR before applying the rounds *)
  forUp 4 0 convertStep k.

(** Body of the loop that generates KA and KB. *)
Definition sigmaStep (i : nat) (k : list Z) : option (list Z) :=
  (* Apply round function *)
  l1 <- nth_error k (KB + 0) ;;
  l2 <- nth_error k (KB + 1) ;;
  r1 <- nth_error k (KB + 2) ;;
  r2 <- nth_error k (KB + 3) ;;
  s0 <- nth_error sigma (2 * i) ;;
  s1 <- nth_error sigma (2 * i + 1) ;;
  let '(l1, l2, r1, r2) := CAMELLIA_ROUND l1 l2 r1 r2 s0 s1 in
  k <- store (KB + 0) l1 k ;;
  k <- store (KB + 1) l2 k ;;
  k <- store (KB + 2) r1 k ;;
  k <- store (KB + 3) r2 k ;;
  if (i =? 1)%nat then
    (* The result is XORed with KL *)
    k <- xorInto (KB + 0) (KL + 0) k ;;
    k <- xorInto (KB + 1) (KL + 1) k ;;
    k <- xorInto (KB + 2) (KL + 2) k ;;
    xorInto (KB + 3) (KL + 3) k
  else if (i =? 3)%nat then
    (* Save KA after the 4th round *)
    a0 <- nth_error k (KB + 0) ;;
    a1 <- nth_error k (KB + 1) ;;
    a2 <- nth_error k (KB + 2) ;;
    a3 <- nth_error k (KB + 3) ;;
    k <- store (KA + 0) a0 k ;;
    k <- store (KA + 1) a1 k ;;
    k <- store (KA + 2) a2 k ;;
    k <- store (KA + 3) a3 k ;;
    (* The result is XORed with KR *)
    k <- xorInto (KB + 0) (KR + 0) k ;;
    k <- xorInto (KB + 1) (KR + 1) k ;;
    k <- xorInto (KB + 2) (KR + 2) k ;;
    xorInto (KB + 3) (KR + 3) k
  else Some k.

(** Body of the loop that generates the subkeys; [kk] is [context->k]. *)
Definition subkeyStep (kk : list Z) (ks : list Z) (p : CamelliaSubkey)
  : option (list Z) :=
  (* Calculate the shift count *)
  let n := ((shift p + position p) / 32)%nat in
  let m := ((shift p + position p) mod 32)%nat in
  (* Point to KL, KR, KA or KB *)
  let k := skipn (key p) kk in
  (* Generate the current subkey *)
  if (m =? 0)%nat then
    a <- nth_error k (n mod 4) ;;
    ks <- store (index p) a ks ;;
    b <- nth_error k ((n + 1) mod 4) ;;
    store (index p + 1) b ks
  else
    a <- nth_error k (n mod 4) ;;
    b <- nth_error k ((n + 1) mod 4) ;;
    ks <- store (index p)
            (Z.lor (shl32 a (Z.of_nat m)) (Z.shiftr b (32 - Z.of_nat m))) ks ;;
    b <- nth_error k ((n + 1) mod 4) ;;
    c <- nth_error k ((n + 2) mod 4) ;;
    store (index p + 1)
      (Z.lor (shl32 b (Z.of_nat m)) (Z.shiftr c (32 - Z.of_nat m))) ks.

Definition generateSubkeys (kk : list Z) (p : list CamelliaSubkey)
  (ks : list Z) : option (list Z) :=
  fold_left (fun acc e => ks <- acc ;; subkeyStep kk ks e) p (Some ks).

(** Initialize a Camellia context using the supplied key.  The result is the
    error code and the context after the call; [None] is an out-of-bounds
    access. *)
Definition camelliaInit (context : CamelliaContext) (key : list Z)
  (keyLength : nat) : option (error_t * CamelliaContext) :=
  match roundsOfKeyLength keyLength with
  | None => Some (ERROR_INVALID_KEY_LENGTH, context)
  | Some n =>
      let context := mkCamelliaContext n (k context) (ks context) in
      k1 <- loadKey (k context) key keyLength ;;
      (* Generate the 128-bit keys KA and KB *)
      k2 <- forUp 6 0 sigmaStep k1 ;;
      let context := mkCamelliaContext (nr context) k2 (ks context) in
      (* The key schedule depends on the length of key *)
      let p := if (keyLength =? 16)%nat then ks1 else ks2 in
      (* Generate subkeys *)
      ks' <- generateSubkeys (k context) p (ks context) ;;
      Some (NO_ERROR, mkCamelliaContext (nr context) (k context) ks')
  end.

(** The memory the block functions work on: the caller's context, the four
    local words and the local pointer [ks], an offset into [context->ks]. *)
Record CamelliaMem : Type :=
  mkMem { context : CamelliaContext;
          left1 : Z; left2 : Z; right1 : Z; right2 : Z;
          ksp : nat }.

(** [ks[j]] through the local pointer. *)
Definition ksAt (m : CamelliaMem) (j : nat) : option Z :=
  nth_error (ks (context m)) (ksp m + j).

(** 6th, 12th and 18th rounds require special processing. *)
Definition specialRound (i : nat) : bool :=
  (i =? 7)%nat || (i =? 13)%nat || (i =? 19)%nat.

(** Body of the loop of camelliaEncryptBlock. *)
Definition encryptRound (i : nat) (m : CamelliaMem) : option CamelliaMem :=
  (* Apply round function *)
  k0 <- ksAt m 0 ;;
  k1 <- ksAt m 1 ;;
  let '(l1, l2, r1, r2) :=
    CAMELLIA_ROUND (left1 m) (left2 m) (right1 m) (right2 m) k0 k1 in
  (* Advance current location in key schedule *)
  let m := mkMem (context m) l1 l2 r1 r2 (ksp m + 2) in
  if specialRound i then
    (* Apply FL-function *)
    k0 <- ksAt m 0 ;;
    k1 <- ksAt m 1 ;;
    let '(l1, l2) := CAMELLIA_FL (left1 m) (left2 m) k0 k1 in
    (* Apply inverse FL-function *)
    k2 <- ksAt m 2 ;;
    k3 <- ksAt m 3 ;;
    let '(r1, r2) := CAMELLIA_INV_FL (right1 m) (right2 m) k2 k3 in
    (* Advance current location in key schedule *)
    Some (mkMem (context m) l1 l2 r1 r2 (ksp m + 4))
  else Some m.

(** camelliaEncryptBlock up to the end of its loop. *)
Definition encryptRounds (ctx : CamelliaContext) (input : list Z)
  : option CamelliaMem :=
  (* The plaintext is separated into two parts (L and R) *)
  l1 <- LOAD32BE input 0 ;;
  l2 <- LOAD32BE input 4 ;;
  r1 <- LOAD32BE input 8 ;;
  r2 <- LOAD32BE input 12 ;;
  (* The key schedule must be applied in ascending order *)
  let m := mkMem ctx l1 l2 r1 r2 0 in
  (* XOR plaintext with kw1 and kw2 *)
  k0 <- ksAt m 0 ;;
  k1 <- ksAt m 1 ;;
  k2 <- ksAt m 2 ;;
  k3 <- ksAt m 3 ;;
  let m := mkMem (context m) (Z.lxor (left1 m) k0) (Z.lxor (left2 m) k1)
             (Z.lxor (right1 m) k2) (Z.lxor (right2 m) k3) (ksp m + 4) in
  (* Apply round function 18 or 24 times depending on the key length *)
  forDown (nr (context m)) encryptRound m.

(** Encrypt a 16-byte block using Camellia algorithm.  Returns the context
    after the call and the output block. *)
Definition camelliaEncryptBlock (ctx : CamelliaContext) (input : list Z)
  : option (CamelliaContext * list Z) :=
  m <- encryptRounds ctx input ;;
  (* XOR operation with kw3 and kw4 *)
  k0 <- ksAt m 0 ;;
  k1 <- ksAt m 1 ;;
  k2 <- ksAt m 2 ;;
  k3 <- ksAt m 3 ;;
  let r1 := Z.lxor (right1 m) k0 in
  let r2 := Z.lxor (right2 m) k1 in
  let l1 := Z.lxor (left1 m) k2 in
  let l2 := Z.lxor (left2 m) k3 in
  (* The resulting value is the ciphertext *)
  Some (context m,
        STORE32BE r1 ++ STORE32BE r2 ++ STORE32BE l1 ++ STORE32BE l2).

(** Body of the loop of camelliaDecryptBlock; a pointer moved below
    [context->ks] is an invalid pointer. *)
Definition decryptRound (i : nat) (m : CamelliaMem) : option CamelliaMem :=
  (* Update current location in key schedule *)
  m <- (if (2 <=? ksp m)%nat
        then Some (mkMem (context m) (left1 m) (left2 m) (right1 m) (right2 m)
                         (ksp m - 2))
        else None) ;;
  (* Apply round function *)
  k0 <- ksAt m 0 ;;
  k1 <- ksAt m 1 ;;
  let '(r1, r2, l1, l2) :=
    CAMELLIA_ROUND (right1 m) (right2 m) (left1 m) (left2 m) k0 k1 in
  let m := mkMem (context m) l1 l2 r1 r2 (ksp m) in
  if specialRound i then
    (* Update current location in key schedule *)
    m <- (if (4 <=? ksp m)%nat
          then Some (mkMem (context m) (left1 m) (left2 m) (right1 m)
                           (right2 m) (ksp m - 4))
          else None) ;;
    (* Apply FL-function *)
    k2 <- ksAt m 2 ;;
    k3 <- ksAt m 3 ;;
    let '(r1, r2) := CAMELLIA_FL (right1 m) (right2 m) k2 k3 in
    (* Apply inverse FL-function *)
    k0 <- ksAt m 0 ;;
    k1 <- ksAt m 1 ;;
    let '(l1, l2) := CAMELLIA_INV_FL (left1 m) (left2 m) k0 k1 in
    Some (mkMem (context m) l1 l2 r1 r2 (ksp m))
  else Some m.

(** Decrypt a 16-byte block using Camellia algorithm. *)
Definition camelliaDecryptBlock (ctx : CamelliaContext) (input : list Z)
  : option (CamelliaContext * list Z) :=
  (* The ciphertext is separated into two parts (L and R) *)
  r1 <- LOAD32BE input 0 ;;
  r2 <- LOAD32BE input 4 ;;
  l1 <- LOAD32BE input 8 ;;
  l2 <- LOAD32BE input 12 ;;
  (* The key schedule must be applied in reverse order *)
  let m := mkMem ctx l1 l2 r1 r2 (if (nr ctx =? 18)%nat then 48 else 64) in
  (* XOR ciphertext with kw3 and kw4 *)
  k0 <- ksAt m 0 ;;
  k1 <- ksAt m 1 ;;
  k2 <- ksAt m 2 ;;
  k3 <- ksAt m 3 ;;
  let m := mkMem (context m) (Z.lxor (left1 m) k2) (Z.lxor (left2 m) k3)
             (Z.lxor (right1 m) k0) (Z.lxor (right2 m) k1) (ksp m) in
  (* Apply round function 18 or 24 times depending on the key length *)
  m <- forDown (nr (context m)) decryptRound m ;;
  (* Update current location in key schedule *)
  m <- (if (4 <=? ksp m)%nat
        then Some (mkMem (context m) (left1 m) (left2 m) (right1 m) (right2 m)
                         (ksp m - 4))
        else None) ;;
  (* XOR operation with kw1 and kw2 *)
  k0 <- ksAt m 0 ;;
  k1 <- ksAt m 1 ;;
  k2 <- ksAt m 2 ;;
  k3 <- ksAt m 3 ;;
  let l1 := Z.lxor (left1 m) k0 in
  let l2 := Z.lxor (left2 m) k1 in
  let r1 := Z.lxor (right1 m) k2 in
  let r2 := Z.lxor (right2 m) k3 in
  (* The resulting value is the plaintext *)
  Some (context m,
        STORE32BE l1 ++ STORE32BE l2 ++ STORE32BE r1 ++ STORE32BE r2).

End Camellia.

(* ================================================================== *)
(** ** Reference definitions and well-formedness predicates             *)
(* ================================================================== *)

Module Reference.

(** The product of two polynomials over GF(2), coefficients as bits. *)
Fixpoint clmul (n : nat) (a b : Z) : Z :=
  match n with
  | O => 0
  | S m =>
      Z.lxor (if Z.testbit b (Z.of_nat m) then Z.shiftl a (Z.of_nat m) else 0)
             (clmul m a b)
  end.

(** The remainder of a polynomial of degree below [8 + n] modulo the
    polynomial x^8 + x^4 + x^3 + x + 1, that is 0x11B. *)
Fixpoint reduce11B (n : nat) (x : Z) : Z :=
  match n with
  | O => x
  | S m =>
      let x := if Z.testbit x (Z.of_nat (8 + m))
               then Z.lxor x (Z.shiftl 0x11B (Z.of_nat m)) else x in
      reduce11B m x
  end.

(** The product in GF(2^8) under the reduction polynomial 0x11B. *)
Definition gfMul (a b : Z) : Z := reduce11B 8 (clmul 8 a b).

(** The word added to [w[i - Nk]] by the FIPS-197 key expansion, from the
    previous word [t]. *)
Definition expansionWord (Nk i : nat) (t : Z) : Z :=
  if (i mod Nk =? 0)%nat then
    Z.lxor (Aes.subWord (Aes.rotWord t)) (nth (i / Nk) Aes.rcon 0)
  else if (6 <? Nk)%nat && (i mod Nk =? 4)%nat then Aes.subWord t
  else t.

(** A buffer of [n] bytes. *)
Definition bytes (n : nat) (l : list Z) : Prop :=
  length l = n /\ Forall is_byte l.

(** A key buffer that holds at least [keyLength] bytes. *)
Definition keyBuffer (key : list Z) (keyLength : nat) : Prop :=
  (keyLength <= length key)%nat /\ Forall is_byte key.

(** The objects behind the context pointers: arrays of the declared sizes
    holding [uint32_t] values. *)
Definition wfAes (c : Aes.AesContext) : Prop :=
  length (Aes.w c) = 60%nat /\ Forall is_word32 (Aes.w c).

Definition wfCamellia (c : Camellia.CamelliaContext) : Prop :=
  length (Camellia.k c) = 16%nat /\ Forall is_word32 (Camellia.k c) /\
  length (Camellia.ks c) = 68%nat /\ Forall is_word32 (Camellia.ks c).

(** Known-answer vectors: FIPS-197 appendix C and RFC 3713 appendix A. *)
Definition aesKey128 : list Z :=
  [0x00; 0x01; 0x02; 0x03; 0x04; 0x05; 0x06; 0x07;
   0x08; 0x09; 0x0A; 0x0B; 0x0C; 0x0D; 0x0E; 0x0F].
Definition aesKey192 : list Z :=
  aesKey128 ++ [0x10; 0x11; 0x12; 0x13; 0x14; 0x15; 0x16; 0x17].
Definition aesKey256 : list Z :=
  aesKey192 ++ [0x18; 0x19; 0x1A; 0x1B; 0x1C; 0x1D; 0x1E; 0x1F].
Definition aesPlain : list Z :=
  [0x00; 0x11; 0x22; 0x33; 0x44; 0x55; 0x66; 0x77;
   0x88; 0x99; 0xAA; 0xBB; 0xCC; 0xDD; 0xEE; 0xFF].
Definition aesCipher192 : list Z :=
  [0xDD; 0xA9; 0x7C; 0xA4; 0x86; 0x4C; 0xDF; 0xE0;
   0x6E; 0xAF; 0x70; 0xA0; 0xEC; 0x0D; 0x71; 0x91].

Definition camelliaKey128 : list Z :=
  [0x01; 0x23; 0x45; 0x67; 0x89; 0xAB; 0xCD; 0xEF;
   0xFE; 0xDC; 0xBA; 0x98; 0x76; 0x54; 0x32; 0x10].
Definition camelliaKey192 : list Z :=
  camelliaKey128 ++ [0x00; 0x11; 0x22; 0x33; 0x44; 0x55; 0x66; 0x77].
Definition camelliaKey256 : list Z :=
  camelliaKey192 ++ [0x88; 0x99; 0xAA; 0xBB; 0xCC; 0xDD; 0xEE; 0xFF].
Definition camelliaPlain : list Z := camelliaKey128.
Definition camelliaCipher128 : list Z :=
  [0x67; 0x67; 0x31; 0x38; 0x54; 0x96; 0x69; 0x73;
   0x08; 0x57; 0x06; 0x56; 0x48; 0xEA; 0xBE; 0x43].

(** Contexts before initialization, with arbitrary (here zero) contents. *)
Definition freshAes : Aes.AesContext := Aes.mkAesContext 0 (repeat 0 60).
Definition freshCamellia : Camellia.CamelliaContext :=
  Camellia.mkCamelliaContext 0 (repeat 0 16) (repeat 0 68).



End Reference.

Import Reference.

(* ================================================================== *)
(** ** Functional views used in the proofs                              *)
(* ================================================================== *)

Module Views.

(** The coefficients of the ring (Z, lxor, land). *)
Definition bitCoeff (b : bool) : Z := if b then -1 else 0.

Definition allBytes : list Z := map Z.of_nat (seq 0 256).

(** Bytewise exclusive or of two buffers. *)
Fixpoint xorBytes (s t : list Z) : list Z :=
  match s, t with
  | a :: s', b :: t' => Z.lxor a b :: xorBytes s' t'
  | _, _ => []
  end.

(** The sixteen bytes, in memory order, of the round key at [k]. *)
Definition keyBytes (k : list Z) : list Z := flat_map STORE32LE (firstn 4 k).

Definition roundKey (c : Aes.AesContext) (i : nat) : list Z :=
  keyBytes (skipn (4 * i) (Aes.w c)).

(** What one iteration of the loops of the AES block functions computes. *)
Definition encR (c : Aes.AesContext) (i : nat) (s : list Z) : list Z :=
  xorBytes (Aes.mixColumns (Aes.shiftRows (Aes.subBytes s))) (roundKey c i).

Definition decR (c : Aes.AesContext) (i : nat) (s : list Z) : list Z :=
  Aes.invMixColumns
    (xorBytes (Aes.invSubBytes (Aes.invShiftRows s)) (roundKey c i)).

(** Iteration of a round function with the counter going up from 1 to [n],
    and down from [n] to 1. *)
Fixpoint iterUp {A : Type} (f : nat -> A -> A) (n : nat) (s : A) : A :=
  match n with
  | O => s
  | S m => f n (iterUp f m s)
  end.

Fixpoint iterDown {A : Type} (f : nat -> A -> A) (n : nat) (s : A) : A :=
  match n with
  | O => s
  | S m => iterDown f m (f n s)
  end.

(** Rounds 1 to [n] of encryption; rounds [n] down to 1 of decryption. *)
Definition encLoop (c : Aes.AesContext) : nat -> list Z -> list Z :=
  iterUp (encR c).

Definition decLoop (c : Aes.AesContext) : nat -> list Z -> list Z :=
  iterDown (decR c).

(** An array of [n] words. *)
Definition words (n : nat) (l : list Z) : Prop :=
  length l = n /\ Forall is_word32 l.

(** The four words of the data block held in the memory of the Camellia
    block functions. *)
Definition regs (m : Camellia.CamelliaMem) : Camellia.Block :=
  (Camellia.left1 m, Camellia.left2 m, Camellia.right1 m, Camellia.right2 m).

(** The memory with the context [c], the data block [b], the pointer [p]. *)
Definition memOf (c : Camellia.CamelliaContext) (b : Camellia.Block) (p : nat)
  : Camellia.CamelliaMem :=
  let '(l1, l2, r1, r2) := b in Camellia.mkMem c l1 l2 r1 r2 p.

Definition wordsBlock (b : Camellia.Block) : Prop :=
  let '(l1, l2, r1, r2) := b in
  is_word32 l1 /\ is_word32 l2 /\ is_word32 r1 /\ is_word32 r2.

(** The operations applied to the data block between the two whitenings:
    a round with the subkey pair at offset [p] of [ks], or the FL and inverse
    FL functions with the four subkey words at offset [p]. *)
Inductive op : Type :=
  | ORound (p : nat)
  | OFL (p : nat).

Definition applyOp (ks : list Z) (o : op) (b : Camellia.Block) : Camellia.Block :=
  let '(l1, l2, r1, r2) := b in
  match o with
  | ORound p =>
      Camellia.CAMELLIA_ROUND l1 l2 r1 r2 (nth p ks 0) (nth (p + 1) ks 0)
  | OFL p =>
      let '(l1, l2) := Camellia.CAMELLIA_FL l1 l2 (nth p ks 0) (nth (p + 1) ks 0) in
      let '(r1, r2) :=
        Camellia.CAMELLIA_INV_FL r1 r2 (nth (p + 2) ks 0) (nth (p + 3) ks 0) in
      (l1, l2, r1, r2)
  end.

(** The same operations as the decryption loop applies them, with the roles
    of the two halves exchanged. *)
Definition undoOp (ks : list Z) (o : op) (b : Camellia.Block) : Camellia.Block :=
  let '(l1, l2, r1, r2) := b in
  match o with
  | ORound p =>
      let '(r1, r2, l1, l2) :=
        Camellia.CAMELLIA_ROUND r1 r2 l1 l2 (nth p ks 0) (nth (p + 1) ks 0) in
      (l1, l2, r1, r2)
  | OFL p =>
      let '(r1, r2) :=
        Camellia.CAMELLIA_FL r1 r2 (nth (p + 2) ks 0) (nth (p + 3) ks 0) in
      let '(l1, l2) :=
        Camellia.CAMELLIA_INV_FL l1 l2 (nth p ks 0) (nth (p + 1) ks 0) in
      (l1, l2, r1, r2)
  end.

Definition applyOps (ks : list Z) (l : list op) (b : Camellia.Block) : Camellia.Block :=
  fold_left (fun b o => applyOp ks o b) l b.

Definition undoOps (ks : list Z) (l : list op) (b : Camellia.Block) : Camellia.Block :=
  fold_left (fun b o => undoOp ks o b) l b.

(** The operations of the encryption loop started with the counter at [n]
    and the pointer at [p], in execution order. *)
Fixpoint encOps (n p : nat) : list op :=
  match n with
  | O => []
  | S m =>
      if Camellia.specialRound n
      then ORound p :: OFL (p + 2) :: encOps m (p + 6)
      else ORound p :: encOps m (p + 2)
  end.

(** The operations of the decryption loop, in execution order. *)
Fixpoint decOps (n p : nat) : list op :=
  match n with
  | O => []
  | S m =>
      if Camellia.specialRound n
      then ORound (p - 2) :: OFL (p - 6) :: decOps m (p - 6)
      else ORound (p - 2) :: decOps m (p - 2)
  end.

(** The number of subkey words the loops started at [n] go through. *)
Fixpoint advance (n : nat) : nat :=
  match n with
  | O => 0
  | S m => (if Camellia.specialRound n then 6 else 2) + advance m
  end.


(** Whitening with the four words of [ks] at offset [p]. *)
Definition whiten (ks : list Z) (p : nat) (b : Camellia.Block) : Camellia.Block :=
  let '(a, b, c, d) := b in
  (Z.lxor a (nth p ks 0), Z.lxor b (nth (p + 1) ks 0),
   Z.lxor c (nth (p + 2) ks 0), Z.lxor d (nth (p + 3) ks 0)).

Definition swapHalves (b : Camellia.Block) : Camellia.Block :=
  let '(l1, l2, r1, r2) := b in (r1, r2, l1, l2).

Definition be32 (b0 b1 b2 b3 : Z) : Z :=
  Z.lor (Z.lor (Z.lor (Z.shiftl b0 24) (Z.shiftl b1 16)) (Z.shiftl b2 8)) b3.

Definition loadBlock (p : list Z) : Camellia.Block :=
  (be32 (nth 0 p 0) (nth 1 p 0) (nth 2 p 0) (nth 3 p 0),
   be32 (nth 4 p 0) (nth 5 p 0) (nth 6 p 0) (nth 7 p 0),
   be32 (nth 8 p 0) (nth 9 p 0) (nth 10 p 0) (nth 11 p 0),
   be32 (nth 12 p 0) (nth 13 p 0) (nth 14 p 0) (nth 15 p 0)).

Definition storeBlock (b : Camellia.Block) : list Z :=
  let '(a, b, c, d) := b in
  STORE32BE a ++ STORE32BE b ++ STORE32BE c ++ STORE32BE d.


(** The round function in the words of the specification, section 4.3:
    new right = (L1, L2); new left = (t2 xor R2, t1 xor R1). *)
Definition roundAsSpecified (l1 l2 r1 r2 k1 k2 : Z) : Camellia.Block :=
  let '(t1, t2) := Camellia.CAMELLIA_S (Z.lxor l1 k1) (Z.lxor l2 k2) in
  let '(t1, t2) := Camellia.CAMELLIA_P t1 t2 in
  (Z.lxor t2 r2, Z.lxor t1 r1, l1, l2).

(** The entries of the schedule tables select a bank and a slot pair. *)
Definition entryOk (e : Camellia.CamelliaSubkey) : bool :=
  (Camellia.key e + 4 <=? 16)%nat && (Camellia.index e + 2 <=? 68)%nat.

End Views.

Import Views.

(* ================================================================== *)
(** ** FIPS-197 and RFC 3713 as references; code outside the claims     *)
(* ================================================================== *)

Module Standards.

(** Rotation of a byte to the left. *)
Definition rotl8 (b : Z) (n : Z) : Z :=
  Z.land (Z.lor (Z.shiftl b n) (Z.shiftr b (8 - n))) 0xFF.

(** FIPS-197, 4.2.1: multiplication by x. *)
Definition xtime (b : Z) : Z :=
  Z.lxor (Z.land (Z.shiftl b 1) 0xFF) (if Z.testbit b 7 then 0x1B else 0).

(** The powers of {02} in GF(2^8). *)
Fixpoint gfPow2 (n : nat) : Z :=
  match n with
  | O => 1
  | S m => gfMul 2 (gfPow2 m)
  end.

(** The multiplicative inverse in GF(2^8), with {00} mapped to itself. *)
Definition gfInv (x : Z) : Z :=
  match find (fun y => gfMul x y =? 1) allBytes with
  | Some y => y
  | None => 0
  end.

(** FIPS-197, 5.1.1: the affine transformation and the S-box. *)
Definition affine (b : Z) : Z :=
  Z.lxor (Z.lxor (Z.lxor (Z.lxor (Z.lxor b (rotl8 b 1)) (rotl8 b 2))
                        (rotl8 b 3)) (rotl8 b 4)) 0x63.

Definition fipsSbox (x : Z) : Z := affine (gfInv x).

(** FIPS-197, 5.3.2: the inverse of the affine transformation and the
    inverse S-box. *)
Definition invAffine (b : Z) : Z :=
  Z.lxor (Z.lxor (Z.lxor (rotl8 b 1) (rotl8 b 3)) (rotl8 b 6)) 0x05.

Definition fipsInvSbox (y : Z) : Z := gfInv (invAffine y).

(** FIPS-197, 5.1.2: byte [i] of the state after ShiftRows is the byte of
    the same row [i mod 4] taken [i mod 4] columns to the right; 5.3.1 for
    the inverse. *)
Definition fipsShiftRows (s : list Z) : list Z :=
  map (fun i => nth (4 * ((i / 4 + i mod 4) mod 4) + i mod 4) s 0) (seq 0 16).

Definition fipsInvShiftRows (s : list Z) : list Z :=
  map (fun i => nth (4 * ((i / 4 + 4 - i mod 4) mod 4) + i mod 4) s 0) (seq 0 16).

(** FIPS-197, 5.1.3 and 5.3.3: the products of a column by the fixed
    polynomials {03}x^3 + {01}x^2 + {01}x + {02} and
    {0b}x^3 + {0d}x^2 + {09}x + {0e}. *)
Definition fipsMixColumn (b0 b1 b2 b3 : Z) : list Z :=
  [ Z.lxor (Z.lxor (Z.lxor (gfMul 2 b0) (gfMul 3 b1)) b2) b3;
    Z.lxor (Z.lxor (Z.lxor b0 (gfMul 2 b1)) (gfMul 3 b2)) b3;
    Z.lxor (Z.lxor (Z.lxor b0 b1) (gfMul 2 b2)) (gfMul 3 b3);
    Z.lxor (Z.lxor (Z.lxor (gfMul 3 b0) b1) b2) (gfMul 2 b3) ].

Definition fipsInvMixColumn (b0 b1 b2 b3 : Z) : list Z :=
  [ Z.lxor (Z.lxor (Z.lxor (gfMul 14 b0) (gfMul 11 b1)) (gfMul 13 b2)) (gfMul 9 b3);
    Z.lxor (Z.lxor (Z.lxor (gfMul 9 b0) (gfMul 14 b1)) (gfMul 11 b2)) (gfMul 13 b3);
    Z.lxor (Z.lxor (Z.lxor (gfMul 13 b0) (gfMul 9 b1)) (gfMul 14 b2)) (gfMul 11 b3);
    Z.lxor (Z.lxor (Z.lxor (gfMul 11 b0) (gfMul 13 b1)) (gfMul 9 b2)) (gfMul 14 b3) ].

(** A transformation of columns applied to the four columns of a state. *)
Definition onColumns (f : Z -> Z -> Z -> Z -> list Z) (s : list Z) : list Z :=
  f (nth 0 s 0) (nth 1 s 0) (nth 2 s 0) (nth 3 s 0) ++
  f (nth 4 s 0) (nth 5 s 0) (nth 6 s 0) (nth 7 s 0) ++
  f (nth 8 s 0) (nth 9 s 0) (nth 10 s 0) (nth 11 s 0) ++
  f (nth 12 s 0) (nth 13 s 0) (nth 14 s 0) (nth 15 s 0).

(** FIPS-197, 5.2: the key expansion on words as sequences of four bytes
    [a0; a1; a2; a3].  RotWord yields [a1; a2; a3; a0]; SubWord applies the
    S-box to each byte; Rcon[j] is [{02}^(j-1); {00}; {00}; {00}]; and the
    word xored to w[i - Nk] is obtained from temp = w[i - 1] as follows. *)
Definition fipsRotWord (a : list Z) : list Z :=
  match a with
  | a0 :: t => t ++ [a0]
  | [] => []
  end.

Definition fipsSubWord (a : list Z) : list Z := map fipsSbox a.

Definition fipsRcon (j : nat) : list Z := [gfPow2 (j - 1); 0; 0; 0].

Definition fipsExpansionWord (Nk i : nat) (temp : list Z) : list Z :=
  if (i mod Nk =? 0)%nat then
    xorBytes (fipsSubWord (fipsRotWord temp)) (fipsRcon (i / Nk))
  else if (6 <? Nk)%nat && (i mod Nk =? 4)%nat then fipsSubWord temp
  else temp.

(** The word of the host whose bytes in memory are [a]. *)
Definition hostWord (a : list Z) : Z :=
  LOAD32LE (nth 0 a 0) (nth 1 a 0) (nth 2 a 0) (nth 3 a 0).

(** FIPS-197, 5.1 and 5.3: Cipher and InvCipher on a state of sixteen
    bytes in memory order, for the round keys [rk 0 .. rk Nr]. *)
Definition fipsRound (rk : nat -> list Z) (i : nat) (s : list Z) : list Z :=
  xorBytes (onColumns fipsMixColumn (fipsShiftRows (map fipsSbox s))) (rk i).

Definition fipsCipher (rk : nat -> list Z) (Nr : nat) (p : list Z) : list Z :=
  xorBytes
    (fipsShiftRows
       (map fipsSbox (iterUp (fipsRound rk) (Nr - 1) (xorBytes p (rk 0%nat)))))
    (rk Nr).

Definition fipsInvRound (rk : nat -> list Z) (i : nat) (s : list Z) : list Z :=
  onColumns fipsInvMixColumn
    (xorBytes (map fipsInvSbox (fipsInvShiftRows s)) (rk i)).

Definition fipsInvCipher (rk : nat -> list Z) (Nr : nat) (c : list Z) : list Z :=
  xorBytes
    (map fipsInvSbox
       (fipsInvShiftRows
          (iterDown (fipsInvRound rk) (Nr - 1) (xorBytes c (rk Nr)))))
    (rk 0%nat).

(** RFC 3713, 2.4.1: the F-function on the bytes x1..x8 of its input after
    the key addition: the S-boxes, then the byte-level P-function.  The
    result is the pair of words (y1 y2 y3 y4, y5 y6 y7 y8). *)
Definition rfcF (x1 x2 x3 x4 x5 x6 x7 x8 : Z) : Z * Z :=
  let t1 := tbl Camellia.sbox1 x1 in
  let t2 := tbl Camellia.sbox2 x2 in
  let t3 := tbl Camellia.sbox3 x3 in
  let t4 := tbl Camellia.sbox4 x4 in
  let t5 := tbl Camellia.sbox2 x5 in
  let t6 := tbl Camellia.sbox3 x6 in
  let t7 := tbl Camellia.sbox4 x7 in
  let t8 := tbl Camellia.sbox1 x8 in
  let y1 := Z.lxor (Z.lxor (Z.lxor (Z.lxor (Z.lxor t1 t3) t4) t6) t7) t8 in
  let y2 := Z.lxor (Z.lxor (Z.lxor (Z.lxor (Z.lxor t1 t2) t4) t5) t7) t8 in
  let y3 := Z.lxor (Z.lxor (Z.lxor (Z.lxor (Z.lxor t1 t2) t3) t5) t6) t8 in
  let y4 := Z.lxor (Z.lxor (Z.lxor (Z.lxor (Z.lxor t2 t3) t4) t5) t6) t7 in
  let y5 := Z.lxor (Z.lxor (Z.lxor (Z.lxor t1 t2) t6) t7) t8 in
  let y6 := Z.lxor (Z.lxor (Z.lxor (Z.lxor t2 t3) t5) t7) t8 in
  let y7 := Z.lxor (Z.lxor (Z.lxor (Z.lxor t3 t4) t5) t6) t8 in
  let y8 := Z.lxor (Z.lxor (Z.lxor (Z.lxor t1 t4) t5) t6) t7 in
  (be32 y1 y2 y3 y4, be32 y5 y6 y7 y8).

(** The F-function on the two words of a half block and a subkey pair. *)
Definition rfcFWords (l1 l2 k1 k2 : Z) : Z * Z :=
  let a := Z.lxor l1 k1 in
  let b := Z.lxor l2 k2 in
  rfcF (byteOf a 3) (byteOf a 2) (byteOf a 1) (byteOf a 0)
       (byteOf b 3) (byteOf b 2) (byteOf b 1) (byteOf b 0).

(** RFC 3713, 2.2: the 128-bit value of a bank of four words, its rotation
    to the left, and word [j] (0 is the most significant) of a 128-bit
    value. *)
Definition bank128 (a0 a1 a2 a3 : Z) : Z :=
  Z.lor (Z.lor (Z.lor (Z.shiftl a0 96) (Z.shiftl a1 64)) (Z.shiftl a2 32)) a3.

Definition rotl128 (x : Z) (s : Z) : Z :=
  Z.land (Z.lor (Z.shiftl x s) (Z.shiftr x (128 - s))) (Z.ones 128).

Definition word128 (x : Z) (j : Z) : Z :=
  Z.land (Z.shiftr x (32 * (3 - j))) 0xFFFFFFFF.

(** Two consecutive words of a bank read as a cyclic buffer, [n] words and
    [m] bits to the left: what the subkey loop stores. *)
Definition funnel (k : list Z) (n m : nat) : Z :=
  if (m =? 0)%nat then nth (n mod 4) k 0
  else Z.lor (Camellia.shl32 (nth (n mod 4) k 0) (Z.of_nat m))
             (Z.shiftr (nth ((n + 1) mod 4) k 0) (32 - Z.of_nat m)).

(** The two words stored for an entry of a schedule table. *)
Definition subkeyPair (kk : list Z) (e : Camellia.CamelliaSubkey) : Z * Z :=
  let n := ((Camellia.shift e + Camellia.position e) / 32)%nat in
  let m := ((Camellia.shift e + Camellia.position e) mod 32)%nat in
  let k := skipn (Camellia.key e) kk in
  (funnel k n m, funnel k (n + 1) m).

(** The slots of [ks] a schedule table writes. *)
Definition slots (p : list Camellia.CamelliaSubkey) : list nat :=
  flat_map (fun e => [Camellia.index e; (Camellia.index e + 1)%nat]) p.

Fixpoint distinctb (l : list nat) : bool :=
  match l with
  | [] => true
  | x :: t => negb (existsb (Nat.eqb x) t) && distinctb t
  end.

(** An entry of a schedule table rotates by less than 128 bits and selects
    the left or the right half. *)
Definition sliceOk (e : Camellia.CamelliaSubkey) : bool :=
  (Camellia.shift e <? 128)%nat &&
  ((Camellia.position e =? Camellia.L)%nat ||
   (Camellia.position e =? Camellia.R)%nat).

(** The schedule table camelliaInit selects for a key length. *)
Definition tableOf (keyLength : nat) : list Camellia.CamelliaSubkey :=
  if (keyLength =? 16)%nat then Camellia.ks1 else Camellia.ks2.

(** The number of words of [ks] camelliaInit writes for a key length. *)
Definition subkeyWords (keyLength : nat) : nat :=
  if (keyLength =? 16)%nat then 52%nat else 68%nat.

(** An operation reads the subkey words below [N] only. *)
Definition opBelow (N : nat) (o : op) : bool :=
  match o with
  | ORound p => (p + 2 <=? N)%nat
  | OFL p => (p + 4 <=? N)%nat
  end.

(** The bank of four words at offset [b] of the key material. *)
Definition bankAt (kk : list Z) (b : nat) : Z :=
  bank128 (nth b kk 0) (nth (b + 1) kk 0) (nth (b + 2) kk 0) (nth (b + 3) kk 0).

(** An array of key material whose KL and KR words are those of [k0]. *)
Definition keepsKey (k0 k : list Z) : Prop :=
  words 16 k /\ forall j, (j < 8)%nat -> nth j k 0 = nth j k0 0.

End Standards.

Import Standards.

Module Unused.

(** F-function, a macro of camellia.c that no function uses; the result is
    the new value of (xl, xr).  The first assignment to [xl] is overwritten
    by the second. *)
Definition CAMELLIA_F (xl xr kl kr : Z) : Z * Z :=
  let xl := Z.lxor xl kl in
  let xl := Z.lxor xr kr in
  let '(xl, xr) := Camellia.CAMELLIA_S xl xr in
  let '(xl, xr) := Camellia.CAMELLIA_P xl xr in
  (xl, xr).

End Unused.

(* ================================================================== *)
(** ** Bytes, words and exclusive or                                    *)
(* ================================================================== *)

Section Bits.

Lemma land_lxor_distr_l a b c :
  Z.land (Z.lxor a b) c = Z.lxor (Z.land a c) (Z.land b c).
Proof.
  apply Z.bits_inj'; intros n Hn.
  rewrite !Z.land_spec, !Z.lxor_spec, !Z.land_spec.
  destruct (Z.testbit a n), (Z.testbit b n), (Z.testbit c n); reflexivity.
Qed.

Lemma lxor_ring : ring_theory 0 (-1) Z.lxor Z.land Z.lxor (fun x => x) (@eq Z).
Proof.
  constructor; intros.
  - apply Z.lxor_0_l.
  - apply Z.lxor_comm.
  - symmetry; apply Z.lxor_assoc.
  - apply Z.land_m1_l.
  - apply Z.land_comm.
  - apply Z.land_assoc.
  - apply land_lxor_distr_l.
  - reflexivity.
  - apply Z.lxor_nilpotent.
Qed.

Lemma lxor_morph :
  ring_morph 0 (-1) Z.lxor Z.land Z.lxor (fun x => x) (@eq Z)
             false true xorb andb xorb (fun b => b) Bool.eqb bitCoeff.
Proof.
  constructor; intros; try reflexivity;
    try (destruct x, y; reflexivity).
  destruct x, y; try discriminate; reflexivity.
Qed.

End Bits.

Add Ring lxor_ring_inst : lxor_ring (morphism lxor_morph).

Section Bytes.

Lemma in_allBytes b : is_byte b -> In b allBytes.
Proof.
  intros [H0 H1]. unfold allBytes.
  rewrite <- (Z2Nat.id b) by assumption.
  apply in_map, in_seq. lia.
Qed.

(** A decidable property checked on the 256 bytes holds of every byte. *)
Lemma byte_forall (P : Z -> bool) :
  forallb P allBytes = true -> forall b, is_byte b -> P b = true.
Proof.
  intros H b Hb. rewrite forallb_forall in H. apply H, in_allBytes, Hb.
Qed.

Lemma byte_forall2 (P : Z -> Z -> bool) :
  forallb (fun a => forallb (P a) allBytes) allBytes = true ->
  forall a b, is_byte a -> is_byte b -> P a b = true.
Proof.
  intros H a b Ha Hb.
  apply (byte_forall (P a)); [|exact Hb].
  apply (byte_forall (fun a => forallb (P a) allBytes)); assumption.
Qed.

Lemma is_byteb_spec b : is_byteb b = true <-> is_byte b.
Proof. unfold is_byteb, is_byte. lia. Qed.

Lemma is_byte_land b : is_byte b <-> Z.land b 0xFF = b.
Proof.
  change 0xFF with (Z.ones 8). rewrite Z.land_ones by lia.
  unfold is_byte. change (2 ^ 8) with 256. split; intros H.
  - apply Z.mod_small; assumption.
  - rewrite <- H. apply Z.mod_pos_bound. lia.
Qed.

Lemma is_word32_land x : is_word32 x <-> Z.land x 0xFFFFFFFF = x.
Proof.
  change 0xFFFFFFFF with (Z.ones 32). rewrite Z.land_ones by lia.
  unfold is_word32. split; intros H.
  - apply Z.mod_small; assumption.
  - rewrite <- H. apply Z.mod_pos_bound. lia.
Qed.

Lemma is_byte_lxor a b : is_byte a -> is_byte b -> is_byte (Z.lxor a b).
Proof.
  rewrite !is_byte_land. intros Ha Hb.
  rewrite land_lxor_distr_l. congruence.
Qed.

Lemma is_byte_byteOf x t : is_byte (byteOf x t).
Proof.
  apply is_byte_land. unfold byteOf.
  rewrite <- Z.land_assoc. reflexivity.
Qed.

Lemma is_word32_lxor a b : is_word32 a -> is_word32 b -> is_word32 (Z.lxor a b).
Proof.
  rewrite !is_word32_land. intros Ha Hb.
  rewrite land_lxor_distr_l. congruence.
Qed.

Lemma is_word32_lor a b : is_word32 a -> is_word32 b -> is_word32 (Z.lor a b).
Proof.
  rewrite !is_word32_land. intros Ha Hb.
  rewrite Z.land_lor_distr_l. congruence.
Qed.

Lemma is_word32_mask x : is_word32 (Z.land x 0xFFFFFFFF).
Proof. apply is_word32_land. rewrite <- Z.land_assoc. reflexivity. Qed.

Lemma is_word32_ROL32 x n : is_word32 (ROL32 x n).
Proof. apply is_word32_mask. Qed.

Lemma is_word32_ROR32 x n : is_word32 (ROR32 x n).
Proof. apply is_word32_mask. Qed.

(** Entries of a table of bytes are bytes, whatever the index. *)
Lemma tbl_is_byte (t : list Z) :
  forallb is_byteb t = true -> forall i, is_byte (tbl t i).
Proof.
  intros H i. unfold tbl. rewrite forallb_forall in H.
  destruct (nth_in_or_default (Z.to_nat i) t 0) as [Hin | ->].
  - apply is_byteb_spec, H, Hin.
  - unfold is_byte; lia.
Qed.

Lemma byteOf_lxor a b t :
  byteOf (Z.lxor a b) t = Z.lxor (byteOf a t) (byteOf b t).
Proof.
  unfold byteOf. rewrite Z.shiftr_lxor, land_lxor_distr_l. reflexivity.
Qed.

Lemma byte_testbit_high b n : is_byte b -> 8 <= n -> Z.testbit b n = false.
Proof.
  intros Hb Hn. apply is_byte_land in Hb. rewrite <- Hb.
  change 0xFF with (Z.ones 8).
  rewrite Z.land_spec, Z.testbit_ones_nonneg by lia.
  replace (n <? 8) with false by (symmetry; apply Z.ltb_ge; lia).
  apply andb_false_r.
Qed.

Lemma testbit_byteOf x t n :
  0 <= t -> 0 <= n ->
  Z.testbit (byteOf x t) n = (n <? 8) && Z.testbit x (n + 8 * t).
Proof.
  intros Ht Hn. unfold byteOf. change 0xFF with (Z.ones 8).
  rewrite Z.land_spec, Z.shiftr_spec, Z.testbit_ones_nonneg by lia.
  apply andb_comm.
Qed.

Lemma testbit_LOAD32LE b0 b1 b2 b3 n :
  is_byte b0 -> is_byte b1 -> is_byte b2 -> is_byte b3 -> 0 <= n ->
  Z.testbit (LOAD32LE b0 b1 b2 b3) n =
    if n <? 8 then Z.testbit b0 n
    else if n <? 16 then Z.testbit b1 (n - 8)
    else if n <? 24 then Z.testbit b2 (n - 16)
    else Z.testbit b3 (n - 24).
Proof.
  intros H0 H1 H2 H3 Hn. unfold LOAD32LE.
  rewrite !Z.lor_spec, !Z.shiftl_spec by lia.
  destruct (Z.ltb_spec n 8).
  { rewrite !(Z.testbit_neg_r _ (n - _)) by lia.
    rewrite !orb_false_r. reflexivity. }
  rewrite (byte_testbit_high b0) by assumption.
  destruct (Z.ltb_spec n 16).
  { rewrite !(Z.testbit_neg_r _ (n - 16)), !(Z.testbit_neg_r _ (n - 24)) by lia.
    rewrite !orb_false_r. reflexivity. }
  rewrite (byte_testbit_high b1) by (assumption || lia).
  destruct (Z.ltb_spec n 24).
  { rewrite !(Z.testbit_neg_r _ (n - 24)) by lia.
    rewrite !orb_false_r. reflexivity. }
  rewrite (byte_testbit_high b2) by (assumption || lia).
  reflexivity.
Qed.

Lemma byteOf_LOAD32LE b0 b1 b2 b3 :
  is_byte b0 -> is_byte b1 -> is_byte b2 -> is_byte b3 ->
  byteOf (LOAD32LE b0 b1 b2 b3) 0 = b0 /\
  byteOf (LOAD32LE b0 b1 b2 b3) 1 = b1 /\
  byteOf (LOAD32LE b0 b1 b2 b3) 2 = b2 /\
  byteOf (LOAD32LE b0 b1 b2 b3) 3 = b3.
Proof.
  intros H0 H1 H2 H3.
  repeat split; apply Z.bits_inj'; intros n Hn;
    rewrite testbit_byteOf, testbit_LOAD32LE by (assumption || lia);
    (destruct (Z.ltb_spec n 8);
     [ cbn [andb];
       repeat match goal with
              | |- context [?a <? ?b] =>
                  destruct (Z.ltb_spec a b); try lia
              end;
       f_equal; lia
     | cbn [andb]; symmetry; apply byte_testbit_high; assumption ]).
Qed.

Lemma is_word32_LOAD32LE b0 b1 b2 b3 :
  is_byte b0 -> is_byte b1 -> is_byte b2 -> is_byte b3 ->
  is_word32 (LOAD32LE b0 b1 b2 b3).
Proof.
  intros H0 H1 H2 H3. apply is_word32_land.
  apply Z.bits_inj'; intros n Hn.
  change 0xFFFFFFFF with (Z.ones 32).
  rewrite Z.land_spec, Z.testbit_ones_nonneg by lia.
  destruct (Z.ltb_spec n 32); [apply andb_true_r|].
  rewrite andb_false_r, testbit_LOAD32LE by assumption.
  repeat match goal with
         | |- context [?a <? ?b] => destruct (Z.ltb_spec a b); try lia
         end.
  symmetry; apply byte_testbit_high; [assumption | lia].
Qed.

Lemma LOAD32LE_byteOf x :
  is_word32 x ->
  LOAD32LE (byteOf x 0) (byteOf x 1) (byteOf x 2) (byteOf x 3) = x.
Proof.
  intros Hx. apply is_word32_land in Hx.
  apply Z.bits_inj'; intros n Hn.
  rewrite testbit_LOAD32LE by (apply is_byte_byteOf || assumption).
  repeat match goal with
         | |- context [?a <? ?b] => destruct (Z.ltb_spec a b); try lia
         end;
    rewrite testbit_byteOf by lia;
    (destruct (Z.ltb_spec (n - 24) 8) || idtac);
    repeat match goal with
           | |- context [?a <? ?b] => destruct (Z.ltb_spec a b); try lia
           end;
    cbn [andb]; try (f_equal; lia).
  rewrite <- Hx. change 0xFFFFFFFF with (Z.ones 32).
  rewrite !Z.land_spec, !Z.testbit_ones_nonneg by lia.
  replace (n <? 32) with false by (symmetry; apply Z.ltb_ge; lia).
  rewrite !andb_false_r. reflexivity.
Qed.

(** Two words with the same four bytes are equal. *)
Lemma word32_ext x y :
  is_word32 x -> is_word32 y ->
  byteOf x 0 = byteOf y 0 -> byteOf x 1 = byteOf y 1 ->
  byteOf x 2 = byteOf y 2 -> byteOf x 3 = byteOf y 3 -> x = y.
Proof.
  intros Hx Hy E0 E1 E2 E3.
  rewrite <- (LOAD32LE_byteOf x Hx), <- (LOAD32LE_byteOf y Hy).
  congruence.
Qed.

End Bytes.

(* ================================================================== *)
(** ** AES: tables and state transformations                            *)
(* ================================================================== *)

Section AesTables.

Import Aes.

Lemma sbox_is_byte i : is_byte (tbl sbox i).
Proof. apply tbl_is_byte. vm_compute. reflexivity. Qed.

Lemma isbox_is_byte i : is_byte (tbl isbox i).
Proof. apply tbl_is_byte. vm_compute. reflexivity. Qed.

Lemma mul2_is_byte i : is_byte (tbl mul2 i).
Proof. apply tbl_is_byte. vm_compute. reflexivity. Qed.

Lemma isbox_sbox b : is_byte b -> tbl isbox (tbl sbox b) = b.
Proof.
  intros Hb. apply Z.eqb_eq. revert b Hb.
  apply (byte_forall (fun b => tbl isbox (tbl sbox b) =? b)).
  vm_compute. reflexivity.
Qed.

Lemma sbox_isbox b : is_byte b -> tbl sbox (tbl isbox b) = b.
Proof.
  intros Hb. apply Z.eqb_eq. revert b Hb.
  apply (byte_forall (fun b => tbl sbox (tbl isbox b) =? b)).
  vm_compute. reflexivity.
Qed.

(** The table [mul2] is linear over GF(2). *)
Lemma mul2_lxor a b :
  is_byte a -> is_byte b ->
  tbl mul2 (Z.lxor a b) = Z.lxor (tbl mul2 a) (tbl mul2 b).
Proof.
  intros Ha Hb. apply Z.eqb_eq. revert a b Ha Hb.
  apply (byte_forall2
           (fun a b => tbl mul2 (Z.lxor a b) =? Z.lxor (tbl mul2 a) (tbl mul2 b))).
  vm_compute. reflexivity.
Qed.

(** The table [mul2] is the product by {02} of GF(2^8). *)
Lemma mul2_gfMul b : is_byte b -> tbl mul2 b = gfMul 2 b.
Proof.
  intros Hb. apply Z.eqb_eq. revert b Hb.
  apply (byte_forall (fun b => tbl mul2 b =? gfMul 2 b)).
  vm_compute. reflexivity.
Qed.

Lemma mul2_cubed_gfMul p :
  is_byte p -> Z.lxor p (tbl mul2 (tbl mul2 (tbl mul2 p))) = gfMul 9 p.
Proof.
  intros Hp. apply Z.eqb_eq. revert p Hp.
  apply (byte_forall
           (fun p => Z.lxor p (tbl mul2 (tbl mul2 (tbl mul2 p))) =? gfMul 9 p)).
  vm_compute. reflexivity.
Qed.

End AesTables.

Create HintDb bytes.

#[local] Hint Resolve is_byte_lxor is_byte_byteOf sbox_is_byte isbox_is_byte
  mul2_is_byte : bytes.

(** Name the sixteen bytes of a state. *)
Ltac state16 s H :=
  let Hl := fresh "Hlen" in
  let Hb := fresh "Hbytes" in
  destruct H as [Hl Hb];
  do 16 (destruct s as [|? s]; [discriminate Hl|]);
  destruct s; [clear Hl|discriminate Hl];
  repeat match goal with
         | Hf : Forall _ (_ :: _) |- _ => inversion_clear Hf
         | Hf : Forall _ [] |- _ => clear Hf
         end.

Ltac aes_unfold :=
  cbv [Aes.subBytes Aes.invSubBytes Aes.shiftRows Aes.invShiftRows
       Aes.mixColumns Aes.invMixColumns Aes.mixColumn Aes.invMixColumn
       fold_left seq Aes.getb nth upd Nat.add].

Ltac bytes16 :=
  aes_unfold; split;
  [ reflexivity
  | repeat (apply Forall_cons; [auto 12 with bytes|]); apply Forall_nil ].

Section AesState.

Import Aes.

Lemma subBytes_bytes s : bytes 16 s -> bytes 16 (subBytes s).
Proof. intros H. state16 s H. bytes16. Qed.

Lemma invSubBytes_bytes s : bytes 16 s -> bytes 16 (invSubBytes s).
Proof. intros H. state16 s H. bytes16. Qed.

Lemma shiftRows_bytes s : bytes 16 s -> bytes 16 (shiftRows s).
Proof. intros H. state16 s H. bytes16. Qed.

Lemma invShiftRows_bytes s : bytes 16 s -> bytes 16 (invShiftRows s).
Proof. intros H. state16 s H. bytes16. Qed.

Lemma mixColumns_bytes s : bytes 16 s -> bytes 16 (mixColumns s).
Proof.
  intros H. state16 s H.
  bytes16.
Qed.

Lemma invMixColumns_bytes s : bytes 16 s -> bytes 16 (invMixColumns s).
Proof.
  intros H. state16 s H.
  bytes16.
Qed.

Lemma invSubBytes_subBytes s : bytes 16 s -> invSubBytes (subBytes s) = s.
Proof.
  intros H. state16 s H.
  aes_unfold.
  rewrite !isbox_sbox by assumption. reflexivity.
Qed.

Lemma subBytes_invSubBytes s : bytes 16 s -> subBytes (invSubBytes s) = s.
Proof.
  intros H. state16 s H.
  aes_unfold.
  rewrite !sbox_isbox by assumption. reflexivity.
Qed.

Lemma invShiftRows_shiftRows s : length s = 16%nat -> invShiftRows (shiftRows s) = s.
Proof.
  intros Hl.
  do 16 (destruct s as [|? s]; [discriminate Hl|]).
  destruct s; [reflexivity | discriminate Hl].
Qed.

Lemma shiftRows_invShiftRows s : length s = 16%nat -> shiftRows (invShiftRows s) = s.
Proof.
  intros Hl.
  do 16 (destruct s as [|? s]; [discriminate Hl|]).
  destruct s; [reflexivity | discriminate Hl].
Qed.

Ltac mul2_linear :=
  repeat rewrite mul2_lxor by auto 12 with bytes.

(** One column: the transformation of invMixColumns undoes that of
    mixColumns, and conversely. *)
Lemma invMix_mix_column b0 b1 b2 b3 :
  is_byte b0 -> is_byte b1 -> is_byte b2 -> is_byte b3 ->
  invMixColumn 0 (mixColumn 0 [b0; b1; b2; b3]) = [b0; b1; b2; b3].
Proof.
  intros H0 H1 H2 H3. aes_unfold.
  repeat (apply (f_equal2 cons); [mul2_linear; ring|]).
  reflexivity.
Qed.

Lemma mix_invMix_column b0 b1 b2 b3 :
  is_byte b0 -> is_byte b1 -> is_byte b2 -> is_byte b3 ->
  mixColumn 0 (invMixColumn 0 [b0; b1; b2; b3]) = [b0; b1; b2; b3].
Proof.
  intros H0 H1 H2 H3. aes_unfold.
  repeat (apply (f_equal2 cons); [mul2_linear; ring|]).
  reflexivity.
Qed.

(** The transformations work column by column. *)
Lemma mixColumns_columns a0 a1 a2 a3 b0 b1 b2 b3 c0 c1 c2 c3 d0 d1 d2 d3 :
  mixColumns [a0; a1; a2; a3; b0; b1; b2; b3; c0; c1; c2; c3; d0; d1; d2; d3] =
  mixColumn 0 [a0; a1; a2; a3] ++ mixColumn 0 [b0; b1; b2; b3] ++
  mixColumn 0 [c0; c1; c2; c3] ++ mixColumn 0 [d0; d1; d2; d3].
Proof. reflexivity. Qed.

Lemma invMixColumns_columns a0 a1 a2 a3 b0 b1 b2 b3 c0 c1 c2 c3 d0 d1 d2 d3 :
  invMixColumns [a0; a1; a2; a3; b0; b1; b2; b3; c0; c1; c2; c3; d0; d1; d2; d3] =
  invMixColumn 0 [a0; a1; a2; a3] ++ invMixColumn 0 [b0; b1; b2; b3] ++
  invMixColumn 0 [c0; c1; c2; c3] ++ invMixColumn 0 [d0; d1; d2; d3].
Proof. reflexivity. Qed.

Lemma mixColumn_shape b0 b1 b2 b3 :
  exists c0 c1 c2 c3, mixColumn 0 [b0; b1; b2; b3] = [c0; c1; c2; c3].
Proof. repeat eexists. Qed.

Lemma invMixColumn_shape b0 b1 b2 b3 :
  exists c0 c1 c2 c3, invMixColumn 0 [b0; b1; b2; b3] = [c0; c1; c2; c3].
Proof. repeat eexists. Qed.

Lemma invMixColumns_mixColumns s : bytes 16 s -> invMixColumns (mixColumns s) = s.
Proof.
  intros H. state16 s H.
  rewrite mixColumns_columns.
  repeat match goal with
         | |- context [mixColumn 0 [?a; ?b; ?c; ?d]] =>
             let E := fresh "E" in
             pose proof (invMix_mix_column a b c d
                           ltac:(assumption) ltac:(assumption)
                           ltac:(assumption) ltac:(assumption)) as E;
             let Hs := fresh "Hs" in
             destruct (mixColumn_shape a b c d) as (? & ? & ? & ? & Hs);
             rewrite Hs in E |- *; clear Hs
         end.
  cbn [app]. rewrite invMixColumns_columns.
  repeat match goal with E : invMixColumn 0 _ = _ |- _ => rewrite E; clear E end.
  reflexivity.
Qed.

Lemma mixColumns_invMixColumns s : bytes 16 s -> mixColumns (invMixColumns s) = s.
Proof.
  intros H. state16 s H.
  rewrite invMixColumns_columns.
  repeat match goal with
         | |- context [invMixColumn 0 [?a; ?b; ?c; ?d]] =>
             let E := fresh "E" in
             pose proof (mix_invMix_column a b c d
                           ltac:(assumption) ltac:(assumption)
                           ltac:(assumption) ltac:(assumption)) as E;
             let Hs := fresh "Hs" in
             destruct (invMixColumn_shape a b c d) as (? & ? & ? & ? & Hs);
             rewrite Hs in E |- *; clear Hs
         end.
  cbn [app]. rewrite mixColumns_columns.
  repeat match goal with E : mixColumn 0 _ = _ |- _ => rewrite E; clear E end.
  reflexivity.
Qed.

End AesState.

(* ================================================================== *)
(** ** Arrays and loops                                                 *)
(* ================================================================== *)

Section Arrays.

Context {A : Type}.

Lemma length_upd (i : nat) (v : A) (l : list A) : length (upd i v l) = length l.
Proof.
  revert i; induction l as [|h t IH]; intros [|i]; cbn; auto.
Qed.

Lemma nth_upd_same (i : nat) (v d : A) (l : list A) :
  (i < length l)%nat -> nth i (upd i v l) d = v.
Proof.
  revert i; induction l as [|h t IH]; intros [|i] H; cbn in *; try lia; auto.
  apply IH; lia.
Qed.

Lemma nth_upd_other (i j : nat) (v d : A) (l : list A) :
  i <> j -> nth j (upd i v l) d = nth j l d.
Proof.
  revert i j; induction l as [|h t IH]; intros [|i] [|j] H; cbn; auto.
  congruence.
Qed.

Lemma store_Some (i : nat) (v : A) (l : list A) :
  (i < length l)%nat -> store i v l = Some (upd i v l).
Proof.
  intros H. unfold store.
  destruct (Nat.ltb_spec i (length l)); [reflexivity | lia].
Qed.

Lemma store_inv (i : nat) (v : A) (l l' : list A) :
  store i v l = Some l' -> (i < length l)%nat /\ l' = upd i v l.
Proof.
  unfold store. destruct (Nat.ltb_spec i (length l)); [|discriminate].
  intros [= <-]. auto.
Qed.

Lemma nth_error_Some_nth (l : list A) (i : nat) (d : A) :
  (i < length l)%nat -> nth_error l i = Some (nth i l d).
Proof. intros H. apply nth_error_nth'. exact H. Qed.

Lemma nth_skipn (l : list A) (i j : nat) (d : A) :
  nth j (skipn i l) d = nth (i + j) l d.
Proof.
  revert l; induction i as [|i IH]; intros [|h t]; cbn; auto.
  destruct j; reflexivity.
Qed.

End Arrays.

Section Loops.

Context {S : Type}.

Lemma forUp_snoc (count from : nat) (body : nat -> S -> option S) (s : S) :
  forUp (Datatypes.S count) from body s =
  (s' <- forUp count from body s ;; body (from + count)%nat s').
Proof.
  revert from s; induction count as [|c IH]; intros from s.
  - cbn. rewrite Nat.add_0_r. destruct (body from s); reflexivity.
  - change (forUp (Datatypes.S (Datatypes.S c)) from body s)
      with (s' <- body from s ;; forUp (Datatypes.S c) (Datatypes.S from) body s').
    change (forUp (Datatypes.S c) from body s)
      with (s' <- body from s ;; forUp c (Datatypes.S from) body s').
    destruct (body from s) as [s1|]; cbn [bind]; [|reflexivity].
    rewrite IH. replace (from + Datatypes.S c)%nat with (Datatypes.S from + c)%nat by lia.
    reflexivity.
Qed.

(** Loop rule: an invariant kept by every iteration that does not fault
    holds at the end, and the loop does not fault. *)
Lemma forUp_invariant (P : nat -> S -> Prop) (count from : nat)
  (body : nat -> S -> option S) (s : S) :
  P from s ->
  (forall i s, (from <= i < from + count)%nat -> P i s ->
               exists s', body i s = Some s' /\ P (Datatypes.S i) s') ->
  exists s', forUp count from body s = Some s' /\ P (from + count)%nat s'.
Proof.
  revert from s; induction count as [|c IH]; intros from s H0 Hstep.
  - exists s. rewrite Nat.add_0_r. auto.
  - destruct (Hstep from s) as (s1 & E1 & H1); [lia | assumption |].
    destruct (IH (Datatypes.S from) s1 H1) as (s2 & E2 & H2).
    { intros i s' Hi. apply Hstep. lia. }
    exists s2. cbn [forUp]. rewrite E1. cbn [bind].
    replace (from + Datatypes.S c)%nat with (Datatypes.S from + c)%nat by lia.
    auto.
Qed.

Lemma iterUp_S (f : nat -> S -> S) (n : nat) (s : S) :
  iterUp f (Datatypes.S n) s = f (Datatypes.S n) (iterUp f n s).
Proof. reflexivity. Qed.

Lemma iterDown_S (f : nat -> S -> S) (n : nat) (s : S) :
  iterDown f (Datatypes.S n) s = iterDown f n (f (Datatypes.S n) s).
Proof. reflexivity. Qed.

End Loops.

(* ================================================================== *)
(** ** AES: key expansion                                               *)
(* ================================================================== *)

Section AesKeySchedule.

Import Aes.

Lemma memcpyWords_spec (dst src : list Z) (n : nat) :
  (n / 4 <= length dst)%nat -> (4 * (n / 4) <= length src)%nat ->
  exists dst',
    memcpyWords dst src n = Some dst' /\ length dst' = length dst /\
    (forall j, (j < n / 4)%nat ->
       nth j dst' 0 = LOAD32LE (nth (4 * j) src 0) (nth (4 * j + 1) src 0)
                               (nth (4 * j + 2) src 0) (nth (4 * j + 3) src 0)) /\
    (forall j, (n / 4 <= j)%nat -> nth j dst' 0 = nth j dst 0).
Proof.
  intros Hd Hs. unfold memcpyWords.
  destruct (forUp_invariant
    (fun i d => length d = length dst /\
       (forall j, (j < i)%nat ->
          nth j d 0 = LOAD32LE (nth (4 * j) src 0) (nth (4 * j + 1) src 0)
                               (nth (4 * j + 2) src 0) (nth (4 * j + 3) src 0)) /\
       (forall j, (i <= j)%nat -> nth j d 0 = nth j dst 0))
    (n / 4) 0 (memcpyWord src) dst) as (d & E & Hl & Hlo & Hhi).
  - split; [reflexivity|]. split; [intros; lia | reflexivity].
  - intros i d Hi (Hl & Hlo & Hhi). unfold memcpyWord.
    rewrite !(nth_error_Some_nth src _ 0) by lia. cbn [bind].
    rewrite store_Some by lia.
    eexists; split; [reflexivity|].
    split; [rewrite length_upd; exact Hl|]. split.
    + intros j Hj. destruct (Nat.eq_dec j i) as [->|Hne].
      * rewrite nth_upd_same by lia. reflexivity.
      * rewrite nth_upd_other by lia. apply Hlo; lia.
    + intros j Hj. rewrite nth_upd_other by lia. apply Hhi; lia.
  - exists d. cbn [Nat.add] in *. auto.
Qed.

Lemma roundsOfKeyLength_Some keyLength n :
  roundsOfKeyLength keyLength = Some n <->
  (keyLength = 16 /\ n = 10 \/ keyLength = 24 /\ n = 12 \/
   keyLength = 32 /\ n = 14)%nat.
Proof.
  unfold roundsOfKeyLength.
  destruct (Nat.eqb_spec keyLength 16);
    [|destruct (Nat.eqb_spec keyLength 24);
      [|destruct (Nat.eqb_spec keyLength 32)]];
    split; intros H; try (injection H as <-); try discriminate; try lia;
    destruct H as [[? ->]|[[? ->]|[? ->]]]; try reflexivity; lia.
Qed.

Lemma roundsOfKeyLength_None keyLength :
  roundsOfKeyLength keyLength = None <->
  (keyLength <> 16 /\ keyLength <> 24 /\ keyLength <> 32)%nat.
Proof.
  unfold roundsOfKeyLength.
  destruct (Nat.eqb_spec keyLength 16);
    [|destruct (Nat.eqb_spec keyLength 24);
      [|destruct (Nat.eqb_spec keyLength 32)]];
    split; intros H; try discriminate; try lia; auto.
Qed.

(** One iteration of the expansion loop stores the FIPS-197 word. *)
Lemma expandStep_spec (Nk i : nat) (w : list Z) :
  (1 <= Nk <= i)%nat -> (i < length w)%nat ->
  ((i mod Nk = 0)%nat -> (i / Nk < 11)%nat) ->
  expandStep Nk i w =
  Some (upd i (Z.lxor (nth (i - Nk) w 0)
                      (expansionWord Nk i (nth (i - 1) w 0))) w).
Proof.
  intros HNk Hi Hrc. unfold expandStep, expansionWord.
  rewrite (nth_error_Some_nth w (i - 1) 0) by lia. cbn [bind].
  destruct (Nat.eqb_spec (i mod Nk) 0) as [Hm|Hm].
  - rewrite (nth_error_Some_nth rcon (i / Nk) 0) by (apply Hrc, Hm).
    cbn [bind].
    rewrite (nth_error_Some_nth w (i - Nk) 0) by lia. cbn [bind].
    apply store_Some, Hi.
  - destruct ((6 <? Nk)%nat && (i mod Nk =? 4)%nat); cbn [bind];
      rewrite (nth_error_Some_nth w (i - Nk) 0) by lia; cbn [bind];
      apply store_Some, Hi.
Qed.

Lemma expand_spec (Nk N : nat) (w1 : list Z) :
  (1 <= Nk <= N)%nat -> (N <= length w1)%nat ->
  (forall i, (Nk <= i < N)%nat -> (i mod Nk = 0)%nat -> (i / Nk < 11)%nat) ->
  exists w2,
    forUp (N - Nk) Nk (expandStep Nk) w1 = Some w2 /\
    length w2 = length w1 /\
    (forall j, (j < Nk)%nat -> nth j w2 0 = nth j w1 0) /\
    (forall j, (Nk <= j < N)%nat ->
       nth j w2 0 = Z.lxor (nth (j - Nk) w2 0)
                           (expansionWord Nk j (nth (j - 1) w2 0))).
Proof.
  intros HNk HN Hrc.
  destruct (forUp_invariant
    (fun i w' => length w' = length w1 /\
       (forall j, (j < Nk)%nat -> nth j w' 0 = nth j w1 0) /\
       (forall j, (Nk <= j < i)%nat ->
          nth j w' 0 = Z.lxor (nth (j - Nk) w' 0)
                              (expansionWord Nk j (nth (j - 1) w' 0))))
    (N - Nk) Nk (expandStep Nk) w1) as (w2 & E & Hl & Hlo & Hrec).
  - split; [reflexivity|]. split; [reflexivity | intros; lia].
  - intros i w' Hi (Hl & Hlo & Hrec).
    rewrite expandStep_spec by (try apply Hrc; lia).
    eexists; split; [reflexivity|].
    split; [rewrite length_upd; exact Hl|]. split.
    + intros j Hj. rewrite nth_upd_other by lia. apply Hlo, Hj.
    + intros j Hj. destruct (Nat.eq_dec j i) as [->|Hne].
      * rewrite nth_upd_same by lia.
        rewrite !(nth_upd_other i) by lia. reflexivity.
      * rewrite !(nth_upd_other i) by lia. apply Hrec; lia.
  - exists w2. replace (Nk + (N - Nk))%nat with N in * by lia. auto.
Qed.

Lemma rcon_index_bound keyLength n i :
  roundsOfKeyLength keyLength = Some n ->
  (keyLength / 4 <= i < 4 * (n + 1))%nat ->
  (i mod (keyLength / 4) = 0)%nat ->
  (1 <= i / (keyLength / 4) <= 10)%nat /\
  ((i / (keyLength / 4) = 10)%nat -> (keyLength / 4 = 4)%nat).
Proof.
  intros Hr Hi Hm. apply roundsOfKeyLength_Some in Hr.
  destruct Hr as [[-> ->]|[[-> ->]|[-> ->]]];
    [ change (16 / 4)%nat with 4%nat in *
    | change (24 / 4)%nat with 6%nat in *
    | change (32 / 4)%nat with 8%nat in * ];
    match goal with
    | H : (i mod ?k = 0)%nat |- _ =>
        pose proof (Nat.div_mod_eq i k) as Hdm; rewrite H in Hdm
    end; lia.
Qed.

(** aesInit on a supported key length: no fault, no error, and the key
    schedule of FIPS-197. *)
Lemma aesInit_spec (ctx0 : AesContext) (key : list Z) (keyLength n : nat) :
  roundsOfKeyLength keyLength = Some n ->
  (4 * (n + 1) <= length (w ctx0))%nat ->
  (keyLength <= length key)%nat ->
  exists ctx,
    aesInit ctx0 key keyLength = Some (NO_ERROR, ctx) /\
    nr ctx = n /\ length (w ctx) = length (w ctx0) /\
    (forall j, (j < keyLength / 4)%nat ->
       nth j (w ctx) 0 =
       LOAD32LE (nth (4 * j) key 0) (nth (4 * j + 1) key 0)
                (nth (4 * j + 2) key 0) (nth (4 * j + 3) key 0)) /\
    (forall i, (keyLength / 4 <= i < 4 * (n + 1))%nat ->
       nth i (w ctx) 0 =
       Z.lxor (nth (i - keyLength / 4) (w ctx) 0)
              (expansionWord (keyLength / 4) i (nth (i - 1) (w ctx) 0))).
Proof.
  intros Hr Hw Hk. unfold aesInit. rewrite Hr. cbn [w nr].
  assert (Hcases := proj1 (roundsOfKeyLength_Some _ _) Hr).
  assert (HNk : (1 <= keyLength / 4 /\ 4 * (keyLength / 4) = keyLength /\
                 keyLength / 4 <= 4 * (n + 1))%nat).
  { destruct Hcases as [[-> ->]|[[-> ->]|[-> ->]]]; cbn; lia. }
  destruct HNk as (HNk1 & HNk4 & HNkN).
  destruct (memcpyWords_spec (w ctx0) key keyLength) as (w1 & E1 & Hl1 & Hlo1 & _);
    [lia | lia |].
  rewrite E1. cbn [bind].
  destruct (expand_spec (keyLength / 4) (4 * (n + 1)) w1) as (w2 & E2 & Hl2 & Hlo2 & Hrec);
    [lia | lia | |].
  { intros i Hi Hm. destruct (rcon_index_bound keyLength n i Hr Hi Hm). lia. }
  rewrite E2. cbn [bind].
  eexists; split; [reflexivity|]. cbn [nr w].
  split; [reflexivity|]. split; [congruence|]. split.
  - intros j Hj. rewrite Hlo2 by exact Hj. apply Hlo1, Hj.
  - exact Hrec.
Qed.

Lemma aesInit_inv (ctx0 ctx : AesContext) (key : list Z) (keyLength : nat) :
  aesInit ctx0 key keyLength = Some (NO_ERROR, ctx) ->
  exists n, roundsOfKeyLength keyLength = Some n /\ nr ctx = n /\
            length (w ctx) = length (w ctx0).
Proof.
  unfold aesInit. destruct (roundsOfKeyLength keyLength) as [n|] eqn:Hr;
    [|discriminate].
  cbn [w nr]. intros H. exists n. split; [reflexivity|].
  destruct (memcpyWords (w ctx0) key keyLength) as [w1|] eqn:E1; [|discriminate].
  cbn [bind] in H.
  destruct (forUp _ _ _ w1) as [w2|] eqn:E2; [|discriminate].
  cbn [bind] in H. injection H as <-. cbn [nr w]. split; [reflexivity|].
  assert (Hinv : forall count from (wa wb : list Z),
             forUp count from (expandStep (keyLength / 4)) wa = Some wb ->
             length wb = length wa).
  { induction count as [|c IH]; intros from wa wb; cbn [forUp].
    - intros [= <-]. reflexivity.
    - unfold expandStep at 1.
      destruct (nth_error wa (from - 1)); [|discriminate]. cbn [bind].
      match goal with
      | |- (bind (bind ?t _) _) = _ -> _ => destruct t
      end; [|discriminate]. cbn [bind].
      destruct (nth_error wa (from - keyLength / 4)); [|discriminate]. cbn [bind].
      destruct (store _ _ wa) as [wc|] eqn:Es; [|discriminate]. cbn [bind].
      apply store_inv in Es. destruct Es as [_ ->].
      intros H. apply IH in H. rewrite length_upd in H. exact H. }
  assert (Hcpy : forall count from (wa wb : list Z),
             forUp count from (memcpyWord key) wa = Some wb ->
             length wb = length wa).
  { induction count as [|c IH]; intros from wa wb; cbn [forUp].
    - intros [= <-]. reflexivity.
    - unfold memcpyWord at 1.
      repeat (match goal with
              | |- bind (bind (nth_error ?l ?i) _) _ = _ -> _ =>
                  destruct (nth_error l i); [|discriminate]; cbn [bind]
              end).
      destruct (store _ _ wa) as [wc|] eqn:Es; [|discriminate]. cbn [bind].
      apply store_inv in Es. destruct Es as [_ ->].
      intros H. apply IH in H. rewrite length_upd in H. exact H. }
  apply Hinv in E2. apply Hcpy in E1. congruence.
Qed.

End AesKeySchedule.

(* ================================================================== *)
(** ** AES: block functions                                             *)
(* ================================================================== *)

Section AesBlock.

Import Aes.

Lemma xorBytes_bytes s t : bytes 16 s -> bytes 16 t -> bytes 16 (xorBytes s t).
Proof.
  intros Hs Ht. state16 s Hs. state16 t Ht. cbn [xorBytes].
  split; [reflexivity|].
  repeat (apply Forall_cons; [auto with bytes|]); apply Forall_nil.
Qed.

Lemma xorBytes_involutive s t :
  length s = 16%nat -> length t = 16%nat -> xorBytes (xorBytes s t) t = s.
Proof.
  intros Hs Ht.
  do 16 (destruct s as [|? s]; [discriminate Hs|]).
  destruct s; [|discriminate Hs].
  do 16 (destruct t as [|? t]; [discriminate Ht|]).
  destruct t; [|discriminate Ht].
  cbn [xorBytes].
  repeat (apply (f_equal2 cons); [ring|]). reflexivity.
Qed.

Lemma keyBytes_bytes k : (4 <= length k)%nat -> bytes 16 (keyBytes k).
Proof.
  intros Hk. do 4 (destruct k as [|? k]; [cbn in Hk; lia|]).
  unfold keyBytes. cbn [firstn flat_map STORE32LE app].
  split; [reflexivity|].
  repeat (apply Forall_cons; [auto with bytes|]); apply Forall_nil.
Qed.

Lemma roundKey_bytes c i :
  (4 * i + 4 <= length (w c))%nat -> bytes 16 (roundKey c i).
Proof.
  intros H. apply keyBytes_bytes. rewrite length_skipn. lia.
Qed.

(** AddRoundKey is the bytewise exclusive or with the round key. *)
Lemma addRoundKey_spec s k :
  bytes 16 s -> (4 <= length k)%nat ->
  addRoundKey s k = Some (xorBytes s (keyBytes k)).
Proof.
  intros Hs Hk. state16 s Hs.
  do 4 (destruct k as [|? k]; [cbn in Hk; lia|]).
  unfold addRoundKey, keyBytes.
  cbn [nth_error bind firstn flat_map STORE32LE app xorBytes].
  cbv [setw getw getb upd nth Nat.add Nat.mul].
  rewrite !byteOf_lxor.
  repeat match goal with
         | |- context [byteOf (LOAD32LE ?a ?b ?c ?d) _] =>
             let E := fresh "E" in
             destruct (byteOf_LOAD32LE a b c d) as (E & ? & ? & ?);
             [assumption ..|];
             rewrite E; clear E;
             repeat match goal with
                    | E' : byteOf (LOAD32LE a b c d) _ = _ |- _ =>
                        rewrite E'; clear E'
                    end
         end.
  reflexivity.
Qed.

Lemma memcpyBlock_bytes s : bytes 16 s -> memcpyBlock s = Some s.
Proof.
  intros [Hl _]. unfold memcpyBlock.
  replace (16 <=? length s)%nat with true by (rewrite Hl; reflexivity).
  rewrite <- Hl, firstn_all. reflexivity.
Qed.

Lemma encR_bytes c i s :
  (4 * i + 4 <= length (w c))%nat -> bytes 16 s -> bytes 16 (encR c i s).
Proof.
  intros Hi Hs. unfold encR.
  auto using xorBytes_bytes, mixColumns_bytes, shiftRows_bytes,
    subBytes_bytes, roundKey_bytes.
Qed.

Lemma decR_bytes c i s :
  (4 * i + 4 <= length (w c))%nat -> bytes 16 s -> bytes 16 (decR c i s).
Proof.
  intros Hi Hs. unfold decR.
  auto using xorBytes_bytes, invMixColumns_bytes, invShiftRows_bytes,
    invSubBytes_bytes, roundKey_bytes.
Qed.

Lemma encLoop_S c n s : encLoop c (S n) s = encR c (S n) (encLoop c n s).
Proof. unfold encLoop. apply iterUp_S. Qed.

Lemma decLoop_S c n s : decLoop c (S n) s = decLoop c n (decR c (S n) s).
Proof. unfold decLoop. apply iterDown_S. Qed.

Lemma encLoop_bytes c n s :
  (4 * n + 4 <= length (w c))%nat -> bytes 16 s -> bytes 16 (encLoop c n s).
Proof.
  intros Hn Hs. induction n as [|n IH]; [exact Hs|].
  rewrite encLoop_S. apply encR_bytes; [exact Hn | apply IH; lia].
Qed.

Lemma decLoop_bytes c n s :
  (4 * n + 4 <= length (w c))%nat -> bytes 16 s -> bytes 16 (decLoop c n s).
Proof.
  revert s. induction n as [|n IH]; intros s Hn Hs; [exact Hs|].
  rewrite decLoop_S. apply IH; [lia | apply decR_bytes; assumption].
Qed.

Lemma aes_encryptRound_spec c i s :
  (4 * i + 4 <= length (w c))%nat -> bytes 16 s ->
  encryptRound i (c, s) = Some (c, encR c i s).
Proof.
  intros Hi Hs. unfold encryptRound. cbv zeta.
  rewrite (addRoundKey_spec (mixColumns (shiftRows (subBytes s)))
             (skipn (4 * i) (w c)));
    [ unfold encR, roundKey; reflexivity
    | apply mixColumns_bytes, shiftRows_bytes, subBytes_bytes, Hs
    | rewrite length_skipn; lia ].
Qed.

Lemma aes_decryptRound_spec c i s :
  (4 * i + 4 <= length (w c))%nat -> bytes 16 s ->
  decryptRound i (c, s) = Some (c, decR c i s).
Proof.
  intros Hi Hs. unfold decryptRound. cbv zeta.
  rewrite (addRoundKey_spec (invSubBytes (invShiftRows s))
             (skipn (4 * i) (w c)));
    [ unfold decR, roundKey; reflexivity
    | apply invSubBytes_bytes, invShiftRows_bytes, Hs
    | rewrite length_skipn; lia ].
Qed.

Lemma aes_forUp_encryptRound c n s :
  (4 * n + 4 <= length (w c))%nat -> bytes 16 s ->
  forUp n 1 encryptRound (c, s) = Some (c, encLoop c n s).
Proof.
  intros Hn Hs. induction n as [|n IH]; [reflexivity|].
  rewrite forUp_snoc, IH by lia. rewrite encLoop_S. cbn [bind Nat.add].
  apply aes_encryptRound_spec; [exact Hn | apply encLoop_bytes; [lia | exact Hs]].
Qed.

Lemma aes_forDown_decryptRound c n s :
  (4 * n + 4 <= length (w c))%nat -> bytes 16 s ->
  forDown n decryptRound (c, s) = Some (c, decLoop c n s).
Proof.
  revert s. induction n as [|n IH]; intros s Hn Hs; [reflexivity|].
  rewrite decLoop_S. cbn [forDown]. rewrite aes_decryptRound_spec by assumption.
  cbn [bind]. apply IH; [lia | apply decR_bytes; assumption].
Qed.

(** The block functions as compositions of the transformations. *)
Lemma aesEncryptBlock_spec c p :
  (1 <= nr c)%nat -> (4 * nr c + 4 <= length (w c))%nat -> bytes 16 p ->
  aesEncryptBlock c p =
  Some (c, xorBytes
             (shiftRows (subBytes
                (encLoop c (nr c - 1) (xorBytes p (roundKey c 0)))))
             (roundKey c (nr c))).
Proof.
  intros Hnr Hw Hp. unfold aesEncryptBlock.
  assert (H0 : bytes 16 (xorBytes p (roundKey c 0))).
  { apply xorBytes_bytes; [exact Hp | apply roundKey_bytes; lia]. }
  rewrite memcpyBlock_bytes by exact Hp. cbn [bind].
  rewrite addRoundKey_spec by (try exact Hp; lia). cbn [bind].
  change (keyBytes (w c)) with (roundKey c 0).
  rewrite aes_forUp_encryptRound by (try exact H0; lia). cbn [bind].
  assert (H1 : bytes 16 (encLoop c (nr c - 1) (xorBytes p (roundKey c 0)))).
  { apply encLoop_bytes; [lia | exact H0]. }
  rewrite addRoundKey_spec;
    [ | auto using shiftRows_bytes, subBytes_bytes
      | rewrite length_skipn; lia ].
  cbn [bind]. rewrite memcpyBlock_bytes; [reflexivity|].
  apply xorBytes_bytes;
    [auto using shiftRows_bytes, subBytes_bytes | apply roundKey_bytes; lia].
Qed.

Lemma aesDecryptBlock_spec c p :
  (1 <= nr c)%nat -> (4 * nr c + 4 <= length (w c))%nat -> bytes 16 p ->
  aesDecryptBlock c p =
  Some (c, xorBytes
             (invSubBytes (invShiftRows
                (decLoop c (nr c - 1) (xorBytes p (roundKey c (nr c))))))
             (roundKey c 0)).
Proof.
  intros Hnr Hw Hp. unfold aesDecryptBlock.
  assert (H0 : bytes 16 (xorBytes p (roundKey c (nr c)))).
  { apply xorBytes_bytes; [exact Hp | apply roundKey_bytes; lia]. }
  rewrite memcpyBlock_bytes by exact Hp. cbn [bind].
  rewrite addRoundKey_spec by (try exact Hp; rewrite length_skipn; lia).
  cbn [bind]. change (keyBytes (skipn (4 * nr c) (w c))) with (roundKey c (nr c)).
  destruct (Nat.eqb_spec (nr c) 0) as [E|_]; [lia|].
  rewrite aes_forDown_decryptRound by (try exact H0; lia). cbn [bind].
  assert (H1 : bytes 16 (decLoop c (nr c - 1) (xorBytes p (roundKey c (nr c))))).
  { apply decLoop_bytes; [lia | exact H0]. }
  rewrite addRoundKey_spec by (auto using invShiftRows_bytes, invSubBytes_bytes; lia).
  cbn [bind]. change (keyBytes (w c)) with (roundKey c 0).
  rewrite memcpyBlock_bytes; [reflexivity|].
  apply xorBytes_bytes;
    [auto using invShiftRows_bytes, invSubBytes_bytes | apply roundKey_bytes; lia].
Qed.

(** A decryption round undoes an encryption round, between the byte
    substitutions and row shifts; and conversely. *)
Lemma decR_encR c i s :
  (4 * i + 4 <= length (w c))%nat -> bytes 16 s ->
  decR c i (shiftRows (subBytes (encR c i s))) = shiftRows (subBytes s).
Proof.
  intros Hi Hs. unfold decR.
  assert (He : bytes 16 (encR c i s)) by (apply encR_bytes; assumption).
  rewrite invShiftRows_shiftRows by (apply subBytes_bytes, He).
  rewrite invSubBytes_subBytes by exact He.
  unfold encR. rewrite xorBytes_involutive;
    [ | apply mixColumns_bytes, shiftRows_bytes, subBytes_bytes, Hs
      | apply roundKey_bytes, Hi ].
  apply invMixColumns_mixColumns, shiftRows_bytes, subBytes_bytes, Hs.
Qed.

Lemma encR_decR c i s :
  (4 * i + 4 <= length (w c))%nat -> bytes 16 s ->
  encR c i (invSubBytes (invShiftRows (decR c i s))) = invSubBytes (invShiftRows s).
Proof.
  intros Hi Hs. unfold encR.
  assert (Hd : bytes 16 (decR c i s)) by (apply decR_bytes; assumption).
  rewrite subBytes_invSubBytes by (apply invShiftRows_bytes, Hd).
  rewrite shiftRows_invShiftRows by apply Hd.
  unfold decR. rewrite mixColumns_invMixColumns.
  - apply xorBytes_involutive;
      [ apply invSubBytes_bytes, invShiftRows_bytes, Hs
      | apply roundKey_bytes, Hi ].
  - apply xorBytes_bytes;
      [ apply invSubBytes_bytes, invShiftRows_bytes, Hs
      | apply roundKey_bytes, Hi ].
Qed.

Lemma decLoop_encLoop c n s :
  (4 * n + 4 <= length (w c))%nat -> bytes 16 s ->
  decLoop c n (shiftRows (subBytes (encLoop c n s))) = shiftRows (subBytes s).
Proof.
  intros Hn Hs. induction n as [|n IH]; [reflexivity|].
  rewrite decLoop_S, encLoop_S.
  rewrite decR_encR by (try apply encLoop_bytes; try exact Hs; lia).
  apply IH; lia.
Qed.

Lemma encLoop_decLoop c n s :
  (4 * n + 4 <= length (w c))%nat -> bytes 16 s ->
  encLoop c n (invSubBytes (invShiftRows (decLoop c n s))) =
  invSubBytes (invShiftRows s).
Proof.
  revert s. induction n as [|n IH]; intros s Hn Hs; [reflexivity|].
  rewrite decLoop_S, encLoop_S.
  rewrite IH by (try apply decR_bytes; try exact Hs; lia).
  apply encR_decR; assumption.
Qed.

(** Round trip for any context whose schedule holds [4 (nr + 1)] words. *)
Lemma aes_decrypt_encrypt c p :
  (1 <= nr c)%nat -> (4 * nr c + 4 <= length (w c))%nat -> bytes 16 p ->
  exists ct, aesEncryptBlock c p = Some (c, ct) /\ bytes 16 ct /\
             aesDecryptBlock c ct = Some (c, p).
Proof.
  intros Hnr Hw Hp.
  assert (H0 : bytes 16 (xorBytes p (roundKey c 0))).
  { apply xorBytes_bytes; [exact Hp | apply roundKey_bytes; lia]. }
  assert (H1 : bytes 16 (encLoop c (nr c - 1) (xorBytes p (roundKey c 0)))).
  { apply encLoop_bytes; [lia | exact H0]. }
  assert (H2 : bytes 16 (shiftRows (subBytes
                  (encLoop c (nr c - 1) (xorBytes p (roundKey c 0)))))).
  { apply shiftRows_bytes, subBytes_bytes, H1. }
  assert (Hk : bytes 16 (roundKey c (nr c))) by (apply roundKey_bytes; lia).
  eexists. split; [apply aesEncryptBlock_spec; assumption|].
  split; [apply xorBytes_bytes; assumption|].
  rewrite aesDecryptBlock_spec by (try apply xorBytes_bytes; assumption).
  rewrite xorBytes_involutive by (apply H2 || apply Hk).
  rewrite decLoop_encLoop by (try exact H0; lia).
  rewrite invShiftRows_shiftRows by (apply subBytes_bytes, H0).
  rewrite invSubBytes_subBytes by exact H0.
  rewrite xorBytes_involutive; [reflexivity | apply Hp | apply roundKey_bytes; lia].
Qed.

Lemma aes_encrypt_decrypt c ct :
  (1 <= nr c)%nat -> (4 * nr c + 4 <= length (w c))%nat -> bytes 16 ct ->
  exists p, aesDecryptBlock c ct = Some (c, p) /\ bytes 16 p /\
            aesEncryptBlock c p = Some (c, ct).
Proof.
  intros Hnr Hw Hc.
  assert (Hk : bytes 16 (roundKey c (nr c))) by (apply roundKey_bytes; lia).
  assert (Hk0 : bytes 16 (roundKey c 0)) by (apply roundKey_bytes; lia).
  assert (H0 : bytes 16 (xorBytes ct (roundKey c (nr c)))).
  { apply xorBytes_bytes; assumption. }
  assert (H1 : bytes 16 (decLoop c (nr c - 1) (xorBytes ct (roundKey c (nr c))))).
  { apply decLoop_bytes; [lia | exact H0]. }
  assert (H2 : bytes 16 (invSubBytes (invShiftRows
                  (decLoop c (nr c - 1) (xorBytes ct (roundKey c (nr c))))))).
  { apply invSubBytes_bytes, invShiftRows_bytes, H1. }
  eexists. split; [apply aesDecryptBlock_spec; assumption|].
  split; [apply xorBytes_bytes; assumption|].
  rewrite aesEncryptBlock_spec by (try apply xorBytes_bytes; assumption).
  rewrite xorBytes_involutive by (apply H2 || apply Hk0).
  rewrite encLoop_decLoop by (try exact H0; lia).
  rewrite subBytes_invSubBytes by (apply invShiftRows_bytes, H0).
  rewrite shiftRows_invShiftRows by apply H0.
  rewrite xorBytes_involutive; [reflexivity | apply Hc | apply Hk].
Qed.

(** The block functions return the context they were given. *)
Lemma forUp_encryptRound_frame n from c s c' s' :
  forUp n from encryptRound (c, s) = Some (c', s') -> c' = c.
Proof.
  revert from s. induction n as [|n IH]; intros from s; cbn [forUp].
  - intros [= <- _]. reflexivity.
  - unfold encryptRound at 1.
    destruct (addRoundKey _ _) as [s1|]; [|discriminate]. cbn [bind].
    apply IH.
Qed.

Lemma forDown_decryptRound_frame n c s c' s' :
  forDown n decryptRound (c, s) = Some (c', s') -> c' = c.
Proof.
  revert s. induction n as [|n IH]; intros s; cbn [forDown].
  - intros [= <- _]. reflexivity.
  - unfold decryptRound at 1.
    destruct (addRoundKey _ _) as [s1|]; [|discriminate]. cbn [bind].
    apply IH.
Qed.

Lemma aesEncryptBlock_frame c input c' output :
  aesEncryptBlock c input = Some (c', output) -> c' = c.
Proof.
  unfold aesEncryptBlock.
  destruct (memcpyBlock input) as [s0|]; [|discriminate]. cbn [bind].
  destruct (addRoundKey s0 (w c)) as [s1|]; [|discriminate]. cbn [bind].
  destruct (forUp _ _ _ _) as [[c1 s2]|] eqn:E; [|discriminate]. cbn [bind].
  apply forUp_encryptRound_frame in E. subst c1.
  destruct (addRoundKey _ _) as [s3|]; [|discriminate]. cbn [bind].
  destruct (memcpyBlock s3); [|discriminate]. cbn [bind].
  intros [= <- _]. reflexivity.
Qed.

Lemma aesDecryptBlock_frame c input c' output :
  aesDecryptBlock c input = Some (c', output) -> c' = c.
Proof.
  unfold aesDecryptBlock.
  destruct (memcpyBlock input) as [s0|]; [|discriminate]. cbn [bind].
  destruct (addRoundKey s0 _) as [s1|]; [|discriminate]. cbn [bind].
  destruct (nr c =? 0)%nat; [discriminate|].
  destruct (forDown _ _ _) as [[c1 s2]|] eqn:E; [|discriminate]. cbn [bind].
  apply forDown_decryptRound_frame in E. subst c1.
  destruct (addRoundKey _ _) as [s3|]; [|discriminate]. cbn [bind].
  destruct (memcpyBlock s3); [|discriminate]. cbn [bind].
  intros [= <- _]. reflexivity.
Qed.

End AesBlock.

(* ================================================================== *)
(** ** Camellia: words, round functions                                 *)
(* ================================================================== *)

Create HintDb words.

#[local] Hint Resolve is_word32_lxor is_word32_lor is_word32_mask
  is_word32_ROL32 is_word32_ROR32 is_word32_LOAD32LE is_byte_byteOf : words.

Section CamelliaWords.

Import Camellia.

Lemma be32_LOAD32LE b0 b1 b2 b3 : be32 b0 b1 b2 b3 = LOAD32LE b3 b2 b1 b0.
Proof.
  unfold be32, LOAD32LE.
  rewrite (Z.lor_comm (Z.lor (Z.lor (Z.shiftl b0 24) (Z.shiftl b1 16)) (Z.shiftl b2 8)) b3).
  rewrite (Z.lor_comm (Z.lor (Z.shiftl b0 24) (Z.shiftl b1 16)) (Z.shiftl b2 8)).
  rewrite (Z.lor_comm (Z.shiftl b0 24) (Z.shiftl b1 16)).
  rewrite !Z.lor_assoc. reflexivity.
Qed.

Lemma is_word32_be32 b0 b1 b2 b3 :
  is_byte b0 -> is_byte b1 -> is_byte b2 -> is_byte b3 ->
  is_word32 (be32 b0 b1 b2 b3).
Proof. intros. rewrite be32_LOAD32LE. auto with words. Qed.

Lemma is_word32_0 : is_word32 0.
Proof. unfold is_word32. lia. Qed.

Lemma is_byte_0 : is_byte 0.
Proof. unfold is_byte. lia. Qed.

Lemma is_word32_land_l a b : is_word32 a -> is_word32 (Z.land a b).
Proof.
  rewrite !is_word32_land. intros Ha.
  rewrite <- Z.land_assoc, (Z.land_comm b), Z.land_assoc, Ha. reflexivity.
Qed.

Lemma is_word32_shiftr x n : is_word32 x -> 0 <= n -> is_word32 (Z.shiftr x n).
Proof.
  unfold is_word32. intros [H0 H1] Hn. rewrite Z.shiftr_div_pow2 by exact Hn.
  assert (0 < 2 ^ n) by (apply Z.pow_pos_nonneg; lia).
  split.
  - apply Z.div_pos; lia.
  - apply Z.div_lt_upper_bound; [lia|]. nia.
Qed.

Lemma is_word32_not32 x : is_word32 (not32 x).
Proof. apply is_word32_mask. Qed.

Lemma is_word32_shl32 x m : is_word32 (shl32 x m).
Proof. apply is_word32_mask. Qed.

Lemma is_word32_nth (l : list Z) i : Forall is_word32 l -> is_word32 (nth i l 0).
Proof.
  intros H. destruct (nth_in_or_default i l 0) as [Hin | ->].
  - rewrite Forall_forall in H. apply H, Hin.
  - apply is_word32_0.
Qed.

Lemma is_byte_nth (l : list Z) i : Forall is_byte l -> is_byte (nth i l 0).
Proof.
  intros H. destruct (nth_in_or_default i l 0) as [Hin | ->].
  - rewrite Forall_forall in H. apply H, Hin.
  - apply is_byte_0.
Qed.

Lemma sbox1_is_byte i : is_byte (tbl sbox1 i).
Proof. apply tbl_is_byte. vm_compute. reflexivity. Qed.
Lemma sbox2_is_byte i : is_byte (tbl sbox2 i).
Proof. apply tbl_is_byte. vm_compute. reflexivity. Qed.
Lemma sbox3_is_byte i : is_byte (tbl sbox3 i).
Proof. apply tbl_is_byte. vm_compute. reflexivity. Qed.
Lemma sbox4_is_byte i : is_byte (tbl sbox4 i).
Proof. apply tbl_is_byte. vm_compute. reflexivity. Qed.

Lemma sigma_words : Forall is_word32 sigma.
Proof. repeat (apply Forall_cons; [unfold is_word32; lia|]). apply Forall_nil. Qed.

Lemma is_word32_bytes4 b0 b1 b2 b3 :
  is_byte b0 -> is_byte b1 -> is_byte b2 -> is_byte b3 ->
  is_word32 (Z.lor (Z.lor (Z.lor (Z.shiftl b0 24) (Z.shiftl b1 16))
                          (Z.shiftl b2 8)) b3).
Proof. exact (is_word32_be32 b0 b1 b2 b3). Qed.

Lemma CAMELLIA_S_words zl zr :
  is_word32 (fst (CAMELLIA_S zl zr)) /\ is_word32 (snd (CAMELLIA_S zl zr)).
Proof.
  unfold CAMELLIA_S. cbv zeta. cbn [fst snd].
  split; apply is_word32_bytes4;
    first [apply sbox1_is_byte | apply sbox2_is_byte
          | apply sbox3_is_byte | apply sbox4_is_byte].
Qed.

Lemma CAMELLIA_P_words zl zr a b :
  is_word32 zl -> is_word32 zr ->
  CAMELLIA_P zl zr = (a, b) -> is_word32 a /\ is_word32 b.
Proof.
  unfold CAMELLIA_P. intros Hl Hr [= <- <-]. split; auto 10 with words.
Qed.

Lemma CAMELLIA_ROUND_words l1 l2 r1 r2 k1 k2 :
  wordsBlock (l1, l2, r1, r2) -> wordsBlock (CAMELLIA_ROUND l1 l2 r1 r2 k1 k2).
Proof.
  intros (H1 & H2 & H3 & H4). unfold CAMELLIA_ROUND.
  destruct (CAMELLIA_S_words (Z.lxor l1 k1) (Z.lxor l2 k2)) as [Hs1 Hs2].
  destruct (CAMELLIA_S _ _) as [s1 s2]. cbn [fst snd] in Hs1, Hs2.
  destruct (CAMELLIA_P _ _) as [p1 p2] eqn:EP.
  apply CAMELLIA_P_words in EP; [|assumption..]. destruct EP.
  cbn [wordsBlock]. auto with words.
Qed.

Lemma CAMELLIA_FL_words xl xr kl kr a b :
  is_word32 xl -> is_word32 xr -> is_word32 kr ->
  CAMELLIA_FL xl xr kl kr = (a, b) -> is_word32 a /\ is_word32 b.
Proof.
  unfold CAMELLIA_FL. intros Hl Hr Hk [= <- <-]. split; auto 10 with words.
Qed.

Lemma CAMELLIA_INV_FL_words yl yr kl kr a b :
  is_word32 yl -> is_word32 yr -> is_word32 kr ->
  CAMELLIA_INV_FL yl yr kl kr = (a, b) -> is_word32 a /\ is_word32 b.
Proof.
  unfold CAMELLIA_INV_FL. intros Hl Hr Hk [= <- <-]. split; auto 10 with words.
Qed.

(** *** The round and FL functions are undone by the decryption loop *)

Lemma round_undo l1 l2 r1 r2 k1 k2 a b c d :
  CAMELLIA_ROUND l1 l2 r1 r2 k1 k2 = (a, b, c, d) ->
  CAMELLIA_ROUND c d a b k1 k2 = (r1, r2, l1, l2).
Proof.
  unfold CAMELLIA_ROUND.
  destruct (CAMELLIA_S (Z.lxor l1 k1) (Z.lxor l2 k2)) as [s1 s2] eqn:ES.
  destruct (CAMELLIA_P s1 s2) as [p1 p2] eqn:EP.
  intros [= <- <- <- <-]. rewrite ES, EP.
  replace (Z.lxor p2 (Z.lxor p2 r1)) with r1 by ring.
  replace (Z.lxor p1 (Z.lxor p1 r2)) with r2 by ring.
  reflexivity.
Qed.

Lemma FL_INV_FL xl xr kl kr a b :
  CAMELLIA_FL xl xr kl kr = (a, b) -> CAMELLIA_INV_FL a b kl kr = (xl, xr).
Proof.
  unfold CAMELLIA_FL, CAMELLIA_INV_FL. intros [= <- <-].
  assert (E : Z.lxor (Z.lxor xl (Z.lor (Z.lxor xr (ROL32 (Z.land xl kl) 1)) kr))
                (Z.lor (Z.lxor xr (ROL32 (Z.land xl kl) 1)) kr) = xl) by ring.
  rewrite E. f_equal. ring.
Qed.

Lemma INV_FL_FL yl yr kl kr a b :
  CAMELLIA_INV_FL yl yr kl kr = (a, b) -> CAMELLIA_FL a b kl kr = (yl, yr).
Proof.
  unfold CAMELLIA_FL, CAMELLIA_INV_FL. intros [= <- <-].
  assert (E : Z.lxor (Z.lxor yr (ROL32 (Z.land (Z.lxor yl (Z.lor yr kr)) kl) 1))
                (ROL32 (Z.land (Z.lxor yl (Z.lor yr kr)) kl) 1) = yr) by ring.
  rewrite E. f_equal. ring.
Qed.

Lemma undoOp_applyOp ks o b : undoOp ks o (applyOp ks o b) = b.
Proof.
  destruct b as [[[l1 l2] r1] r2]. destruct o as [p|p]; cbn [applyOp undoOp].
  - destruct (CAMELLIA_ROUND l1 l2 r1 r2 _ _) as [[[a b] c] d] eqn:E.
    cbn [undoOp]. rewrite (round_undo _ _ _ _ _ _ _ _ _ _ E). reflexivity.
  - destruct (CAMELLIA_FL l1 l2 _ _) as [a b] eqn:E1.
    destruct (CAMELLIA_INV_FL r1 r2 _ _) as [c d] eqn:E2.
    cbn [undoOp]. rewrite (INV_FL_FL _ _ _ _ _ _ E2), (FL_INV_FL _ _ _ _ _ _ E1).
    reflexivity.
Qed.

Lemma applyOp_undoOp ks o b : applyOp ks o (undoOp ks o b) = b.
Proof.
  destruct b as [[[l1 l2] r1] r2]. destruct o as [p|p]; cbn [applyOp undoOp].
  - destruct (CAMELLIA_ROUND r1 r2 l1 l2 _ _) as [[[a b] c] d] eqn:E.
    cbn [applyOp]. rewrite (round_undo _ _ _ _ _ _ _ _ _ _ E). reflexivity.
  - destruct (CAMELLIA_FL r1 r2 _ _) as [a b] eqn:E1.
    destruct (CAMELLIA_INV_FL l1 l2 _ _) as [c d] eqn:E2.
    cbn [applyOp]. rewrite (INV_FL_FL _ _ _ _ _ _ E2), (FL_INV_FL _ _ _ _ _ _ E1).
    reflexivity.
Qed.

Lemma undoOps_applyOps ks l b : undoOps ks (rev l) (applyOps ks l b) = b.
Proof.
  unfold undoOps, applyOps. revert b.
  induction l as [|o l IH]; intros b; [reflexivity|].
  cbn [fold_left rev]. rewrite fold_left_app. cbn [fold_left].
  rewrite IH. apply undoOp_applyOp.
Qed.

Lemma applyOps_undoOps ks l b : applyOps ks l (undoOps ks (rev l) b) = b.
Proof.
  unfold undoOps, applyOps. revert b.
  induction l as [|o l IH]; intros b; [reflexivity|].
  cbn [fold_left rev]. rewrite fold_left_app. cbn [fold_left].
  rewrite applyOp_undoOp. apply IH.
Qed.

Lemma applyOp_words ks o b :
  Forall is_word32 ks -> wordsBlock b -> wordsBlock (applyOp ks o b).
Proof.
  intros Hks Hb. destruct b as [[[l1 l2] r1] r2].
  destruct o as [p|p]; cbn [applyOp].
  - apply CAMELLIA_ROUND_words, Hb.
  - destruct Hb as (H1 & H2 & H3 & H4).
    destruct (CAMELLIA_FL l1 l2 _ _) as [a b] eqn:E1.
    destruct (CAMELLIA_INV_FL r1 r2 _ _) as [c d] eqn:E2.
    apply CAMELLIA_FL_words in E1; auto using is_word32_nth.
    apply CAMELLIA_INV_FL_words in E2; auto using is_word32_nth.
    cbn [wordsBlock]. tauto.
Qed.

Lemma undoOp_words ks o b :
  Forall is_word32 ks -> wordsBlock b -> wordsBlock (undoOp ks o b).
Proof.
  intros Hks Hb. destruct b as [[[l1 l2] r1] r2].
  destruct o as [p|p]; cbn [undoOp].
  - destruct Hb as (H1 & H2 & H3 & H4).
    pose proof (CAMELLIA_ROUND_words r1 r2 l1 l2 (nth p ks 0) (nth (p + 1) ks 0)) as H.
    destruct (CAMELLIA_ROUND r1 r2 l1 l2 _ _) as [[[a b] c] d].
    cbn [wordsBlock] in *. tauto.
  - destruct Hb as (H1 & H2 & H3 & H4).
    destruct (CAMELLIA_FL r1 r2 _ _) as [a b] eqn:E1.
    destruct (CAMELLIA_INV_FL l1 l2 _ _) as [c d] eqn:E2.
    apply CAMELLIA_FL_words in E1; auto using is_word32_nth.
    apply CAMELLIA_INV_FL_words in E2; auto using is_word32_nth.
    cbn [wordsBlock]. tauto.
Qed.

Lemma applyOps_words ks l b :
  Forall is_word32 ks -> wordsBlock b -> wordsBlock (applyOps ks l b).
Proof.
  intros Hks. unfold applyOps. revert b.
  induction l as [|o l IH]; intros b Hb; [exact Hb|].
  cbn [fold_left]. apply IH, applyOp_words; assumption.
Qed.

Lemma undoOps_words ks l b :
  Forall is_word32 ks -> wordsBlock b -> wordsBlock (undoOps ks l b).
Proof.
  intros Hks. unfold undoOps. revert b.
  induction l as [|o l IH]; intros b Hb; [exact Hb|].
  cbn [fold_left]. apply IH, undoOp_words; assumption.
Qed.

End CamelliaWords.

(* ================================================================== *)
(** ** Camellia: block functions                                        *)
(* ================================================================== *)

Section CamelliaBlock.

Import Camellia.

Lemma memOf_regs m : memOf (context m) (regs m) (ksp m) = m.
Proof. destruct m; reflexivity. Qed.

Lemma context_memOf c b p : context (memOf c b p) = c.
Proof. destruct b as [[[? ?] ?] ?]; reflexivity. Qed.



Lemma ksAt_Some m j :
  (ksp m + j < length (ks (context m)))%nat ->
  ksAt m j = Some (nth (ksp m + j) (ks (context m)) 0).
Proof. intros H. unfold ksAt. apply nth_error_Some_nth, H. Qed.

Lemma ksAt_mkMem c l1 l2 r1 r2 p j :
  (p + j < length (ks c))%nat ->
  ksAt (mkMem c l1 l2 r1 r2 p) j = Some (nth (p + j) (ks c) 0).
Proof. intros H. apply (ksAt_Some (mkMem c l1 l2 r1 r2 p)). exact H. Qed.

Lemma advance_S n :
  advance (S n) = ((if specialRound (S n) then 6 else 2) + advance n)%nat.
Proof. reflexivity. Qed.

Lemma encOps_S n p :
  encOps (S n) p =
  if specialRound (S n)
  then ORound p :: OFL (p + 2) :: encOps n (p + 6)
  else ORound p :: encOps n (p + 2).
Proof. reflexivity. Qed.

Lemma decOps_S n p :
  decOps (S n) p =
  if specialRound (S n)
  then ORound (p - 2) :: OFL (p - 6) :: decOps n (p - 6)
  else ORound (p - 2) :: decOps n (p - 2).
Proof. reflexivity. Qed.

(** One iteration of the encryption loop, as operations on the block. *)
Lemma camellia_encryptRound_spec i c b p :
  (p + (if specialRound i then 6 else 2) <= length (ks c))%nat ->
  encryptRound i (memOf c b p) =
  Some (if specialRound i
        then memOf c (applyOp (ks c) (OFL (p + 2)) (applyOp (ks c) (ORound p) b))
                   (p + 6)
        else memOf c (applyOp (ks c) (ORound p) b) (p + 2)).
Proof.
  intros Hp. destruct b as [[[l1 l2] r1] r2].
  unfold encryptRound. cbn [memOf context left1 left2 right1 right2 ksp].
  assert (Hp2 : (p + 2 <= length (ks c))%nat) by (destruct (specialRound i); lia).
  rewrite !ksAt_mkMem by lia. cbn [bind applyOp].
  replace (p + 0)%nat with p by lia.
  destruct (CAMELLIA_ROUND l1 l2 r1 r2 _ _) as [[[a1 a2] a3] a4].
  cbn [context left1 left2 right1 right2 ksp].
  destruct (specialRound i); [|reflexivity].
  rewrite !ksAt_mkMem by lia. cbn [bind applyOp].
  replace (p + 2 + 0)%nat with (p + 2)%nat by lia.
  replace (p + 2 + 1)%nat with (p + 2 + 1)%nat by lia.
  destruct (CAMELLIA_FL a1 a2 _ _) as [f1 f2].
  cbn [bind].
  destruct (CAMELLIA_INV_FL a3 a4 _ _) as [g1 g2].
  cbn [memOf]. replace (p + 2 + 4)%nat with (p + 6)%nat by lia. reflexivity.
Qed.

Lemma camellia_forDown_encryptRound n c b p :
  (p + advance n <= length (ks c))%nat ->
  forDown n encryptRound (memOf c b p) =
  Some (memOf c (applyOps (ks c) (encOps n p) b) (p + advance n)).
Proof.
  revert b p. induction n as [|n IH]; intros b p Hp.
  - cbn [forDown advance encOps]. unfold applyOps. cbn [fold_left].
    rewrite Nat.add_0_r. reflexivity.
  - rewrite advance_S in *. rewrite encOps_S. cbn [forDown].
    rewrite camellia_encryptRound_spec by (destruct (specialRound (S n)); lia).
    cbn [bind]. destruct (specialRound (S n)).
    + rewrite IH by lia. unfold applyOps. cbn [fold_left].
      replace (p + 6 + advance n)%nat with (p + (6 + advance n))%nat by lia.
      reflexivity.
    + rewrite IH by lia. unfold applyOps. cbn [fold_left].
      replace (p + 2 + advance n)%nat with (p + (2 + advance n))%nat by lia.
      reflexivity.
Qed.

(** One iteration of the decryption loop. *)
Lemma camellia_decryptRound_spec i c b p :
  ((if specialRound i then 6 else 2) <= p)%nat -> (p <= length (ks c))%nat ->
  decryptRound i (memOf c b p) =
  Some (if specialRound i
        then memOf c (undoOp (ks c) (OFL (p - 6)) (undoOp (ks c) (ORound (p - 2)) b))
                   (p - 6)
        else memOf c (undoOp (ks c) (ORound (p - 2)) b) (p - 2)).
Proof.
  intros Hp Hl. destruct b as [[[l1 l2] r1] r2].
  unfold decryptRound. cbn [memOf context left1 left2 right1 right2 ksp].
  assert (Hp2 : (2 <= p)%nat) by (destruct (specialRound i); lia).
  destruct (Nat.leb_spec 2 p) as [_|]; [|lia]. cbn [bind].
  cbn [context left1 left2 right1 right2 ksp].
  rewrite !ksAt_mkMem by lia. cbn [bind undoOp].
  replace (p - 2 + 0)%nat with (p - 2)%nat by lia.
  destruct (CAMELLIA_ROUND r1 r2 l1 l2 _ _) as [[[a1 a2] a3] a4].
  cbn [context left1 left2 right1 right2 ksp].
  destruct (specialRound i); [|reflexivity].
  destruct (Nat.leb_spec 4 (p - 2)) as [_|]; [|lia]. cbn [bind].
  cbn [context left1 left2 right1 right2 ksp].
  rewrite !ksAt_mkMem by lia. cbn [bind undoOp].
  replace (p - 2 - 4)%nat with (p - 6)%nat by lia.
  replace (p - 6 + 0)%nat with (p - 6)%nat by lia.
  destruct (CAMELLIA_FL a1 a2 _ _) as [f1 f2].
  cbn [bind].
  destruct (CAMELLIA_INV_FL a3 a4 _ _) as [g1 g2].
  reflexivity.
Qed.

Lemma camellia_forDown_decryptRound n c b p :
  (advance n <= p)%nat -> (p <= length (ks c))%nat ->
  forDown n decryptRound (memOf c b p) =
  Some (memOf c (undoOps (ks c) (decOps n p) b) (p - advance n)).
Proof.
  revert b p. induction n as [|n IH]; intros b p Hp Hl.
  - cbn [forDown advance decOps]. unfold undoOps. cbn [fold_left].
    rewrite Nat.sub_0_r. reflexivity.
  - rewrite advance_S in *. rewrite decOps_S. cbn [forDown].
    rewrite camellia_decryptRound_spec by (try destruct (specialRound (S n)); lia).
    cbn [bind]. destruct (specialRound (S n)).
    + rewrite IH by lia. unfold undoOps. cbn [fold_left].
      replace (p - 6 - advance n)%nat with (p - (6 + advance n))%nat by lia.
      reflexivity.
    + rewrite IH by lia. unfold undoOps. cbn [fold_left].
      replace (p - 2 - advance n)%nat with (p - (2 + advance n))%nat by lia.
      reflexivity.
Qed.

(** *** Loading and storing the block *)

Lemma LOAD32BE_Some p off :
  (off + 4 <= length p)%nat ->
  LOAD32BE p off =
  Some (be32 (nth off p 0) (nth (off + 1) p 0) (nth (off + 2) p 0)
             (nth (off + 3) p 0)).
Proof.
  intros H. unfold LOAD32BE.
  rewrite !(nth_error_Some_nth p _ 0) by lia. reflexivity.
Qed.

Lemma be32_byteOf x :
  is_word32 x -> be32 (byteOf x 3) (byteOf x 2) (byteOf x 1) (byteOf x 0) = x.
Proof. intros H. rewrite be32_LOAD32LE. apply LOAD32LE_byteOf, H. Qed.

Lemma loadBlock_storeBlock b : wordsBlock b -> loadBlock (storeBlock b) = b.
Proof.
  destruct b as [[[x1 x2] x3] x4]. intros (H1 & H2 & H3 & H4).
  unfold storeBlock, STORE32BE, loadBlock. cbn [app nth].
  rewrite !be32_byteOf by assumption. reflexivity.
Qed.

Lemma storeBlock_bytes b : bytes 16 (storeBlock b).
Proof.
  destruct b as [[[x1 x2] x3] x4].
  unfold storeBlock, STORE32BE. cbn [app]. split; [reflexivity|].
  repeat (apply Forall_cons; [apply is_byte_byteOf|]). apply Forall_nil.
Qed.

Lemma STORE32BE_be32 b0 b1 b2 b3 :
  is_byte b0 -> is_byte b1 -> is_byte b2 -> is_byte b3 ->
  STORE32BE (be32 b0 b1 b2 b3) = [b0; b1; b2; b3].
Proof.
  intros H0 H1 H2 H3. rewrite be32_LOAD32LE. unfold STORE32BE.
  destruct (byteOf_LOAD32LE b3 b2 b1 b0) as (E0 & E1 & E2 & E3); [assumption..|].
  rewrite E0, E1, E2, E3. reflexivity.
Qed.

Lemma storeBlock_loadBlock p : bytes 16 p -> storeBlock (loadBlock p) = p.
Proof.
  intros H. state16 p H.
  unfold loadBlock, storeBlock. cbn [nth].
  rewrite !STORE32BE_be32 by assumption. reflexivity.
Qed.

Lemma loadBlock_words p : bytes 16 p -> wordsBlock (loadBlock p).
Proof.
  intros H. state16 p H.
  unfold loadBlock. cbn [nth wordsBlock].
  repeat split; apply is_word32_be32; assumption.
Qed.

Lemma whiten_involutive ks p b : whiten ks p (whiten ks p b) = b.
Proof.
  destruct b as [[[a b] c] d]. unfold whiten.
  replace (Z.lxor (Z.lxor a (nth p ks 0)) (nth p ks 0)) with a by ring.
  replace (Z.lxor (Z.lxor b (nth (p + 1) ks 0)) (nth (p + 1) ks 0)) with b by ring.
  replace (Z.lxor (Z.lxor c (nth (p + 2) ks 0)) (nth (p + 2) ks 0)) with c by ring.
  replace (Z.lxor (Z.lxor d (nth (p + 3) ks 0)) (nth (p + 3) ks 0)) with d by ring.
  reflexivity.
Qed.

Lemma whiten_words ks p b :
  Forall is_word32 ks -> wordsBlock b -> wordsBlock (whiten ks p b).
Proof.
  destruct b as [[[a b] c] d]. intros Hks (H1 & H2 & H3 & H4).
  unfold whiten. cbn [wordsBlock].
  repeat split; apply is_word32_lxor; auto using is_word32_nth.
Qed.

Lemma swapHalves_involutive b : swapHalves (swapHalves b) = b.
Proof. destruct b as [[[a b] c] d]. reflexivity. Qed.

Lemma swapHalves_words b : wordsBlock b -> wordsBlock (swapHalves b).
Proof. destruct b as [[[a b] c] d]. cbn. tauto. Qed.

(** *** The block functions as compositions *)

Lemma encryptRounds_spec c p :
  (8 + advance (nr c) <= length (ks c))%nat -> bytes 16 p ->
  encryptRounds c p =
  Some (memOf c (applyOps (ks c) (encOps (nr c) 4) (whiten (ks c) 0 (loadBlock p)))
              (4 + advance (nr c))).
Proof.
  intros Hks [Hl Hb]. unfold encryptRounds.
  rewrite !LOAD32BE_Some by lia. cbn [bind].
  rewrite !ksAt_mkMem by lia. cbn [bind context left1 left2 right1 right2 ksp].
  cbn [Nat.add].
  exact (camellia_forDown_encryptRound (nr c) c
           (whiten (ks c) 0 (loadBlock p)) 4 ltac:(lia)).
Qed.

Lemma camelliaEncryptBlock_spec c p :
  (8 + advance (nr c) <= length (ks c))%nat -> bytes 16 p ->
  camelliaEncryptBlock c p =
  Some (c, storeBlock
             (whiten (ks c) (4 + advance (nr c))
                (swapHalves
                   (applyOps (ks c) (encOps (nr c) 4)
                      (whiten (ks c) 0 (loadBlock p)))))).
Proof.
  intros Hks Hp. unfold camelliaEncryptBlock.
  rewrite encryptRounds_spec by assumption. cbn [bind].
  destruct (applyOps (ks c) (encOps (nr c) 4) (whiten (ks c) 0 (loadBlock p)))
    as [[[l1 l2] r1] r2].
  cbn [memOf]. rewrite !ksAt_mkMem by lia.
  cbn [bind context left1 left2 right1 right2 ksp swapHalves whiten storeBlock].
  replace (4 + advance (nr c) + 0)%nat with (4 + advance (nr c))%nat by lia.
  reflexivity.
Qed.

Lemma camelliaDecryptBlock_spec c p :
  let P := if (nr c =? 18)%nat then 48%nat else 64%nat in
  (P + 4 <= length (ks c))%nat -> (advance (nr c) + 4 <= P)%nat -> bytes 16 p ->
  camelliaDecryptBlock c p =
  Some (c, storeBlock
             (whiten (ks c) (P - advance (nr c) - 4)
                (undoOps (ks c) (decOps (nr c) P)
                   (swapHalves (whiten (ks c) P (loadBlock p)))))).
Proof.
  intros P Hks Hadv [Hl Hb]. unfold camelliaDecryptBlock. fold P.
  rewrite !LOAD32BE_Some by lia. cbn [bind].
  rewrite !ksAt_mkMem by lia. cbn [bind context left1 left2 right1 right2 ksp].
  replace (P + 0)%nat with P by lia.
  match goal with
  | |- context [forDown (nr c) decryptRound ?m] =>
      change m with (memOf c (swapHalves (whiten (ks c) P (loadBlock p))) P)
  end.
  rewrite (camellia_forDown_decryptRound (nr c) c
             (swapHalves (whiten (ks c) P (loadBlock p))) P) by lia.
  cbn [bind].
  destruct (undoOps (ks c) (decOps (nr c) P)
              (swapHalves (whiten (ks c) P (loadBlock p)))) as [[[l1 l2] r1] r2].
  cbn [memOf context left1 left2 right1 right2 ksp].
  destruct (Nat.leb_spec 4 (P - advance (nr c))) as [_|]; [|lia].
  cbn [bind context left1 left2 right1 right2 ksp].
  rewrite !ksAt_mkMem by lia.
  cbn [bind context left1 left2 right1 right2 ksp whiten storeBlock].
  replace (P - advance (nr c) - 4 + 0)%nat with (P - advance (nr c) - 4)%nat by lia.
  reflexivity.
Qed.

End CamelliaBlock.

(* ================================================================== *)
(** ** Camellia: round trip and frame                                   *)
(* ================================================================== *)

Section CamelliaRoundTrip.

Import Camellia.

Lemma camellia_pointers n :
  n = 18%nat \/ n = 24%nat ->
  let P := if (n =? 18)%nat then 48%nat else 64%nat in
  advance n = (P - 4)%nat /\ decOps n P = rev (encOps n 4).
Proof. intros [-> | ->]; split; reflexivity. Qed.

Lemma camellia_decrypt_encrypt c p :
  nr c = 18%nat \/ nr c = 24%nat -> words 68 (ks c) -> bytes 16 p ->
  exists ct, camelliaEncryptBlock c p = Some (c, ct) /\ bytes 16 ct /\
             camelliaDecryptBlock c ct = Some (c, p).
Proof.
  intros Hnr [Hl Hks] Hp.
  destruct (camellia_pointers (nr c) Hnr) as [Hadv Hops].
  set (P := if (nr c =? 18)%nat then 48%nat else 64%nat) in *.
  assert (HP : P = 48%nat \/ P = 64%nat)
    by (unfold P; destruct (nr c =? 18)%nat; auto).
  eexists. split; [apply camelliaEncryptBlock_spec; [lia | exact Hp]|].
  split; [apply storeBlock_bytes|].
  rewrite camelliaDecryptBlock_spec; fold P;
    [ | lia | lia | apply storeBlock_bytes ].
  rewrite loadBlock_storeBlock.
  2:{ apply whiten_words, swapHalves_words, applyOps_words, whiten_words,
        loadBlock_words; assumption. }
  replace (4 + advance (nr c))%nat with P by lia.
  rewrite whiten_involutive, swapHalves_involutive, Hops, undoOps_applyOps.
  replace (P - advance (nr c) - 4)%nat with 0%nat by lia.
  rewrite whiten_involutive, storeBlock_loadBlock by exact Hp.
  reflexivity.
Qed.

Lemma camellia_encrypt_decrypt c ct :
  nr c = 18%nat \/ nr c = 24%nat -> words 68 (ks c) -> bytes 16 ct ->
  exists p, camelliaDecryptBlock c ct = Some (c, p) /\ bytes 16 p /\
            camelliaEncryptBlock c p = Some (c, ct).
Proof.
  intros Hnr [Hl Hks] Hc.
  destruct (camellia_pointers (nr c) Hnr) as [Hadv Hops].
  set (P := if (nr c =? 18)%nat then 48%nat else 64%nat) in *.
  assert (HP : P = 48%nat \/ P = 64%nat)
    by (unfold P; destruct (nr c =? 18)%nat; auto).
  eexists. split.
  { rewrite camelliaDecryptBlock_spec; fold P; [reflexivity | lia | lia | exact Hc]. }
  split; [apply storeBlock_bytes|].
  rewrite camelliaEncryptBlock_spec; [ | lia | apply storeBlock_bytes ].
  rewrite loadBlock_storeBlock.
  2:{ apply whiten_words, undoOps_words, swapHalves_words, whiten_words,
        loadBlock_words; assumption. }
  replace (P - advance (nr c) - 4)%nat with 0%nat by lia.
  rewrite whiten_involutive, Hops, applyOps_undoOps, swapHalves_involutive.
  replace (4 + advance (nr c))%nat with P by lia.
  rewrite whiten_involutive, storeBlock_loadBlock by exact Hc.
  reflexivity.
Qed.

(** The loops and the block functions return the context they were given. *)
Lemma encryptRound_context i m m' :
  encryptRound i m = Some m' -> context m' = context m.
Proof.
  unfold encryptRound.
  destruct (ksAt m 0); [|discriminate]. cbn [bind].
  destruct (ksAt m 1); [|discriminate]. cbn [bind].
  destruct (CAMELLIA_ROUND _ _ _ _ _ _) as [[[a1 a2] a3] a4].
  destruct (specialRound i).
  - destruct (ksAt _ 0); [|discriminate]. cbn [bind].
    destruct (ksAt _ 1); [|discriminate]. cbn [bind].
    destruct (CAMELLIA_FL _ _ _ _) as [f1 f2].
    destruct (ksAt _ 2); [|discriminate]. cbn [bind].
    destruct (ksAt _ 3); [|discriminate]. cbn [bind].
    destruct (CAMELLIA_INV_FL _ _ _ _) as [g1 g2].
    intros H. apply (f_equal (option_map context)) in H. cbn in H.
    injection H as <-. reflexivity.
  - intros H. apply (f_equal (option_map context)) in H. cbn in H.
    injection H as <-. reflexivity.
Qed.

Lemma decryptRound_context i m m' :
  decryptRound i m = Some m' -> context m' = context m.
Proof.
  unfold decryptRound.
  destruct (2 <=? ksp m)%nat; [|discriminate]. cbn [bind].
  destruct (ksAt _ 0); [|discriminate]. cbn [bind].
  destruct (ksAt _ 1); [|discriminate]. cbn [bind].
  destruct (CAMELLIA_ROUND _ _ _ _ _ _) as [[[a1 a2] a3] a4].
  destruct (specialRound i).
  - cbn [ksp context]. destruct (4 <=? ksp m - 2)%nat; [|discriminate]. cbn [bind].
    destruct (ksAt _ 2); [|discriminate]. cbn [bind].
    destruct (ksAt _ 3); [|discriminate]. cbn [bind].
    destruct (CAMELLIA_FL _ _ _ _) as [f1 f2].
    destruct (ksAt _ 0); [|discriminate]. cbn [bind].
    destruct (ksAt _ 1); [|discriminate]. cbn [bind].
    destruct (CAMELLIA_INV_FL _ _ _ _) as [g1 g2].
    intros H. apply (f_equal (option_map context)) in H. cbn in H.
    injection H as <-. reflexivity.
  - intros H. apply (f_equal (option_map context)) in H. cbn in H.
    injection H as <-. reflexivity.
Qed.

Lemma forDown_context (body : nat -> CamelliaMem -> option CamelliaMem) :
  (forall i m m', body i m = Some m' -> context m' = context m) ->
  forall n m m', forDown n body m = Some m' -> context m' = context m.
Proof.
  intros Hbody. induction n as [|n IH]; intros m m'; cbn [forDown].
  - intros [= <-]. reflexivity.
  - destruct (body (S n) m) as [m1|] eqn:E; [|discriminate]. cbn [bind].
    intros H. apply IH in H. apply Hbody in E. congruence.
Qed.

Lemma camelliaEncryptBlock_frame c input c' output :
  camelliaEncryptBlock c input = Some (c', output) -> c' = c.
Proof.
  unfold camelliaEncryptBlock.
  destruct (encryptRounds c input) as [m|] eqn:E; [|discriminate]. cbn [bind].
  assert (Hc : context m = c).
  { revert E. unfold encryptRounds.
    repeat (destruct (LOAD32BE input _); [|discriminate]; cbn [bind]).
    repeat (destruct (ksAt _ _); [|discriminate]; cbn [bind]).
    intros H. apply (forDown_context _ encryptRound_context) in H. exact H. }
  repeat (destruct (ksAt m _); [|discriminate]; cbn [bind]).
  intros H. apply (f_equal (option_map fst)) in H. cbn in H.
  injection H as <-. exact Hc.
Qed.

Lemma camelliaDecryptBlock_frame c input c' output :
  camelliaDecryptBlock c input = Some (c', output) -> c' = c.
Proof.
  unfold camelliaDecryptBlock.
  repeat (destruct (LOAD32BE input _); [|discriminate]; cbn [bind]).
  repeat (destruct (ksAt _ _); [|discriminate]; cbn [bind]).
  destruct (forDown _ _ _) as [m|] eqn:E; [|discriminate]. cbn [bind].
  apply (forDown_context _ decryptRound_context) in E. cbn [context] in E.
  destruct (4 <=? ksp m)%nat; [|discriminate]. cbn [bind context].
  repeat (destruct (ksAt _ _); [|discriminate]; cbn [bind]).
  intros H. apply (f_equal (option_map fst)) in H. cbn in H.
  injection H as <-. exact E.
Qed.

End CamelliaRoundTrip.

(* ================================================================== *)
(** ** Camellia: key schedule                                           *)
(* ================================================================== *)

Section CamelliaKeySchedule.

Import Camellia.

Lemma Forall_upd {A : Type} (P : A -> Prop) i v (l : list A) :
  P v -> Forall P l -> Forall P (upd i v l).
Proof.
  intros Hv Hl. revert i. induction Hl as [|h t Hh Ht IH]; intros [|i]; cbn;
    auto.
Qed.

Lemma words_upd n i v l : is_word32 v -> words n l -> words n (upd i v l).
Proof.
  intros Hv [Hl Hf]. split; [rewrite length_upd; exact Hl|].
  apply Forall_upd; assumption.
Qed.

Lemma words_read n l i :
  words n l -> (i < n)%nat ->
  nth_error l i = Some (nth i l 0) /\ is_word32 (nth i l 0).
Proof.
  intros [Hl Hf] Hi. split; [apply nth_error_Some_nth; lia|].
  apply is_word32_nth, Hf.
Qed.

Lemma words_store n l i v :
  words n l -> (i < n)%nat -> store i v l = Some (upd i v l).
Proof. intros [Hl _] Hi. apply store_Some. lia. Qed.

Lemma is_word32_betoh32 x : is_word32 (betoh32 x).
Proof. unfold betoh32. auto with words. Qed.

Lemma byteOf_not32 x t :
  0 <= t <= 3 -> byteOf (not32 x) t = Z.lxor 0xFF (byteOf x t).
Proof.
  intros Ht. apply Z.bits_inj'; intros n Hn.
  rewrite Z.lxor_spec, !testbit_byteOf by lia.
  unfold not32. change 0xFFFFFFFF with (Z.ones 32). change 0xFF with (Z.ones 8).
  rewrite Z.land_spec, Z.lnot_spec, !Z.testbit_ones_nonneg by lia.
  destruct (Z.ltb_spec n 8); cbn [andb xorb]; [|reflexivity].
  destruct (Z.ltb_spec (n + 8 * t) 32); [|lia].
  rewrite andb_true_r. reflexivity.
Qed.

Lemma byteOf_betoh32 x :
  byteOf (betoh32 x) 0 = byteOf x 3 /\ byteOf (betoh32 x) 1 = byteOf x 2 /\
  byteOf (betoh32 x) 2 = byteOf x 1 /\ byteOf (betoh32 x) 3 = byteOf x 0.
Proof. unfold betoh32. apply byteOf_LOAD32LE; apply is_byte_byteOf. Qed.

(** The complement commutes with the conversion from big-endian order. *)
Lemma betoh32_not32 x : betoh32 (not32 x) = not32 (betoh32 x).
Proof.
  destruct (byteOf_betoh32 (not32 x)) as (A0 & A1 & A2 & A3).
  destruct (byteOf_betoh32 x) as (B0 & B1 & B2 & B3).
  apply word32_ext;
    [ apply is_word32_betoh32 | apply is_word32_not32 | .. ];
    rewrite ?A0, ?A1, ?A2, ?A3, !byteOf_not32 by lia;
    rewrite ?B0, ?B1, ?B2, ?B3; reflexivity.
Qed.

Lemma camellia_roundsOfKeyLength_Some keyLength n :
  roundsOfKeyLength keyLength = Some n <->
  (keyLength = 16 /\ n = 18 \/ keyLength = 24 /\ n = 24 \/
   keyLength = 32 /\ n = 24)%nat.
Proof.
  unfold roundsOfKeyLength.
  destruct (Nat.eqb_spec keyLength 16);
    [|destruct (Nat.eqb_spec keyLength 24);
      [|destruct (Nat.eqb_spec keyLength 32)]];
    cbn [orb]; split; intros H; try (injection H as <-); try discriminate;
    try lia;
    destruct H as [[? ->]|[[? ->]|[? ->]]]; try reflexivity; lia.
Qed.

Lemma camellia_roundsOfKeyLength_None keyLength :
  roundsOfKeyLength keyLength = None <->
  (keyLength <> 16 /\ keyLength <> 24 /\ keyLength <> 32)%nat.
Proof.
  unfold roundsOfKeyLength.
  destruct (Nat.eqb_spec keyLength 16);
    [|destruct (Nat.eqb_spec keyLength 24);
      [|destruct (Nat.eqb_spec keyLength 32)]];
    cbn [orb]; split; intros H; try discriminate; try lia; auto.
Qed.

(** Evaluate the first part of camelliaInit on a key whose bytes are named. *)
Ltac loadKey_eval :=
  cbv [loadKey memsetKey memcpyWords memcpyWord convertStep forUp bind
       nth_error store upd length repeat app skipn
       Nat.ltb Nat.leb Nat.eqb Nat.add Nat.mul Nat.div Nat.divmod fst
       KL KR KA KB].

Tactic Notation "name_key" ident(key) hyp(H) integer(n) :=
  do n (destruct key as [|? key]; [cbn [length] in H; lia|]).

Ltac key_bytes :=
  repeat match goal with
         | Hf : Forall is_byte (_ :: _) |- _ => inversion_clear Hf
         end.

Ltac loadKey_words :=
  repeat (apply Forall_cons;
          [ lazymatch goal with
            | |- is_word32 (betoh32 _) => apply is_word32_betoh32
            | |- is_word32 (Z.lxor _ _) =>
                apply is_word32_lxor; apply is_word32_betoh32
            | |- is_word32 0 => apply is_word32_0
            end |]);
  apply Forall_nil.

Lemma loadKey_spec (k key : list Z) (keyLength n : nat) :
  roundsOfKeyLength keyLength = Some n ->
  length k = 16%nat -> keyBuffer key keyLength ->
  exists k',
    loadKey k key keyLength = Some k' /\ words 16 k' /\
    (forall i, (i < 4)%nat ->
       nth (KB + i) k' 0 = Z.lxor (nth (KL + i) k' 0) (nth (KR + i) k' 0)) /\
    (keyLength = 24%nat ->
       nth (KR + 2) k' 0 = not32 (nth (KR + 0) k' 0) /\
       nth (KR + 3) k' 0 = not32 (nth (KR + 1) k' 0)).
Proof.
  intros Hr Hk [Hlen Hb].
  do 16 (destruct k as [|? k]; [discriminate Hk|]).
  destruct k; [clear Hk|discriminate Hk].
  apply camellia_roundsOfKeyLength_Some in Hr.
  destruct Hr as [[-> ->]|[[-> ->]|[-> ->]]].
  - name_key key Hlen 16. key_bytes. loadKey_eval.
    eexists. split; [reflexivity|]. split; [|split].
    + split; [reflexivity|].
      loadKey_words.
    + intros i Hi.
      do 4 (destruct i as [|i]; [cbn [nth Nat.add KB KL KR]; reflexivity|]). lia.
    + discriminate.
  - name_key key Hlen 24. key_bytes. loadKey_eval.
    eexists. split; [reflexivity|]. split; [|split].
    + split; [reflexivity|].
      loadKey_words.
    + intros i Hi.
      do 4 (destruct i as [|i]; [cbn [nth Nat.add KB KL KR]; reflexivity|]). lia.
    + intros _. cbn [nth Nat.add KR]. split; apply betoh32_not32.
  - name_key key Hlen 32. key_bytes. loadKey_eval.
    eexists. split; [reflexivity|]. split; [|split].
    + split; [reflexivity|].
      loadKey_words.
    + intros i Hi.
      do 4 (destruct i as [|i]; [cbn [nth Nat.add KB KL KR]; reflexivity|]). lia.
    + discriminate.
Qed.

(** Steps on an array of 16 words: reads and writes at constant indices. *)
Ltac step16 Hw :=
  lazymatch goal with
  | |- context [bind (nth_error ?l ?i) _] =>
      let E := fresh "E" in
      let Hx := fresh "Hx" in
      destruct (words_read 16 l i) as [E Hx];
      [ repeat (apply words_upd; [auto 6 with words|]); exact Hw
      | cbv [KL KR KA KB]; cbn [Nat.add]; lia
      | rewrite E; clear E; cbn [bind] ]
  | |- context [bind (store ?i ?v ?l) _] =>
      rewrite (words_store 16 l i v);
      [ cbn [bind]
      | repeat (apply words_upd; [auto 6 with words|]); exact Hw
      | cbv [KL KR KA KB]; cbn [Nat.add]; lia ]
  | |- context [store ?i ?v ?l] =>
      rewrite (words_store 16 l i v);
      [
      | repeat (apply words_upd; [auto 6 with words|]); exact Hw
      | cbv [KL KR KA KB]; cbn [Nat.add]; lia ]
  end.

Lemma xorInto_words dst src k :
  words 16 k -> (dst < 16)%nat -> (src < 16)%nat ->
  exists k', xorInto dst src k = Some k' /\ words 16 k'.
Proof.
  intros Hw Hd Hs. unfold xorInto.
  destruct (words_read 16 k dst Hw Hd) as [E1 H1].
  destruct (words_read 16 k src Hw Hs) as [E2 H2].
  rewrite E1, E2. cbn [bind]. rewrite (words_store 16) by assumption.
  eexists; split; [reflexivity|]. apply words_upd; auto with words.
Qed.

Ltac stepXor Hw :=
  lazymatch goal with
  | |- context [xorInto ?d ?s ?l] =>
      let k' := fresh "k" in
      let E := fresh "E" in
      let Hw' := fresh "Hw" in
      destruct (xorInto_words d s l) as (k' & E & Hw');
      [ exact Hw | cbv [KL KR KA KB]; cbn [Nat.add]; lia
      | cbv [KL KR KA KB]; cbn [Nat.add]; lia
      | rewrite E; clear E; cbn [bind] ]
  end.

Lemma sigmaStep_words i k :
  (i < 6)%nat -> words 16 k ->
  exists k', sigmaStep i k = Some k' /\ words 16 k'.
Proof.
  intros Hi Hw. unfold sigmaStep.
  do 4 step16 Hw.
  rewrite !(nth_error_Some_nth sigma _ 0) by (cbn [length sigma]; lia).
  cbn [bind].
  pose proof (CAMELLIA_ROUND_words (nth (KB + 0) k 0) (nth (KB + 1) k 0)
                (nth (KB + 2) k 0) (nth (KB + 3) k 0)
                (nth (2 * i) sigma 0) (nth (2 * i + 1) sigma 0)) as Hr.
  destruct (CAMELLIA_ROUND _ _ _ _ _ _) as [[[a1 a2] a3] a4].
  destruct Hr as (Ha1 & Ha2 & Ha3 & Ha4); [cbn [wordsBlock]; auto|].
  do 4 step16 Hw.
  assert (Hw1 : words 16 (upd (KB + 3) a4 (upd (KB + 2) a3
                  (upd (KB + 1) a2 (upd (KB + 0) a1 k))))).
  { repeat (apply words_upd; [assumption|]). exact Hw. }
  revert Hw1. generalize (upd (KB + 3) a4 (upd (KB + 2) a3
                  (upd (KB + 1) a2 (upd (KB + 0) a1 k)))).
  intros k1 Hw1.
  destruct (i =? 1)%nat; [|destruct (i =? 3)%nat].
  - stepXor Hw1. stepXor Hw0. stepXor Hw2.
    apply xorInto_words; [assumption | cbv; lia | cbv; lia].
  - do 8 step16 Hw1.
    assert (Hw2 : words 16
              (upd (KA + 3) (nth (KB + 3) k1 0)
                 (upd (KA + 2) (nth (KB + 2) k1 0)
                    (upd (KA + 1) (nth (KB + 1) k1 0)
                       (upd (KA + 0) (nth (KB + 0) k1 0) k1))))).
    { repeat (apply words_upd; [assumption|]). exact Hw1. }
    revert Hw2. generalize (upd (KA + 3) (nth (KB + 3) k1 0)
                 (upd (KA + 2) (nth (KB + 2) k1 0)
                    (upd (KA + 1) (nth (KB + 1) k1 0)
                       (upd (KA + 0) (nth (KB + 0) k1 0) k1)))).
    intros k2 Hw2.
    stepXor Hw2. stepXor Hw0. stepXor Hw3.
    apply xorInto_words; [assumption | cbv; lia | cbv; lia].
  - eexists; split; [reflexivity | exact Hw1].
Qed.

Lemma sigma_rounds_words k :
  words 16 k -> exists k', forUp 6 0 sigmaStep k = Some k' /\ words 16 k'.
Proof.
  intros Hw.
  destruct (forUp_invariant (fun _ k' => words 16 k') 6 0 sigmaStep k Hw)
    as (k' & E & Hw').
  - intros i s Hi Hs. apply sigmaStep_words; [lia | exact Hs].
  - exists k'. auto.
Qed.

Lemma subkeyStep_words kk ks e :
  words 16 kk -> words 68 ks -> entryOk e = true ->
  exists ks', subkeyStep kk ks e = Some ks' /\ words 68 ks'.
Proof.
  intros Hk Hs He. unfold entryOk in He.
  apply andb_prop in He. destruct He as [He1 He2].
  apply Nat.leb_le in He1, He2.
  unfold subkeyStep. cbv zeta.
  assert (Hrd : forall j, (j < 4)%nat ->
            nth_error (skipn (key e) kk) j = Some (nth (key e + j) kk 0) /\
            is_word32 (nth (key e + j) kk 0)).
  { intros j Hj. rewrite nth_error_skipn. apply (words_read 16); [exact Hk | lia]. }
  assert (Hm : forall a, (a mod 4 < 4)%nat) by (intros a; apply Nat.mod_upper_bound; lia).
  destruct (Hrd _ (Hm ((shift e + position e) / 32)%nat)) as [E0 W0].
  destruct (Hrd _ (Hm ((shift e + position e) / 32 + 1)%nat)) as [E1 W1].
  destruct (Hrd _ (Hm ((shift e + position e) / 32 + 2)%nat)) as [E2 W2].
  rewrite ?E0, ?E1, ?E2.
  destruct ((shift e + position e) mod 32 =? 0)%nat.
  - cbn [bind]. rewrite (words_store 68) by (assumption || lia).
    cbn [bind].
    rewrite (words_store 68) by (try apply words_upd; assumption || lia).
    eexists; split; [reflexivity|].
    repeat (apply words_upd; [assumption|]). exact Hs.
  - assert (Hsh : forall a b,
              is_word32 b ->
              is_word32 (Z.lor (shl32 a (Z.of_nat ((shift e + position e) mod 32)))
                   (Z.shiftr b (32 - Z.of_nat ((shift e + position e) mod 32))))).
    { intros a b Hb. apply is_word32_lor; [apply is_word32_shl32|].
      apply is_word32_shiftr; [exact Hb|].
      pose proof (Nat.mod_upper_bound (shift e + position e) 32). lia. }
    cbn [bind]. rewrite (words_store 68) by (assumption || lia).
    cbn [bind].
    rewrite (words_store 68) by (try apply words_upd; auto; lia).
    eexists; split; [reflexivity|].
    repeat (apply words_upd; [auto|]). exact Hs.
Qed.

Lemma generateSubkeys_words kk p ks :
  words 16 kk -> words 68 ks -> forallb entryOk p = true ->
  exists ks', generateSubkeys kk p ks = Some ks' /\ words 68 ks'.
Proof.
  intros Hk. unfold generateSubkeys. revert ks.
  induction p as [|e p IH]; intros ks Hs Hp; cbn [fold_left].
  - exists ks. auto.
  - cbn [forallb] in Hp. apply andb_prop in Hp. destruct Hp as [He Hp].
    destruct (subkeyStep_words kk ks e Hk Hs He) as (ks1 & E & Hs1).
    cbn [bind]. rewrite E. apply IH; assumption.
Qed.

(** camelliaInit on a supported key length: no fault, no error, and a
    context of the declared shape. *)
Lemma camelliaInit_spec (ctx0 : CamelliaContext) (key : list Z)
  (keyLength n : nat) :
  roundsOfKeyLength keyLength = Some n ->
  wfCamellia ctx0 -> keyBuffer key keyLength ->
  exists ctx,
    camelliaInit ctx0 key keyLength = Some (NO_ERROR, ctx) /\
    nr ctx = n /\ wfCamellia ctx.
Proof.
  intros Hr (Hk & Hkw & Hs & Hsw) Hkey. unfold camelliaInit. rewrite Hr.
  cbn [k ks nr].
  destruct (loadKey_spec (k ctx0) key keyLength n Hr Hk Hkey)
    as (k1 & E1 & Hw1 & _).
  rewrite E1. cbn [bind].
  destruct (sigma_rounds_words k1 Hw1) as (k2 & E2 & Hw2).
  rewrite E2. cbn [bind].
  destruct (generateSubkeys_words k2
              (if (keyLength =? 16)%nat then ks1 else ks2) (ks ctx0) Hw2)
    as (ks' & E3 & Hw3).
  { split; assumption. }
  { destruct (keyLength =? 16)%nat; vm_compute; reflexivity. }
  rewrite E3. cbn [bind].
  eexists; split; [reflexivity|]. cbn [nr k ks].
  split; [reflexivity|].
  destruct Hw2, Hw3. repeat split; assumption.
Qed.

Lemma camelliaInit_inv (ctx0 ctx : CamelliaContext) (key : list Z)
  (keyLength : nat) :
  camelliaInit ctx0 key keyLength = Some (NO_ERROR, ctx) ->
  exists n, roundsOfKeyLength keyLength = Some n.
Proof.
  unfold camelliaInit.
  destruct (roundsOfKeyLength keyLength) as [n|]; [|discriminate].
  intros _. exists n. reflexivity.
Qed.

End CamelliaKeySchedule.

(* ================================================================== *)
(** ** The properties of the specification                              *)
(* ================================================================== *)

(** Discharge the side conditions of the examples. *)
Ltac concrete_bytes :=
  repeat (apply Forall_cons; [unfold is_byte; lia|]); apply Forall_nil.

Ltac concrete_words :=
  repeat (apply Forall_cons; [unfold is_word32; lia|]); apply Forall_nil.

(** Round trip of the two ciphers under an initialized context. *)
Lemma round_trip_under_init
  (actx0 : Aes.AesContext) (cctx0 : Camellia.CamelliaContext)
  (key : list Z) (keyLength : nat) :
  (keyLength = 16 \/ keyLength = 24 \/ keyLength = 32)%nat ->
  keyBuffer key keyLength -> wfAes actx0 -> wfCamellia cctx0 ->
  (exists actx,
     Aes.aesInit actx0 key keyLength = Some (NO_ERROR, actx) /\
     forall p, bytes 16 p ->
       (exists c, Aes.aesEncryptBlock actx p = Some (actx, c) /\
                  Aes.aesDecryptBlock actx c = Some (actx, p)) /\
       (exists d, Aes.aesDecryptBlock actx p = Some (actx, d) /\
                  Aes.aesEncryptBlock actx d = Some (actx, p))) /\
  (exists cctx,
     Camellia.camelliaInit cctx0 key keyLength = Some (NO_ERROR, cctx) /\
     forall p, bytes 16 p ->
       (exists c, Camellia.camelliaEncryptBlock cctx p = Some (cctx, c) /\
                  Camellia.camelliaDecryptBlock cctx c = Some (cctx, p)) /\
       (exists d, Camellia.camelliaDecryptBlock cctx p = Some (cctx, d) /\
                  Camellia.camelliaEncryptBlock cctx d = Some (cctx, p))).
Proof.
  intros Hlen Hkey [Hwl _] Hcam. split.
  - assert (Hr : exists n, Aes.roundsOfKeyLength keyLength = Some n /\
                           (1 <= n <= 14)%nat).
    { destruct Hlen as [-> | [-> | ->]]; eexists; (split; [reflexivity | lia]). }
    destruct Hr as (n & Hr & Hn).
    destruct (aesInit_spec actx0 key keyLength n Hr) as (actx & E & Hnr & Hl & _);
      [lia | apply Hkey |].
    exists actx. split; [exact E|]. intros p Hp.
    assert (Hw : (4 * Aes.nr actx + 4 <= length (Aes.w actx))%nat) by lia.
    assert (H1 : (1 <= Aes.nr actx)%nat) by lia.
    split.
    + destruct (aes_decrypt_encrypt actx p H1 Hw Hp) as (c & Ec & _ & Ed).
      exists c. auto.
    + destruct (aes_encrypt_decrypt actx p H1 Hw Hp) as (d & Ed & _ & Ec).
      exists d. auto.
  - assert (Hr : exists n, Camellia.roundsOfKeyLength keyLength = Some n /\
                           (n = 18 \/ n = 24)%nat).
    { destruct Hlen as [-> | [-> | ->]]; eexists; (split; [reflexivity | lia]). }
    destruct Hr as (n & Hr & Hn).
    destruct (camelliaInit_spec cctx0 key keyLength n Hr Hcam Hkey)
      as (cctx & E & Hnr & _ & _ & Hl & Hf).
    exists cctx. split; [exact E|]. intros p Hp.
    rewrite <- Hnr in Hn.
    assert (Hw : words 68 (Camellia.ks cctx)) by (split; assumption).
    split.
    + destruct (camellia_decrypt_encrypt cctx p Hn Hw Hp) as (c & Ec & _ & Ed).
      exists c. auto.
    + destruct (camellia_encrypt_decrypt cctx p Hn Hw Hp) as (d & Ed & _ & Ec).
      exists d. auto.
Qed.


(** C1. For every accepted key (16, 24 or 32 bytes) the initializer yields a
    context under which, for every 16-byte block, decrypting the encryption
    of the block returns the block and encrypting its decryption returns it
    as well; for the AES pair and for the Camellia pair. *)
Theorem block_round_trip
  (actx0 : Aes.AesContext) (cctx0 : Camellia.CamelliaContext)
  (key : list Z) (keyLength : nat) :
  (keyLength = 16 \/ keyLength = 24 \/ keyLength = 32)%nat ->
  keyBuffer key keyLength -> wfAes actx0 -> wfCamellia cctx0 ->
  (exists actx,
     Aes.aesInit actx0 key keyLength = Some (NO_ERROR, actx) /\
     forall p, bytes 16 p ->
       (exists c, Aes.aesEncryptBlock actx p = Some (actx, c) /\
                  Aes.aesDecryptBlock actx c = Some (actx, p)) /\
       (exists d, Aes.aesDecryptBlock actx p = Some (actx, d) /\
                  Aes.aesEncryptBlock actx d = Some (actx, p))) /\
  (exists cctx,
     Camellia.camelliaInit cctx0 key keyLength = Some (NO_ERROR, cctx) /\
     forall p, bytes 16 p ->
       (exists c, Camellia.camelliaEncryptBlock cctx p = Some (cctx, c) /\
                  Camellia.camelliaDecryptBlock cctx c = Some (cctx, p)) /\
       (exists d, Camellia.camelliaDecryptBlock cctx p = Some (cctx, d) /\
                  Camellia.camelliaEncryptBlock cctx d = Some (cctx, p))).
Proof. exact (round_trip_under_init actx0 cctx0 key keyLength). Qed.


(** C3, as the code has it.  The Camellia round function, applied to the
    left halves (L1, L2), the right halves (R1, R2) and the key pair
    (k1, k2), produces new right = (L1, L2) and new left =
    (t2 xor R1, t1 xor R2), where (t1, t2) is the result of the S-layer then
    the P-layer on (L1 xor k1, L2 xor k2). *)
Theorem camellia_round_output (l1 l2 r1 r2 k1 k2 : Z) :
  Camellia.CAMELLIA_ROUND l1 l2 r1 r2 k1 k2 =
  (let '(t1, t2) := Camellia.CAMELLIA_S (Z.lxor l1 k1) (Z.lxor l2 k2) in
   let '(t1, t2) := Camellia.CAMELLIA_P t1 t2 in
   (Z.lxor t2 r1, Z.lxor t1 r2, l1, l2)).
Proof.
  unfold Camellia.CAMELLIA_ROUND.
  destruct (Camellia.CAMELLIA_S (Z.lxor l1 k1) (Z.lxor l2 k2)) as [s1 s2].
  destruct (Camellia.CAMELLIA_P s1 s2) as [t1 t2].
  reflexivity.
Qed.

(** C3, as the specification words it (new left = (t2 xor R2, t1 xor R1)),
    fails: with L = (0, 0), R = (1, 0) and a zero key pair the first word of
    the new left half is t2 xor R1, not t2 xor R2. *)
Lemma camellia_round_not_as_specified :
  Camellia.CAMELLIA_ROUND 0 0 1 0 0 0 <> roundAsSpecified 0 0 1 0 0 0.
Proof. vm_compute. intros H. discriminate H. Qed.

(** C4. For every key length other than 16, 24 and 32, aesInit and
    camelliaInit return the invalid key length error and the context is as
    it was; for the key lengths 16, 24 and 32 they return no error. *)
Theorem init_key_length
  (actx0 : Aes.AesContext) (cctx0 : Camellia.CamelliaContext)
  (key : list Z) (keyLength : nat) :
  keyBuffer key keyLength -> wfAes actx0 -> wfCamellia cctx0 ->
  ((keyLength <> 16 /\ keyLength <> 24 /\ keyLength <> 32)%nat ->
   Aes.aesInit actx0 key keyLength = Some (ERROR_INVALID_KEY_LENGTH, actx0) /\
   Camellia.camelliaInit cctx0 key keyLength
     = Some (ERROR_INVALID_KEY_LENGTH, cctx0)) /\
  ((keyLength = 16 \/ keyLength = 24 \/ keyLength = 32)%nat ->
   (exists actx, Aes.aesInit actx0 key keyLength = Some (NO_ERROR, actx)) /\
   (exists cctx,
      Camellia.camelliaInit cctx0 key keyLength = Some (NO_ERROR, cctx))).
Proof.
  intros Hkey [Hwl _] Hcam. split.
  - intros Hbad. split.
    + unfold Aes.aesInit.
      rewrite (proj2 (roundsOfKeyLength_None keyLength) Hbad). reflexivity.
    + unfold Camellia.camelliaInit.
      rewrite (proj2 (camellia_roundsOfKeyLength_None keyLength) Hbad).
      reflexivity.
  - intros Hlen. split.
    + assert (Hr : exists n, Aes.roundsOfKeyLength keyLength = Some n /\
                             (n <= 14)%nat).
      { destruct Hlen as [-> | [-> | ->]]; eexists; (split; [reflexivity | lia]). }
      destruct Hr as (n & Hr & Hn).
      destruct (aesInit_spec actx0 key keyLength n Hr) as (actx & E & _);
        [lia | apply Hkey |].
      exists actx. exact E.
    + assert (Hr : exists n, Camellia.roundsOfKeyLength keyLength = Some n).
      { destruct Hlen as [-> | [-> | ->]]; eexists; reflexivity. }
      destruct Hr as (n & Hr).
      destruct (camelliaInit_spec cctx0 key keyLength n Hr Hcam Hkey)
        as (cctx & E & _).
      exists cctx. exact E.
Qed.

(** C6. invMixColumns is the inverse of mixColumns on every 16-byte state,
    on both sides, and for every byte p the value p xor mul2[mul2[mul2[p]]]
    is the product {09}.p of GF(2^8) modulo 0x11B. *)
Theorem mix_columns_inverse (s : list Z) (p : Z) :
  bytes 16 s -> is_byte p ->
  Aes.invMixColumns (Aes.mixColumns s) = s /\
  Aes.mixColumns (Aes.invMixColumns s) = s /\
  Z.lxor p (tbl Aes.mul2 (tbl Aes.mul2 (tbl Aes.mul2 p))) = gfMul 9 p.
Proof.
  intros Hs Hp. split; [apply invMixColumns_mixColumns, Hs|].
  split; [apply mixColumns_invMixColumns, Hs | apply mul2_cubed_gfMul, Hp].
Qed.


(** C8. After camelliaInit has loaded and converted the key material and
    before the six rounds with the sigma constants, KB[i] = KL[i] xor KR[i]
    for i = 0..3, and for a 24-byte key KR[2] and KR[3] are the 32-bit
    complements of KR[0] and KR[1], on the converted words. *)
Theorem camellia_load_invariants (k key : list Z) (keyLength : nat) :
  (keyLength = 16 \/ keyLength = 24 \/ keyLength = 32)%nat ->
  length k = 16%nat -> keyBuffer key keyLength ->
  exists k',
    Camellia.loadKey k key keyLength = Some k' /\
    (forall i, (i < 4)%nat ->
       nth (Camellia.KB + i) k' 0 =
       Z.lxor (nth (Camellia.KL + i) k' 0) (nth (Camellia.KR + i) k' 0)) /\
    (keyLength = 24%nat ->
       nth (Camellia.KR + 2) k' 0 = Camellia.not32 (nth (Camellia.KR + 0) k' 0) /\
       nth (Camellia.KR + 3) k' 0 = Camellia.not32 (nth (Camellia.KR + 1) k' 0)).
Proof.
  intros Hlen Hk Hkey.
  assert (Hr : exists n, Camellia.roundsOfKeyLength keyLength = Some n).
  { destruct Hlen as [-> | [-> | ->]]; eexists; reflexivity. }
  destruct Hr as (n & Hr).
  destruct (loadKey_spec k key keyLength n Hr Hk Hkey) as (k' & E & _ & HB & HR).
  exists k'. auto.
Qed.

(** C9. For every initialized context and every 16-byte block, the block
    encryption and the block decryption of AES and of Camellia return with
    the context they were given: nr, w, k and ks are the same after the call
    as before. *)
Theorem block_functions_keep_context
  (actx0 : Aes.AesContext) (cctx0 : Camellia.CamelliaContext)
  (key : list Z) (keyLength : nat) (input : list Z) :
  (keyLength = 16 \/ keyLength = 24 \/ keyLength = 32)%nat ->
  keyBuffer key keyLength -> wfAes actx0 -> wfCamellia cctx0 ->
  bytes 16 input ->
  (exists actx,
     Aes.aesInit actx0 key keyLength = Some (NO_ERROR, actx) /\
     (exists out, Aes.aesEncryptBlock actx input = Some (actx, out)) /\
     (exists out, Aes.aesDecryptBlock actx input = Some (actx, out)) /\
     (forall inp c' out, Aes.aesEncryptBlock actx inp = Some (c', out) ->
        c' = actx) /\
     (forall inp c' out, Aes.aesDecryptBlock actx inp = Some (c', out) ->
        c' = actx)) /\
  (exists cctx,
     Camellia.camelliaInit cctx0 key keyLength = Some (NO_ERROR, cctx) /\
     (exists out, Camellia.camelliaEncryptBlock cctx input = Some (cctx, out)) /\
     (exists out, Camellia.camelliaDecryptBlock cctx input = Some (cctx, out)) /\
     (forall inp c' out,
        Camellia.camelliaEncryptBlock cctx inp = Some (c', out) -> c' = cctx) /\
     (forall inp c' out,
        Camellia.camelliaDecryptBlock cctx inp = Some (c', out) -> c' = cctx)).
Proof.
  intros Hlen Hkey Haes Hcam Hin.
  destruct (round_trip_under_init actx0 cctx0 key keyLength Hlen Hkey Haes Hcam)
    as [(actx & Ea & Ha) (cctx & Ec & Hc)].
  split.
  - exists actx. split; [exact Ea|].
    destruct (Ha input Hin) as [(c & E1 & _) (d & E2 & _)].
    split; [exists c; exact E1|]. split; [exists d; exact E2|].
    split; intros inp c' out H.
    + exact (aesEncryptBlock_frame _ _ _ _ H).
    + exact (aesDecryptBlock_frame _ _ _ _ H).
  - exists cctx. split; [exact Ec|].
    destruct (Hc input Hin) as [(c & E1 & _) (d & E2 & _)].
    split; [exists c; exact E1|]. split; [exists d; exact E2|].
    split; intros inp c' out H.
    + exact (camelliaEncryptBlock_frame _ _ _ _ H).
    + exact (camelliaDecryptBlock_frame _ _ _ _ H).
Qed.

(** C10. For every accepted AES key length the accesses of the expansion
    loop of aesInit are in bounds: the index i/Nk into rcon lies in [1, 10]
    and reaches 10 only for Nk = 4, the reads w[i-1] and w[i-Nk] and the
    write w[i] have indices below 4 (nr + 1); so no iteration, and no call of
    aesInit, takes the out-of-bounds branch, even when the schedule array
    holds exactly 4 (nr + 1) words. *)
Theorem aes_expansion_in_bounds
  (ctx0 : Aes.AesContext) (key : list Z) (keyLength n : nat) :
  Aes.roundsOfKeyLength keyLength = Some n ->
  (4 * (n + 1) <= length (Aes.w ctx0))%nat -> (keyLength <= length key)%nat ->
  (exists ctx, Aes.aesInit ctx0 key keyLength = Some (NO_ERROR, ctx)) /\
  length Aes.rcon = 11%nat /\
  (forall i, (keyLength / 4 <= i < 4 * (n + 1))%nat ->
     (i - 1 < 4 * (n + 1))%nat /\ (i - keyLength / 4 < 4 * (n + 1))%nat /\
     ((i mod (keyLength / 4) = 0)%nat ->
      (1 <= i / (keyLength / 4) <= 10)%nat /\
      ((i / (keyLength / 4) = 10)%nat -> (keyLength / 4 = 4)%nat)) /\
     forall w, length w = (4 * (n + 1))%nat ->
       exists w', Aes.expandStep (keyLength / 4) i w = Some w') /\
  (keyLength = 16%nat ->
   (40 mod (keyLength / 4) = 0 /\ 40 / (keyLength / 4) = 10)%nat).
Proof.
  intros Hr Hw Hk.
  assert (HNk : (1 <= keyLength / 4)%nat).
  { apply roundsOfKeyLength_Some in Hr.
    destruct Hr as [[-> ->]|[[-> ->]|[-> ->]]]; cbn; lia. }
  split.
  { destruct (aesInit_spec ctx0 key keyLength n Hr Hw Hk) as (ctx & E & _).
    exists ctx. exact E. }
  split; [reflexivity|]. split.
  - intros i Hi. split; [lia|]. split; [lia|]. split.
    + intros Hm. exact (rcon_index_bound keyLength n i Hr Hi Hm).
    + intros w Hlw. eexists. apply expandStep_spec; [lia | lia |].
      intros Hm. destruct (rcon_index_bound keyLength n i Hr Hi Hm). lia.
  - intros ->. split; reflexivity.
Qed.

(* ================================================================== *)
(** ** The properties on concrete keys and blocks                       *)
(* ================================================================== *)

Ltac concrete_keyBuffer :=
  split; [simpl; lia | concrete_bytes].

Ltac concrete_block :=
  split; [reflexivity | concrete_bytes].

Ltac concrete_wfAes :=
  split; [reflexivity | unfold freshAes; cbn [Aes.w repeat]; concrete_words].

Ltac concrete_wfCamellia :=
  unfold wfCamellia, freshCamellia; cbn [Camellia.k Camellia.ks repeat];
  split; [reflexivity|]; split; [concrete_words|];
  split; [reflexivity | concrete_words].

(** The round trip under the FIPS-197 128-bit key. *)
Lemma block_round_trip_witness :
  (16 = 16 \/ 16 = 24 \/ 16 = 32)%nat /\
  keyBuffer aesKey128 16 /\ wfAes freshAes /\ wfCamellia freshCamellia /\
  ((exists actx,
      Aes.aesInit freshAes aesKey128 16 = Some (NO_ERROR, actx) /\
      forall p, bytes 16 p ->
        (exists c, Aes.aesEncryptBlock actx p = Some (actx, c) /\
                   Aes.aesDecryptBlock actx c = Some (actx, p)) /\
        (exists d, Aes.aesDecryptBlock actx p = Some (actx, d) /\
                   Aes.aesEncryptBlock actx d = Some (actx, p))) /\
   (exists cctx,
      Camellia.camelliaInit freshCamellia aesKey128 16 = Some (NO_ERROR, cctx) /\
      forall p, bytes 16 p ->
        (exists c, Camellia.camelliaEncryptBlock cctx p = Some (cctx, c) /\
                   Camellia.camelliaDecryptBlock cctx c = Some (cctx, p)) /\
        (exists d, Camellia.camelliaDecryptBlock cctx p = Some (cctx, d) /\
                   Camellia.camelliaEncryptBlock cctx d = Some (cctx, p)))).
Proof.
  assert (H1 : (16 = 16 \/ 16 = 24 \/ 16 = 32)%nat) by (left; reflexivity).
  assert (H2 : keyBuffer aesKey128 16) by concrete_keyBuffer.
  assert (H3 : wfAes freshAes) by concrete_wfAes.
  assert (H4 : wfCamellia freshCamellia) by concrete_wfCamellia.
  split; [exact H1|]. split; [exact H2|]. split; [exact H3|].
  split; [exact H4|].
  exact (block_round_trip freshAes freshCamellia aesKey128 16 H1 H2 H3 H4).
Defined.

(** The initializers on a 24-byte key, and on the first 5 bytes of it. *)
Lemma init_key_length_witness :
  keyBuffer camelliaKey192 24 /\ keyBuffer camelliaKey192 5 /\
  wfAes freshAes /\ wfCamellia freshCamellia /\
  ((exists actx,
      Aes.aesInit freshAes camelliaKey192 24 = Some (NO_ERROR, actx)) /\
   (exists cctx,
      Camellia.camelliaInit freshCamellia camelliaKey192 24
        = Some (NO_ERROR, cctx))) /\
  (Aes.aesInit freshAes camelliaKey192 5
     = Some (ERROR_INVALID_KEY_LENGTH, freshAes) /\
   Camellia.camelliaInit freshCamellia camelliaKey192 5
     = Some (ERROR_INVALID_KEY_LENGTH, freshCamellia)).
Proof.
  assert (H1 : keyBuffer camelliaKey192 24) by concrete_keyBuffer.
  assert (H2 : keyBuffer camelliaKey192 5) by concrete_keyBuffer.
  assert (H3 : wfAes freshAes) by concrete_wfAes.
  assert (H4 : wfCamellia freshCamellia) by concrete_wfCamellia.
  split; [exact H1|]. split; [exact H2|]. split; [exact H3|].
  split; [exact H4|]. split.
  - apply (proj2 (init_key_length freshAes freshCamellia camelliaKey192 24
                    H1 H3 H4)).
    right; left; reflexivity.
  - apply (proj1 (init_key_length freshAes freshCamellia camelliaKey192 5
                    H2 H3 H4)).
    repeat split; lia.
Defined.

(** MixColumns and its inverse on the FIPS-197 plaintext block, and the
    product {09}.{57}. *)
Lemma mix_columns_inverse_witness :
  bytes 16 aesPlain /\ is_byte 0x57 /\
  Aes.invMixColumns (Aes.mixColumns aesPlain) = aesPlain /\
  Aes.mixColumns (Aes.invMixColumns aesPlain) = aesPlain /\
  Z.lxor 0x57 (tbl Aes.mul2 (tbl Aes.mul2 (tbl Aes.mul2 0x57))) = gfMul 9 0x57.
Proof.
  assert (H1 : bytes 16 aesPlain) by concrete_block.
  assert (H2 : is_byte 0x57) by (unfold is_byte; lia).
  split; [exact H1|]. split; [exact H2|].
  exact (mix_columns_inverse aesPlain 0x57 H1 H2).
Defined.


(** The key material of the RFC 3713 192-bit key after the load. *)
Lemma camellia_load_invariants_witness :
  (24 = 16 \/ 24 = 24 \/ 24 = 32)%nat /\
  length (repeat 0 16) = 16%nat /\ keyBuffer camelliaKey192 24 /\
  exists k',
    Camellia.loadKey (repeat 0 16) camelliaKey192 24 = Some k' /\
    (forall i, (i < 4)%nat ->
       nth (Camellia.KB + i) k' 0 =
       Z.lxor (nth (Camellia.KL + i) k' 0) (nth (Camellia.KR + i) k' 0)) /\
    (24%nat = 24%nat ->
       nth (Camellia.KR + 2) k' 0 = Camellia.not32 (nth (Camellia.KR + 0) k' 0) /\
       nth (Camellia.KR + 3) k' 0 = Camellia.not32 (nth (Camellia.KR + 1) k' 0)).
Proof.
  assert (H1 : (24 = 16 \/ 24 = 24 \/ 24 = 32)%nat) by (right; left; reflexivity).
  assert (H2 : length (repeat 0 16) = 16%nat) by reflexivity.
  assert (H3 : keyBuffer camelliaKey192 24) by concrete_keyBuffer.
  split; [exact H1|]. split; [exact H2|]. split; [exact H3|].
  exact (camellia_load_invariants (repeat 0 16) camelliaKey192 24 H1 H2 H3).
Defined.

(** The context after a block operation under the RFC 3713 256-bit key. *)
Lemma block_functions_keep_context_witness :
  (32 = 16 \/ 32 = 24 \/ 32 = 32)%nat /\
  keyBuffer camelliaKey256 32 /\ wfAes freshAes /\ wfCamellia freshCamellia /\
  bytes 16 camelliaPlain /\
  (exists actx,
     Aes.aesInit freshAes camelliaKey256 32 = Some (NO_ERROR, actx) /\
     (exists out, Aes.aesEncryptBlock actx camelliaPlain = Some (actx, out)) /\
     (exists out, Aes.aesDecryptBlock actx camelliaPlain = Some (actx, out))) /\
  (exists cctx,
     Camellia.camelliaInit freshCamellia camelliaKey256 32
       = Some (NO_ERROR, cctx) /\
     (exists out,
        Camellia.camelliaEncryptBlock cctx camelliaPlain = Some (cctx, out)) /\
     (exists out,
        Camellia.camelliaDecryptBlock cctx camelliaPlain = Some (cctx, out))).
Proof.
  assert (H1 : (32 = 16 \/ 32 = 24 \/ 32 = 32)%nat) by (right; right; reflexivity).
  assert (H2 : keyBuffer camelliaKey256 32) by concrete_keyBuffer.
  assert (H3 : wfAes freshAes) by concrete_wfAes.
  assert (H4 : wfCamellia freshCamellia) by concrete_wfCamellia.
  assert (H5 : bytes 16 camelliaPlain) by concrete_block.
  split; [exact H1|]. split; [exact H2|]. split; [exact H3|].
  split; [exact H4|]. split; [exact H5|].
  destruct (block_functions_keep_context freshAes freshCamellia camelliaKey256
              32 camelliaPlain H1 H2 H3 H4 H5)
    as [(actx & Ea & He & Hd & _) (cctx & Ec & He' & Hd' & _)].
  split.
  - exists actx. split; [exact Ea|]. split; [exact He | exact Hd].
  - exists cctx. split; [exact Ec|]. split; [exact He' | exact Hd'].
Defined.

(** The bounds of the expansion loop for a 128-bit key. *)
Lemma aes_expansion_in_bounds_witness :
  Aes.roundsOfKeyLength 16 = Some 10%nat /\
  (4 * (10 + 1) <= length (Aes.w freshAes))%nat /\
  (16 <= length aesKey128)%nat /\
  (exists ctx, Aes.aesInit freshAes aesKey128 16 = Some (NO_ERROR, ctx)) /\
  (40 mod (16 / 4) = 0 /\ 40 / (16 / 4) = 10)%nat.
Proof.
  assert (H1 : Aes.roundsOfKeyLength 16 = Some 10%nat) by reflexivity.
  assert (H2 : (4 * (10 + 1) <= length (Aes.w freshAes))%nat) by (simpl; lia).
  assert (H3 : (16 <= length aesKey128)%nat) by (simpl; lia).
  split; [exact H1|]. split; [exact H2|]. split; [exact H3|].
  destruct (aes_expansion_in_bounds freshAes aesKey128 16 10 H1 H2 H3)
    as (Hinit & _ & _ & H40).
  split; [exact Hinit | exact (H40 eq_refl)].
Defined.

(* ================================================================== *)
(** ** AES: the tables and transformations against FIPS-197             *)
(* ================================================================== *)

Section AesStandard.

Import Aes.

Lemma sbox_fips b : is_byte b -> tbl sbox b = fipsSbox b.
Proof.
  intros Hb. apply Z.eqb_eq. revert b Hb.
  apply (byte_forall (fun b => tbl sbox b =? fipsSbox b)).
  vm_compute. reflexivity.
Qed.

Lemma mul2_xtime b : is_byte b -> tbl mul2 b = xtime b.
Proof.
  intros Hb. apply Z.eqb_eq. revert b Hb.
  apply (byte_forall (fun b => tbl mul2 b =? xtime b)).
  vm_compute. reflexivity.
Qed.

Lemma gfMul_3 b : is_byte b -> gfMul 3 b = Z.lxor (tbl mul2 b) b.
Proof.
  intros Hb. apply Z.eqb_eq. revert b Hb.
  apply (byte_forall (fun b => gfMul 3 b =? Z.lxor (tbl mul2 b) b)).
  vm_compute. reflexivity.
Qed.

Lemma gfMul_9 b :
  is_byte b -> gfMul 9 b = Z.lxor (tbl mul2 (tbl mul2 (tbl mul2 b))) b.
Proof.
  intros Hb. apply Z.eqb_eq. revert b Hb.
  apply (byte_forall
           (fun b => gfMul 9 b =? Z.lxor (tbl mul2 (tbl mul2 (tbl mul2 b))) b)).
  vm_compute. reflexivity.
Qed.

Lemma gfMul_11 b :
  is_byte b ->
  gfMul 11 b = Z.lxor (Z.lxor (tbl mul2 (tbl mul2 (tbl mul2 b))) (tbl mul2 b)) b.
Proof.
  intros Hb. apply Z.eqb_eq. revert b Hb.
  apply (byte_forall
           (fun b => gfMul 11 b =?
                     Z.lxor (Z.lxor (tbl mul2 (tbl mul2 (tbl mul2 b)))
                                    (tbl mul2 b)) b)).
  vm_compute. reflexivity.
Qed.

Lemma gfMul_13 b :
  is_byte b ->
  gfMul 13 b =
  Z.lxor (Z.lxor (tbl mul2 (tbl mul2 (tbl mul2 b))) (tbl mul2 (tbl mul2 b))) b.
Proof.
  intros Hb. apply Z.eqb_eq. revert b Hb.
  apply (byte_forall
           (fun b => gfMul 13 b =?
                     Z.lxor (Z.lxor (tbl mul2 (tbl mul2 (tbl mul2 b)))
                                    (tbl mul2 (tbl mul2 b))) b)).
  vm_compute. reflexivity.
Qed.

Lemma gfMul_14 b :
  is_byte b ->
  gfMul 14 b =
  Z.lxor (Z.lxor (tbl mul2 (tbl mul2 (tbl mul2 b))) (tbl mul2 (tbl mul2 b)))
         (tbl mul2 b).
Proof.
  intros Hb. apply Z.eqb_eq. revert b Hb.
  apply (byte_forall
           (fun b => gfMul 14 b =?
                     Z.lxor (Z.lxor (tbl mul2 (tbl mul2 (tbl mul2 b)))
                                    (tbl mul2 (tbl mul2 b))) (tbl mul2 b))).
  vm_compute. reflexivity.
Qed.

Ltac mul2_linear' :=
  repeat rewrite mul2_lxor by auto 12 with bytes.

Lemma mixColumn_fips b0 b1 b2 b3 :
  is_byte b0 -> is_byte b1 -> is_byte b2 -> is_byte b3 ->
  mixColumn 0 [b0; b1; b2; b3] = fipsMixColumn b0 b1 b2 b3.
Proof.
  intros H0 H1 H2 H3. unfold fipsMixColumn.
  rewrite !gfMul_3, <- !mul2_gfMul by assumption.
  cbv [mixColumn fold_left seq getb nth upd Nat.add].
  repeat (apply (f_equal2 cons); [mul2_linear'; ring|]).
  reflexivity.
Qed.

Lemma invMixColumn_fips b0 b1 b2 b3 :
  is_byte b0 -> is_byte b1 -> is_byte b2 -> is_byte b3 ->
  invMixColumn 0 [b0; b1; b2; b3] = fipsInvMixColumn b0 b1 b2 b3.
Proof.
  intros H0 H1 H2 H3. unfold fipsInvMixColumn.
  rewrite !gfMul_9, !gfMul_11, !gfMul_13, !gfMul_14 by assumption.
  cbv [invMixColumn fold_left seq getb nth upd Nat.add].
  repeat (apply (f_equal2 cons); [mul2_linear'; ring|]).
  reflexivity.
Qed.

End AesStandard.

(* ================================================================== *)
(** ** Rotations of words, byte by byte                                 *)
(* ================================================================== *)

Section Rotations.

Lemma word_testbit_high x n : is_word32 x -> 32 <= n -> Z.testbit x n = false.
Proof.
  intros Hx Hn. apply is_word32_land in Hx. rewrite <- Hx.
  change 0xFFFFFFFF with (Z.ones 32).
  rewrite Z.land_spec, Z.testbit_ones_nonneg by lia.
  replace (n <? 32) with false by (symmetry; apply Z.ltb_ge; lia).
  apply andb_false_r.
Qed.

Lemma testbit_ROL32 x k n :
  is_word32 x -> 0 < k < 32 -> 0 <= n ->
  Z.testbit (ROL32 x k) n =
  if n <? k then Z.testbit x (n + 32 - k)
  else if n <? 32 then Z.testbit x (n - k) else false.
Proof.
  intros Hx Hk Hn. unfold ROL32. change 0xFFFFFFFF with (Z.ones 32).
  rewrite Z.land_spec, Z.lor_spec, Z.shiftl_spec, Z.shiftr_spec,
    Z.testbit_ones_nonneg by lia.
  replace (n + (32 - k)) with (n + 32 - k) by lia.
  destruct (Z.ltb_spec n k).
  - rewrite (Z.testbit_neg_r x (n - k)) by lia.
    destruct (Z.ltb_spec n 32); [|lia].
    rewrite orb_false_l, andb_true_r. reflexivity.
  - rewrite (word_testbit_high x (n + 32 - k)) by (assumption || lia).
    rewrite orb_false_r.
    destruct (Z.ltb_spec n 32); [apply andb_true_r | apply andb_false_r].
Qed.

Lemma ROR32_ROL32 x k : ROR32 x k = ROL32 x (32 - k).
Proof.
  unfold ROR32, ROL32. rewrite Z.lor_comm.
  replace (32 - (32 - k)) with k by lia. reflexivity.
Qed.

(** Case analysis on the position of a bit of a word built from bytes. *)
Ltac bit_cases :=
  repeat match goal with
         | |- context [?a <? ?b] => destruct (Z.ltb_spec a b); try lia
         end.

Lemma ROL32_LOAD32LE k b0 b1 b2 b3 c0 c1 c2 c3 :
  is_byte b0 -> is_byte b1 -> is_byte b2 -> is_byte b3 ->
  (k = 8 /\ c0 = b3 /\ c1 = b0 /\ c2 = b1 /\ c3 = b2) \/
  (k = 16 /\ c0 = b2 /\ c1 = b3 /\ c2 = b0 /\ c3 = b1) \/
  (k = 24 /\ c0 = b1 /\ c1 = b2 /\ c2 = b3 /\ c3 = b0) ->
  ROL32 (LOAD32LE b0 b1 b2 b3) k = LOAD32LE c0 c1 c2 c3.
Proof.
  intros H0 H1 H2 H3 Hk.
  apply Z.bits_inj'; intros n Hn.
  rewrite testbit_ROL32
    by (try apply is_word32_LOAD32LE; try assumption;
        destruct Hk as [(-> & _)|[(-> & _)|(-> & _)]]; lia).
  destruct Hk as [(-> & -> & -> & -> & ->)|[(-> & -> & -> & -> & ->)
                 |(-> & -> & -> & -> & ->)]];
    bit_cases;
    repeat rewrite testbit_LOAD32LE by (assumption || lia);
    bit_cases; try (f_equal; lia);
    symmetry; apply byte_testbit_high; (assumption || lia).
Qed.

Lemma ROL32_8_LE b0 b1 b2 b3 :
  is_byte b0 -> is_byte b1 -> is_byte b2 -> is_byte b3 ->
  ROL32 (LOAD32LE b0 b1 b2 b3) 8 = LOAD32LE b3 b0 b1 b2.
Proof. intros. apply ROL32_LOAD32LE; auto 10. Qed.

Lemma ROL32_16_LE b0 b1 b2 b3 :
  is_byte b0 -> is_byte b1 -> is_byte b2 -> is_byte b3 ->
  ROL32 (LOAD32LE b0 b1 b2 b3) 16 = LOAD32LE b2 b3 b0 b1.
Proof. intros. apply ROL32_LOAD32LE; auto 10. Qed.

Lemma ROR32_8_LE b0 b1 b2 b3 :
  is_byte b0 -> is_byte b1 -> is_byte b2 -> is_byte b3 ->
  ROR32 (LOAD32LE b0 b1 b2 b3) 8 = LOAD32LE b1 b2 b3 b0.
Proof.
  intros. rewrite ROR32_ROL32. change (32 - 8) with 24.
  apply ROL32_LOAD32LE; auto 10.
Qed.

Lemma LOAD32LE_lxor a0 a1 a2 a3 b0 b1 b2 b3 :
  is_byte a0 -> is_byte a1 -> is_byte a2 -> is_byte a3 ->
  is_byte b0 -> is_byte b1 -> is_byte b2 -> is_byte b3 ->
  Z.lxor (LOAD32LE a0 a1 a2 a3) (LOAD32LE b0 b1 b2 b3) =
  LOAD32LE (Z.lxor a0 b0) (Z.lxor a1 b1) (Z.lxor a2 b2) (Z.lxor a3 b3).
Proof.
  intros.
  destruct (byteOf_LOAD32LE a0 a1 a2 a3) as (A0 & A1 & A2 & A3); [assumption..|].
  destruct (byteOf_LOAD32LE b0 b1 b2 b3) as (B0 & B1 & B2 & B3); [assumption..|].
  destruct (byteOf_LOAD32LE (Z.lxor a0 b0) (Z.lxor a1 b1) (Z.lxor a2 b2)
              (Z.lxor a3 b3)) as (C0 & C1 & C2 & C3);
    [apply is_byte_lxor; assumption..|].
  apply word32_ext;
    [ apply is_word32_lxor; apply is_word32_LOAD32LE; assumption
    | apply is_word32_LOAD32LE; apply is_byte_lxor; assumption
    | .. ];
    rewrite byteOf_lxor; congruence.
Qed.

End Rotations.

(* ================================================================== *)
(** ** AES: further properties of the transformations and of aesInit    *)
(* ================================================================== *)

Section AesMore.

Import Aes.

Lemma subBytes_map s : length s = 16%nat -> subBytes s = map (tbl sbox) s.
Proof.
  intros Hl. do 16 (destruct s as [|? s]; [discriminate Hl|]).
  destruct s; [|discriminate Hl].
  cbv [subBytes fold_left seq getb nth upd map]. reflexivity.
Qed.

Lemma invSubBytes_map s : length s = 16%nat -> invSubBytes s = map (tbl isbox) s.
Proof.
  intros Hl. do 16 (destruct s as [|? s]; [discriminate Hl|]).
  destruct s; [|discriminate Hl].
  cbv [invSubBytes fold_left seq getb nth upd map]. reflexivity.
Qed.

Lemma shiftRows_fips s : length s = 16%nat -> shiftRows s = fipsShiftRows s.
Proof.
  intros Hl. do 16 (destruct s as [|? s]; [discriminate Hl|]).
  destruct s; [reflexivity | discriminate Hl].
Qed.

Lemma invShiftRows_fips s :
  length s = 16%nat -> invShiftRows s = fipsInvShiftRows s.
Proof.
  intros Hl. do 16 (destruct s as [|? s]; [discriminate Hl|]).
  destruct s; [reflexivity | discriminate Hl].
Qed.

Lemma mixColumns_fips s :
  bytes 16 s -> mixColumns s = onColumns fipsMixColumn s.
Proof.
  intros H. state16 s H. rewrite mixColumns_columns.
  unfold onColumns. cbn [nth].
  rewrite !mixColumn_fips by assumption. reflexivity.
Qed.

Lemma invMixColumns_fips s :
  bytes 16 s -> invMixColumns s = onColumns fipsInvMixColumn s.
Proof.
  intros H. state16 s H. rewrite invMixColumns_columns.
  unfold onColumns. cbn [nth].
  rewrite !invMixColumn_fips by assumption. reflexivity.
Qed.

Lemma rotWord_LE b0 b1 b2 b3 :
  is_byte b0 -> is_byte b1 -> is_byte b2 -> is_byte b3 ->
  rotWord (LOAD32LE b0 b1 b2 b3) = LOAD32LE b1 b2 b3 b0.
Proof. intros. unfold rotWord. apply ROR32_8_LE; assumption. Qed.

Lemma subWord_LE b0 b1 b2 b3 :
  is_byte b0 -> is_byte b1 -> is_byte b2 -> is_byte b3 ->
  subWord (LOAD32LE b0 b1 b2 b3) =
  LOAD32LE (tbl sbox b0) (tbl sbox b1) (tbl sbox b2) (tbl sbox b3).
Proof.
  intros H0 H1 H2 H3. unfold subWord. cbv zeta.
  destruct (byteOf_LOAD32LE b0 b1 b2 b3) as (E0 & E1 & E2 & E3); [assumption..|].
  rewrite E0, E1, E2, E3. reflexivity.
Qed.

Lemma is_word32_subWord x : is_word32 (subWord x).
Proof. unfold subWord. cbv zeta. apply is_word32_LOAD32LE; apply sbox_is_byte. Qed.

Lemma rcon_words : Forall is_word32 rcon.
Proof. repeat (apply Forall_cons; [unfold is_word32; lia|]). apply Forall_nil. Qed.

Lemma is_word32_expansionWord Nk i t :
  is_word32 t -> is_word32 (expansionWord Nk i t).
Proof.
  intros Ht. unfold expansionWord.
  destruct (i mod Nk =? 0)%nat.
  - apply is_word32_lxor; [apply is_word32_subWord|].
    apply is_word32_nth, rcon_words.
  - destruct ((6 <? Nk)%nat && (i mod Nk =? 4)%nat);
      [apply is_word32_subWord | exact Ht].
Qed.

(** The expansion loop keeps the words in range and does not write at or
    above its bound. *)
Lemma expand_frame (Nk N : nat) (w1 : list Z) :
  (1 <= Nk <= N)%nat -> (N <= length w1)%nat -> Forall is_word32 w1 ->
  (forall i, (Nk <= i < N)%nat -> (i mod Nk = 0)%nat -> (i / Nk < 11)%nat) ->
  exists w2,
    forUp (N - Nk) Nk (expandStep Nk) w1 = Some w2 /\
    Forall is_word32 w2 /\
    (forall j, (N <= j)%nat -> nth j w2 0 = nth j w1 0).
Proof.
  intros HNk HN Hw Hrc.
  destruct (forUp_invariant
    (fun i w' => length w' = length w1 /\ Forall is_word32 w' /\
       (forall j, (i <= j)%nat -> nth j w' 0 = nth j w1 0))
    (N - Nk) Nk (expandStep Nk) w1) as (w2 & E & Hl & Hf & Hhi).
  - split; [reflexivity|]. split; [exact Hw | reflexivity].
  - intros i w' Hi (Hl & Hf & Hhi).
    rewrite expandStep_spec by (try apply Hrc; lia).
    eexists; split; [reflexivity|].
    split; [rewrite length_upd; exact Hl|]. split.
    + apply Forall_upd; [|exact Hf].
      apply is_word32_lxor; [apply is_word32_nth, Hf|].
      apply is_word32_expansionWord, is_word32_nth, Hf.
    + intros j Hj. rewrite nth_upd_other by lia. apply Hhi; lia.
  - exists w2. split; [exact E|]. split; [exact Hf|].
    intros j Hj. apply Hhi. lia.
Qed.

Lemma memcpyWords_words (dst src : list Z) (n : nat) dst' :
  Forall is_word32 dst -> Forall is_byte src ->
  length dst' = length dst ->
  (forall j, (j < n / 4)%nat ->
     nth j dst' 0 = LOAD32LE (nth (4 * j) src 0) (nth (4 * j + 1) src 0)
                             (nth (4 * j + 2) src 0) (nth (4 * j + 3) src 0)) ->
  (forall j, (n / 4 <= j)%nat -> nth j dst' 0 = nth j dst 0) ->
  Forall is_word32 dst'.
Proof.
  intros Hd Hs Hl Hlo Hhi. apply Forall_nth. intros i d Hi.
  rewrite (nth_indep dst' d 0) by exact Hi.
  destruct (Nat.lt_ge_cases i (n / 4)) as [Hlt | Hge].
  - rewrite Hlo by exact Hlt.
    apply is_word32_LOAD32LE; apply is_byte_nth, Hs.
  - rewrite Hhi by exact Hge. apply is_word32_nth, Hd.
Qed.

Lemma aesInit_shape (ctx0 : AesContext) (key : list Z) (keyLength n : nat) :
  roundsOfKeyLength keyLength = Some n ->
  wfAes ctx0 -> keyBuffer key keyLength ->
  exists ctx,
    aesInit ctx0 key keyLength = Some (NO_ERROR, ctx) /\
    nr ctx = n /\ wfAes ctx /\
    (forall j, (4 * (n + 1) <= j)%nat -> nth j (w ctx) 0 = nth j (w ctx0) 0).
Proof.
  intros Hr [Hwl Hwf] [Hk Hkb].
  assert (Hcases := proj1 (roundsOfKeyLength_Some _ _) Hr).
  assert (HNk : (1 <= keyLength / 4 /\ 4 * (keyLength / 4) = keyLength /\
                 keyLength / 4 <= 4 * (n + 1) <= 60)%nat).
  { destruct Hcases as [[-> ->]|[[-> ->]|[-> ->]]]; cbn; lia. }
  destruct HNk as (HNk1 & HNk4 & HNkN).
  destruct (aesInit_spec ctx0 key keyLength n Hr) as (ctx & E & Hnr & Hl & _);
    [lia | exact Hk |].
  exists ctx. split; [exact E|]. split; [exact Hnr|].
  revert E. unfold aesInit. rewrite Hr. cbn [w nr].
  destruct (memcpyWords_spec (w ctx0) key keyLength)
    as (w1 & E1 & Hl1 & Hlo1 & Hhi1); [lia | lia |].
  rewrite E1. cbn [bind].
  assert (Hw1 : Forall is_word32 w1)
    by (apply (memcpyWords_words (w ctx0) key keyLength); assumption).
  destruct (expand_frame (keyLength / 4) (4 * (n + 1)) w1)
    as (w2 & E2 & Hf2 & Hhi2); [lia | lia | exact Hw1 | |].
  { intros i Hi Hm. destruct (rcon_index_bound keyLength n i Hr Hi Hm). lia. }
  rewrite E2. cbn [bind]. intros [= <-]. unfold wfAes. cbn [w nr] in *.
  split; [split; [lia | exact Hf2]|].
  intros j Hj. rewrite Hhi2 by exact Hj. apply Hhi1. lia.
Qed.

(** The schedule below [4 (nr + 1)] is determined by the key. *)
Lemma schedule_determined (Nk N : nat) (key wa wb : list Z) :
  (1 <= Nk)%nat ->
  (forall j, (j < Nk)%nat -> nth j wa 0 = nth j wb 0) ->
  (forall i, (Nk <= i < N)%nat ->
     nth i wa 0 = Z.lxor (nth (i - Nk) wa 0)
                         (expansionWord Nk i (nth (i - 1) wa 0))) ->
  (forall i, (Nk <= i < N)%nat ->
     nth i wb 0 = Z.lxor (nth (i - Nk) wb 0)
                         (expansionWord Nk i (nth (i - 1) wb 0))) ->
  forall i, (i < N)%nat -> nth i wa 0 = nth i wb 0.
Proof.
  intros HNk Hlo Ha Hb i.
  induction i as [i IH] using lt_wf_ind. intros Hi.
  destruct (Nat.lt_ge_cases i Nk) as [Hlt | Hge]; [apply Hlo, Hlt|].
  rewrite Ha, Hb by lia.
  rewrite (IH (i - Nk)%nat), (IH (i - 1)%nat) by lia. reflexivity.
Qed.

Lemma roundKey_determined (ca cb : AesContext) (N i : nat) :
  (forall j, (j < N)%nat -> nth j (w ca) 0 = nth j (w cb) 0) ->
  (N <= length (w ca))%nat -> (N <= length (w cb))%nat ->
  (4 * i + 4 <= N)%nat -> roundKey ca i = roundKey cb i.
Proof.
  intros Heq Hla Hlb Hi. unfold roundKey, keyBytes. f_equal.
  apply (nth_ext _ _ 0 0).
  - rewrite !length_firstn, !length_skipn. lia.
  - intros j Hj. rewrite length_firstn, length_skipn in Hj.
    rewrite !nth_firstn.
    destruct (j <? 4)%nat eqn:Ej; [|reflexivity].
    apply Nat.ltb_lt in Ej. rewrite !nth_skipn. apply Heq. lia.
Qed.

Lemma encLoop_determined (ca cb : AesContext) (n : nat) s :
  (forall i, (1 <= i <= n)%nat -> roundKey ca i = roundKey cb i) ->
  encLoop ca n s = encLoop cb n s.
Proof.
  intros H. induction n as [|n IH]; [reflexivity|].
  rewrite !encLoop_S. unfold encR. rewrite IH by (intros; apply H; lia).
  rewrite (H (S n)) by lia. reflexivity.
Qed.

Lemma decLoop_determined (ca cb : AesContext) (n : nat) s :
  (forall i, (1 <= i <= n)%nat -> roundKey ca i = roundKey cb i) ->
  decLoop ca n s = decLoop cb n s.
Proof.
  intros H. revert s. induction n as [|n IH]; intros s; [reflexivity|].
  rewrite !decLoop_S. unfold decR. rewrite (H (S n)) by lia.
  apply IH. intros; apply H; lia.
Qed.

End AesMore.

(* ================================================================== *)
(** ** Camellia: the tables and the round function against RFC 3713     *)
(* ================================================================== *)

Section CamelliaStandard.

Import Camellia.

Lemma sbox_relations b :
  is_byte b ->
  tbl sbox2 b = rotl8 (tbl sbox1 b) 1 /\
  tbl sbox3 b = rotl8 (tbl sbox1 b) 7 /\
  tbl sbox4 b = tbl sbox1 (rotl8 b 1).
Proof.
  intros Hb.
  assert (H : ((tbl sbox2 b =? rotl8 (tbl sbox1 b) 1) &&
               (tbl sbox3 b =? rotl8 (tbl sbox1 b) 7) &&
               (tbl sbox4 b =? tbl sbox1 (rotl8 b 1))) = true).
  { revert b Hb.
    apply (byte_forall
             (fun b => (tbl sbox2 b =? rotl8 (tbl sbox1 b) 1) &&
                       (tbl sbox3 b =? rotl8 (tbl sbox1 b) 7) &&
                       (tbl sbox4 b =? tbl sbox1 (rotl8 b 1)))).
    vm_compute. reflexivity. }
  apply andb_prop in H. destruct H as [H H3].
  apply andb_prop in H. destruct H as [H1 H2].
  apply Z.eqb_eq in H1, H2, H3. auto.
Qed.

Lemma sbox1_injective a b :
  is_byte a -> is_byte b -> tbl sbox1 a = tbl sbox1 b -> a = b.
Proof.
  intros Ha Hb.
  assert (H : (negb (tbl sbox1 a =? tbl sbox1 b) || (a =? b)) = true).
  { revert a b Ha Hb.
    apply (byte_forall2
             (fun a b => negb (tbl sbox1 a =? tbl sbox1 b) || (a =? b))).
    vm_compute. reflexivity. }
  intros E. apply Z.eqb_eq in E. rewrite E in H. cbn [negb orb] in H.
  apply Z.eqb_eq, H.
Qed.

(** The S-function on the bytes of its arguments. *)
Lemma CAMELLIA_S_bytes zl zr :
  CAMELLIA_S zl zr =
  (be32 (tbl sbox1 (byteOf zl 3)) (tbl sbox2 (byteOf zl 2))
        (tbl sbox3 (byteOf zl 1)) (tbl sbox4 (byteOf zl 0)),
   be32 (tbl sbox2 (byteOf zr 3)) (tbl sbox3 (byteOf zr 2))
        (tbl sbox4 (byteOf zr 1)) (tbl sbox1 (byteOf zr 0))).
Proof.
  unfold CAMELLIA_S, be32, byteOf. cbv zeta.
  change (8 * 3) with 24. change (8 * 2) with 16. change (8 * 1) with 8.
  change (8 * 0) with 0. rewrite !Z.shiftr_0_r. reflexivity.
Qed.

(** The P-function on words given by their bytes: the linear map of
    RFC 3713 on the eight bytes, with the two result words exchanged. *)
Lemma CAMELLIA_P_bytes t1 t2 t3 t4 t5 t6 t7 t8 :
  is_byte t1 -> is_byte t2 -> is_byte t3 -> is_byte t4 ->
  is_byte t5 -> is_byte t6 -> is_byte t7 -> is_byte t8 ->
  CAMELLIA_P (be32 t1 t2 t3 t4) (be32 t5 t6 t7 t8) =
  (be32 (Z.lxor (Z.lxor (Z.lxor (Z.lxor t1 t2) t6) t7) t8)
        (Z.lxor (Z.lxor (Z.lxor (Z.lxor t2 t3) t5) t7) t8)
        (Z.lxor (Z.lxor (Z.lxor (Z.lxor t3 t4) t5) t6) t8)
        (Z.lxor (Z.lxor (Z.lxor (Z.lxor t1 t4) t5) t6) t7),
   be32 (Z.lxor (Z.lxor (Z.lxor (Z.lxor (Z.lxor t1 t3) t4) t6) t7) t8)
        (Z.lxor (Z.lxor (Z.lxor (Z.lxor (Z.lxor t1 t2) t4) t5) t7) t8)
        (Z.lxor (Z.lxor (Z.lxor (Z.lxor (Z.lxor t1 t2) t3) t5) t6) t8)
        (Z.lxor (Z.lxor (Z.lxor (Z.lxor (Z.lxor t2 t3) t4) t5) t6) t7)).
Proof.
  intros H1 H2 H3 H4 H5 H6 H7 H8.
  unfold CAMELLIA_P. cbv zeta. rewrite !be32_LOAD32LE.
  repeat (first [ rewrite ROL32_8_LE by auto 8 with bytes
                | rewrite ROL32_16_LE by auto 8 with bytes
                | rewrite ROR32_8_LE by auto 8 with bytes
                | rewrite LOAD32LE_lxor by auto 8 with bytes ]).
  f_equal; (f_equal; ring).
Qed.

Lemma CAMELLIA_ROUND_rfc l1 l2 r1 r2 k1 k2 :
  CAMELLIA_ROUND l1 l2 r1 r2 k1 k2 =
  (Z.lxor (fst (rfcFWords l1 l2 k1 k2)) r1,
   Z.lxor (snd (rfcFWords l1 l2 k1 k2)) r2, l1, l2).
Proof.
  unfold CAMELLIA_ROUND. cbv zeta.
  rewrite CAMELLIA_S_bytes.
  rewrite CAMELLIA_P_bytes
    by first [apply sbox1_is_byte | apply sbox2_is_byte
             | apply sbox3_is_byte | apply sbox4_is_byte].
  unfold rfcFWords, rfcF. cbv zeta. cbn [fst snd]. reflexivity.
Qed.

End CamelliaStandard.

(* ================================================================== *)
(** ** Camellia: the key material and the subkeys                       *)
(* ================================================================== *)

Section CamelliaKeyMaterial.

Import Camellia.

(** Evaluate the first part of camelliaInit on a key whose bytes are named. *)
Ltac loadKey_eval :=
  cbv [loadKey memsetKey memcpyWords memcpyWord convertStep forUp bind
       nth_error store upd length repeat app skipn
       Nat.ltb Nat.leb Nat.eqb Nat.add Nat.mul Nat.div Nat.divmod fst
       KL KR KA KB].

Tactic Notation "name_key" ident(key) hyp(H) integer(n) :=
  do n (destruct key as [|? key]; [cbn [length] in H; lia|]).

Ltac key_bytes :=
  repeat match goal with
         | Hf : Forall is_byte (_ :: _) |- _ => inversion_clear Hf
         end.

Ltac loadKey_words :=
  repeat (apply Forall_cons;
          [ lazymatch goal with
            | |- is_word32 (betoh32 _) => apply is_word32_betoh32
            | |- is_word32 (Z.lxor _ _) =>
                apply is_word32_lxor; apply is_word32_betoh32
            | |- is_word32 0 => apply is_word32_0
            end |]);
  apply Forall_nil.

(** Steps on an array of 16 words: reads and writes at constant indices. *)
Ltac step16 Hw :=
  lazymatch goal with
  | |- context [bind (nth_error ?l ?i) _] =>
      let E := fresh "E" in
      let Hx := fresh "Hx" in
      destruct (words_read 16 l i) as [E Hx];
      [ repeat (apply words_upd; [auto 6 with words|]); exact Hw
      | cbv [KL KR KA KB]; cbn [Nat.add]; lia
      | rewrite E; clear E; cbn [bind] ]
  | |- context [bind (store ?i ?v ?l) _] =>
      rewrite (words_store 16 l i v);
      [ cbn [bind]
      | repeat (apply words_upd; [auto 6 with words|]); exact Hw
      | cbv [KL KR KA KB]; cbn [Nat.add]; lia ]
  | |- context [store ?i ?v ?l] =>
      rewrite (words_store 16 l i v);
      [
      | repeat (apply words_upd; [auto 6 with words|]); exact Hw
      | cbv [KL KR KA KB]; cbn [Nat.add]; lia ]
  end.


Lemma betoh32_LE b0 b1 b2 b3 :
  is_byte b0 -> is_byte b1 -> is_byte b2 -> is_byte b3 ->
  betoh32 (LOAD32LE b0 b1 b2 b3) = be32 b0 b1 b2 b3.
Proof.
  intros H0 H1 H2 H3. unfold betoh32.
  destruct (byteOf_LOAD32LE b0 b1 b2 b3) as (E0 & E1 & E2 & E3); [assumption..|].
  rewrite E0, E1, E2, E3, be32_LOAD32LE. reflexivity.
Qed.

Lemma betoh32_0 : betoh32 0 = 0.
Proof. reflexivity. Qed.

(** The key material after the load: KL and KR are the key bytes as
    big-endian words, KR being zero for a 16-byte key and completed with
    complements for a 24-byte key. *)
Lemma loadKey_values (k key : list Z) (keyLength n : nat) :
  roundsOfKeyLength keyLength = Some n ->
  length k = 16%nat -> keyBuffer key keyLength ->
  exists k',
    loadKey k key keyLength = Some k' /\ words 16 k' /\
    (forall i, (i < keyLength / 4)%nat ->
       nth i k' 0 = be32 (nth (4 * i) key 0) (nth (4 * i + 1) key 0)
                         (nth (4 * i + 2) key 0) (nth (4 * i + 3) key 0)) /\
    (keyLength = 16%nat -> forall i, (4 <= i < 8)%nat -> nth i k' 0 = 0) /\
    (keyLength = 24%nat ->
       nth 6 k' 0 = not32 (nth 4 k' 0) /\ nth 7 k' 0 = not32 (nth 5 k' 0)).
Proof.
  intros Hr Hk [Hlen Hb].
  do 16 (destruct k as [|? k]; [discriminate Hk|]).
  destruct k; [clear Hk|discriminate Hk].
  apply camellia_roundsOfKeyLength_Some in Hr.
  destruct Hr as [[-> ->]|[[-> ->]|[-> ->]]].
  - name_key key Hlen 16. key_bytes. loadKey_eval.
    eexists. split; [reflexivity|]. split; [split; [reflexivity | loadKey_words]|].
    split; [|split].
    + intros i Hi. change (16 / 4)%nat with 4%nat in Hi.
      do 4 (destruct i as [|i];
            [cbn [nth Nat.add Nat.mul]; apply betoh32_LE; assumption|]).
      lia.
    + intros _ i Hi.
      do 4 (destruct i as [|i]; [lia|]).
      do 4 (destruct i as [|i]; [reflexivity|]). lia.
    + discriminate.
  - name_key key Hlen 24. key_bytes. loadKey_eval.
    eexists. split; [reflexivity|]. split; [split; [reflexivity | loadKey_words]|].
    split; [|split].
    + intros i Hi. change (24 / 4)%nat with 6%nat in Hi.
      do 6 (destruct i as [|i];
            [cbn [nth Nat.add Nat.mul]; apply betoh32_LE; assumption|]).
      lia.
    + discriminate.
    + intros _. cbn [nth]. split; apply betoh32_not32.
  - name_key key Hlen 32. key_bytes. loadKey_eval.
    eexists. split; [reflexivity|]. split; [split; [reflexivity | loadKey_words]|].
    split; [|split].
    + intros i Hi. change (32 / 4)%nat with 8%nat in Hi.
      do 8 (destruct i as [|i];
            [cbn [nth Nat.add Nat.mul]; apply betoh32_LE; assumption|]).
      lia.
    + discriminate.
    + discriminate.
Qed.

(** *** The six rounds with the sigma constants leave KL and KR alone *)

Lemma keepsKey_refl k : words 16 k -> keepsKey k k.
Proof. intros H. split; [exact H | reflexivity]. Qed.

Lemma keepsKey_upd k0 k i v :
  (8 <= i)%nat -> is_word32 v -> keepsKey k0 k -> keepsKey k0 (upd i v k).
Proof.
  intros Hi Hv [Hw Hlow]. split; [apply words_upd; assumption|].
  intros j Hj. rewrite nth_upd_other by lia. apply Hlow, Hj.
Qed.

Lemma keepsKey_xorInto k0 k dst src :
  (8 <= dst < 16)%nat -> (src < 16)%nat -> keepsKey k0 k ->
  exists k', xorInto dst src k = Some k' /\ keepsKey k0 k'.
Proof.
  intros Hd Hs [Hw Hlow]. unfold xorInto.
  destruct (words_read 16 k dst Hw) as [E1 H1]; [lia|].
  destruct (words_read 16 k src Hw Hs) as [E2 H2].
  rewrite E1, E2. cbn [bind]. rewrite (words_store 16) by (assumption || lia).
  eexists; split; [reflexivity|].
  apply keepsKey_upd; [lia | auto with words | split; assumption].
Qed.

Ltac stepKeep k0 Hk :=
  lazymatch goal with
  | |- context [xorInto ?d ?s ?l] =>
      let k' := fresh "k" in
      let E := fresh "E" in
      let Hk' := fresh "Hk" in
      destruct (keepsKey_xorInto k0 l d s) as (k' & E & Hk');
      [ cbv [KL KR KA KB]; cbn [Nat.add]; lia
      | cbv [KL KR KA KB]; cbn [Nat.add]; lia
      | exact Hk
      | rewrite E; clear E; cbn [bind] ]
  end.

Lemma sigmaStep_keepsKey k0 i k :
  (i < 6)%nat -> keepsKey k0 k ->
  exists k', sigmaStep i k = Some k' /\ keepsKey k0 k'.
Proof.
  intros Hi Hk. assert (Hw : words 16 k) by apply Hk. unfold sigmaStep.
  do 4 step16 Hw.
  rewrite !(nth_error_Some_nth sigma _ 0) by (cbn [length sigma]; lia).
  cbn [bind].
  pose proof (CAMELLIA_ROUND_words (nth (KB + 0) k 0) (nth (KB + 1) k 0)
                (nth (KB + 2) k 0) (nth (KB + 3) k 0)
                (nth (2 * i) sigma 0) (nth (2 * i + 1) sigma 0)) as Hr.
  destruct (CAMELLIA_ROUND _ _ _ _ _ _) as [[[a1 a2] a3] a4].
  destruct Hr as (Ha1 & Ha2 & Ha3 & Ha4); [cbn [wordsBlock]; auto|].
  do 4 step16 Hw.
  assert (Hk1 : keepsKey k0 (upd (KB + 3) a4 (upd (KB + 2) a3
                  (upd (KB + 1) a2 (upd (KB + 0) a1 k))))).
  { repeat (apply keepsKey_upd; [cbv; lia | assumption |]). exact Hk. }
  revert Hk1. generalize (upd (KB + 3) a4 (upd (KB + 2) a3
                  (upd (KB + 1) a2 (upd (KB + 0) a1 k)))).
  intros k1 Hk1. assert (Hw1 : words 16 k1) by apply Hk1.
  destruct (i =? 1)%nat; [|destruct (i =? 3)%nat].
  - stepKeep k0 Hk1. stepKeep k0 Hk0. stepKeep k0 Hk2.
    apply keepsKey_xorInto; [cbv; lia | cbv; lia | assumption].
  - do 8 step16 Hw1.
    assert (Hk2 : keepsKey k0
              (upd (KA + 3) (nth (KB + 3) k1 0)
                 (upd (KA + 2) (nth (KB + 2) k1 0)
                    (upd (KA + 1) (nth (KB + 1) k1 0)
                       (upd (KA + 0) (nth (KB + 0) k1 0) k1))))).
    { repeat (apply keepsKey_upd; [cbv; lia | assumption |]). exact Hk1. }
    revert Hk2. generalize (upd (KA + 3) (nth (KB + 3) k1 0)
                 (upd (KA + 2) (nth (KB + 2) k1 0)
                    (upd (KA + 1) (nth (KB + 1) k1 0)
                       (upd (KA + 0) (nth (KB + 0) k1 0) k1)))).
    intros k2 Hk2.
    stepKeep k0 Hk2. stepKeep k0 Hk0. stepKeep k0 Hk3.
    apply keepsKey_xorInto; [cbv; lia | cbv; lia | assumption].
  - eexists; split; [reflexivity | exact Hk1].
Qed.

Lemma sigma_rounds_keepsKey k :
  words 16 k -> exists k', forUp 6 0 sigmaStep k = Some k' /\ keepsKey k k'.
Proof.
  intros Hw.
  destruct (forUp_invariant (fun _ k' => keepsKey k k') 6 0 sigmaStep k
              (keepsKey_refl k Hw)) as (k' & E & Hk').
  - intros i s Hi Hs. apply sigmaStep_keepsKey; [lia | exact Hs].
  - exists k'. auto.
Qed.

End CamelliaKeyMaterial.

(* ================================================================== *)
(** ** Camellia: the subkeys as rotations of the 128-bit banks          *)
(* ================================================================== *)

Section CamelliaRotations.

Import Camellia.

Lemma testbit_bank128 a0 a1 a2 a3 b :
  0 <= b ->
  Z.testbit (bank128 a0 a1 a2 a3) b =
  Z.testbit a0 (b - 96) || Z.testbit a1 (b - 64) || Z.testbit a2 (b - 32)
  || Z.testbit a3 b.
Proof.
  intros Hb. unfold bank128.
  rewrite !Z.lor_spec, !Z.shiftl_spec by lia. reflexivity.
Qed.

(** Remove the bits read outside a word, simplify, compare positions. *)
Ltac kill_bits :=
  repeat match goal with
         | |- context [Z.testbit (bank128 ?a ?b ?c ?d) ?idx] =>
             first [ rewrite (Z.testbit_neg_r (bank128 a b c d) idx) by lia
                   | rewrite (testbit_bank128 a b c d idx) by lia ]
         end;
  repeat match goal with
         | |- context [Z.testbit ?a ?idx] =>
             first [ rewrite (Z.testbit_neg_r a idx) by lia
                   | rewrite (word_testbit_high a idx) by (assumption || lia) ]
         end;
  rewrite ?orb_false_r, ?orb_false_l, ?andb_true_r, ?andb_false_r,
    ?andb_true_l, ?andb_false_l;
  try reflexivity; try (f_equal; lia).

Lemma slice_word a0 a1 a2 a3 (n j : nat) (m : Z) :
  is_word32 a0 -> is_word32 a1 -> is_word32 a2 -> is_word32 a3 ->
  (n < 4)%nat -> (j < 4)%nat -> 0 <= m < 32 ->
  word128 (rotl128 (bank128 a0 a1 a2 a3) (32 * Z.of_nat n + m)) (Z.of_nat j) =
  if m =? 0 then nth ((n + j) mod 4) [a0; a1; a2; a3] 0
  else Z.lor (shl32 (nth ((n + j) mod 4) [a0; a1; a2; a3] 0) m)
             (Z.shiftr (nth ((n + j + 1) mod 4) [a0; a1; a2; a3] 0) (32 - m)).
Proof.
  intros H0 H1 H2 H3 Hn Hj Hm.
  apply Z.bits_inj'; intros i Hi.
  unfold word128, rotl128. change 0xFFFFFFFF with (Z.ones 32).
  rewrite Z.land_spec, Z.shiftr_spec, Z.land_spec, Z.lor_spec,
    Z.shiftl_spec, Z.shiftr_spec, !Z.testbit_ones_nonneg by lia.
  assert (Hn' : (n = 0 \/ n = 1 \/ n = 2 \/ n = 3)%nat) by lia.
  assert (Hj' : (j = 0 \/ j = 1 \/ j = 2 \/ j = 3)%nat) by lia.
  clear Hn Hj.
  destruct Hn' as [-> | [-> | [-> | ->]]];
    destruct Hj' as [-> | [-> | [-> | ->]]];
    cbn [nth Nat.add Nat.modulo Nat.divmod fst snd Nat.sub
         Z.of_nat Pos.of_succ_nat Pos.succ];
    (destruct (Z.eqb_spec m 0) as [-> | Hm0];
     [ | unfold shl32; change 0xFFFFFFFF with (Z.ones 32);
         rewrite Z.lor_spec, Z.land_spec, Z.shiftl_spec, Z.shiftr_spec,
           Z.testbit_ones_nonneg by lia ]);
    destruct (Z.ltb_spec i 32);
    try (destruct (Z.ltb_spec i m));
    repeat match goal with
           | |- context [?a <? ?b] => destruct (Z.ltb_spec a b); try lia
           end;
    kill_bits.
Qed.

End CamelliaRotations.

(* ================================================================== *)
(** ** Camellia: what camelliaInit leaves in the context                *)
(* ================================================================== *)

Section CamelliaSubkeys.

Import Camellia.

Lemma distinctb_NoDup l : distinctb l = true -> NoDup l.
Proof.
  induction l as [|x t IH]; intros H; [constructor|].
  cbn [distinctb] in H. apply andb_prop in H. destruct H as [Hx Ht].
  constructor; [|apply IH, Ht].
  intros Hin. apply negb_true_iff in Hx.
  assert (E : existsb (Nat.eqb x) t = true).
  { apply existsb_exists. exists x. split; [exact Hin | apply Nat.eqb_refl]. }
  congruence.
Qed.

(** One iteration of the subkey loop stores the pair of its entry. *)
Lemma subkeyStep_value kk ks e :
  words 16 kk -> words 68 ks -> entryOk e = true ->
  subkeyStep kk ks e =
  Some (upd (index e + 1) (snd (subkeyPair kk e))
          (upd (index e) (fst (subkeyPair kk e)) ks)).
Proof.
  intros Hk Hs He. unfold entryOk in He.
  apply andb_prop in He. destruct He as [He1 He2].
  apply Nat.leb_le in He1, He2.
  unfold subkeyStep, subkeyPair, funnel. cbv zeta. cbn [fst snd].
  assert (Hrd : forall j, (j < 4)%nat ->
            nth_error (skipn (key e) kk) j = Some (nth j (skipn (key e) kk) 0)).
  { intros j Hj. apply nth_error_Some_nth. rewrite length_skipn.
    destruct Hk as [Hl _]. lia. }
  assert (Hm : forall a, (a mod 4 < 4)%nat)
    by (intros a; apply Nat.mod_upper_bound; lia).
  rewrite !Hrd by apply Hm.
  replace ((shift e + position e) / 32 + 1 + 1)%nat
    with ((shift e + position e) / 32 + 2)%nat by lia.
  destruct ((shift e + position e) mod 32 =? 0)%nat.
  - cbn [bind]. rewrite (words_store 68) by (assumption || lia).
    cbn [bind]. apply store_Some. rewrite length_upd.
    destruct Hs as [Hl _]. lia.
  - cbn [bind]. rewrite (words_store 68) by (assumption || lia).
    cbn [bind]. apply store_Some. rewrite length_upd.
    destruct Hs as [Hl _]. lia.
Qed.

(** The subkey loop over a table with distinct slots: every entry's pair is
    in its slots at the end, and the other slots are as before. *)
Lemma generateSubkeys_values kk p ks :
  words 16 kk -> words 68 ks -> forallb entryOk p = true -> NoDup (slots p) ->
  exists ks',
    generateSubkeys kk p ks = Some ks' /\ words 68 ks' /\
    (forall e, In e p ->
       nth (index e) ks' 0 = fst (subkeyPair kk e) /\
       nth (index e + 1) ks' 0 = snd (subkeyPair kk e)) /\
    (forall j, ~ In j (slots p) -> nth j ks' 0 = nth j ks 0).
Proof.
  intros Hk. unfold generateSubkeys. revert ks.
  induction p as [|e p IH]; intros ks Hs Hp Hnd; cbn [fold_left].
  - exists ks. split; [reflexivity|]. split; [exact Hs|].
    split; [intros e [] | reflexivity].
  - cbn [forallb] in Hp. apply andb_prop in Hp. destruct Hp as [He Hp].
    cbn [slots flat_map app] in Hnd. fold (slots p) in Hnd.
    inversion_clear Hnd as [|? ? Hn1 Hnd']. inversion_clear Hnd' as [|? ? Hn2 Hnd].
    destruct (subkeyStep_words kk ks e Hk Hs He) as (ks1 & E & Hs1).
    cbn [bind]. rewrite E.
    destruct (IH ks1 Hs1 Hp Hnd) as (ks' & E' & Hs' & Hval & Hfr).
    exists ks'. split; [exact E'|]. split; [exact Hs'|].
    rewrite subkeyStep_value in E by assumption. injection E as <-.
    assert (He68 : (index e + 1 < 68)%nat).
    { unfold entryOk in He. apply andb_prop in He. destruct He as [_ He2].
      apply Nat.leb_le in He2. lia. }
    split.
    + intros e' [<- | Hin]; [|apply Hval, Hin].
      rewrite !Hfr by (intros Hc; cbn [In] in Hn1; tauto).
      split.
      * rewrite nth_upd_other by lia. apply nth_upd_same.
        destruct Hs as [Hl _]. lia.
      * apply nth_upd_same. rewrite length_upd. destruct Hs as [Hl _]. lia.
    + intros j Hj. cbn [slots flat_map app In] in Hj. fold (slots p) in Hj.
      rewrite Hfr by tauto.
      rewrite !nth_upd_other by (intros Hc; subst j; tauto). reflexivity.
Qed.

Lemma nth_bank (k : list Z) t :
  (t < 4)%nat ->
  nth t [nth 0 k 0; nth 1 k 0; nth 2 k 0; nth 3 k 0] 0 = nth t k 0.
Proof. intros Ht. do 4 (destruct t as [|t]; [reflexivity|]). lia. Qed.

(** The pair stored for an entry is a pair of consecutive words of the
    bank rotated to the left by the shift of the entry. *)
Lemma funnel_slice (k : list Z) (s j : nat) :
  Forall is_word32 k -> (s < 128)%nat -> (j < 4)%nat ->
  funnel k (s / 32 + j) (s mod 32) =
  word128 (rotl128 (bank128 (nth 0 k 0) (nth 1 k 0) (nth 2 k 0) (nth 3 k 0))
                   (Z.of_nat s)) (Z.of_nat j).
Proof.
  intros Hk Hs Hj.
  assert (Hm : forall a, (a mod 4 < 4)%nat)
    by (intros a; apply Nat.mod_upper_bound; lia).
  pose proof (Nat.mod_upper_bound s 32 ltac:(lia)) as Hm32.
  pose proof (Nat.div_mod_eq s 32) as Hdm.
  assert (Hn : (s / 32 < 4)%nat) by (apply Nat.Div0.div_lt_upper_bound; lia).
  replace (Z.of_nat s) with (32 * Z.of_nat (s / 32) + Z.of_nat (s mod 32)) by lia.
  rewrite slice_word by (try apply is_word32_nth; assumption || lia).
  rewrite !nth_bank by apply Hm.
  unfold funnel.
  destruct (Nat.eqb_spec (s mod 32) 0) as [E | E];
    destruct (Z.eqb_spec (Z.of_nat (s mod 32)) 0) as [E' | E']; try lia;
    reflexivity.
Qed.

Lemma subkeyPair_rotation (kk : list Z) (e : CamelliaSubkey) (j : nat) :
  words 16 kk -> (key e + 4 <= 16)%nat -> (shift e < 128)%nat ->
  position e = (32 * j)%nat -> (j + 1 < 4)%nat ->
  subkeyPair kk e =
  (word128 (rotl128 (bankAt kk (key e)) (Z.of_nat (shift e))) (Z.of_nat j),
   word128 (rotl128 (bankAt kk (key e)) (Z.of_nat (shift e)))
           (Z.of_nat (j + 1))).
Proof.
  intros [Hl Hk] Hkey Hs Hpos Hj. unfold subkeyPair, bankAt. cbv zeta.
  assert (Hsk : Forall is_word32 (skipn (key e) kk)).
  { apply Forall_forall. intros x Hx. rewrite Forall_forall in Hk.
    apply Hk. rewrite <- (firstn_skipn (key e) kk). apply in_or_app. auto. }
  assert (Hn : ((shift e + position e) / 32 = shift e / 32 + j)%nat).
  { rewrite Hpos, (Nat.mul_comm 32 j). apply Nat.div_add. lia. }
  assert (Hm : ((shift e + position e) mod 32 = shift e mod 32)%nat).
  { rewrite Hpos, (Nat.mul_comm 32 j). apply Nat.Div0.mod_add. }
  rewrite Hn, Hm.
  replace (shift e / 32 + j + 1)%nat with (shift e / 32 + (j + 1))%nat by lia.
  rewrite !funnel_slice by (assumption || lia).
  rewrite !nth_skipn.
  replace (key e + 0)%nat with (key e) by lia. reflexivity.
Qed.

Lemma sliceOk_spec e :
  sliceOk e = true ->
  (shift e < 128)%nat /\
  exists j, position e = (32 * j)%nat /\ (j + 1 < 4)%nat /\
            (j = position e / 32)%nat.
Proof.
  unfold sliceOk. intros H. apply andb_prop in H. destruct H as [Hs Hp].
  apply Nat.ltb_lt in Hs. split; [exact Hs|].
  apply orb_prop in Hp. destruct Hp as [Hp | Hp]; apply Nat.eqb_eq in Hp;
    rewrite Hp; [exists 0%nat | exists 2%nat]; repeat split; lia.
Qed.

Lemma tables_ok keyLength :
  forallb entryOk (tableOf keyLength) = true /\
  forallb sliceOk (tableOf keyLength) = true /\
  distinctb (slots (tableOf keyLength)) = true.
Proof.
  unfold tableOf. destruct (keyLength =? 16)%nat; repeat split; vm_compute;
    reflexivity.
Qed.

Lemma loadKey_indep k k' key keyLength :
  length k = 16%nat -> length k' = 16%nat ->
  loadKey k key keyLength = loadKey k' key keyLength.
Proof.
  intros H H'. unfold loadKey, memsetKey. rewrite H, H'.
  rewrite !skipn_all2 by lia. reflexivity.
Qed.

(** camelliaInit on a supported key length, in full. *)
Lemma camelliaInit_values (ctx0 : CamelliaContext) (key : list Z)
  (keyLength n : nat) :
  roundsOfKeyLength keyLength = Some n ->
  wfCamellia ctx0 -> keyBuffer key keyLength ->
  exists ctx k1,
    camelliaInit ctx0 key keyLength = Some (NO_ERROR, ctx) /\
    nr ctx = n /\ wfCamellia ctx /\
    loadKey (repeat 0 16) key keyLength = Some k1 /\
    forUp 6 0 sigmaStep k1 = Some (k ctx) /\
    (forall j, (j < 8)%nat -> nth j (k ctx) 0 = nth j k1 0) /\
    (forall e, In e (tableOf keyLength) ->
       nth (index e) (ks ctx) 0 = fst (subkeyPair (k ctx) e) /\
       nth (index e + 1) (ks ctx) 0 = snd (subkeyPair (k ctx) e)) /\
    (forall j, ~ In j (slots (tableOf keyLength)) ->
       nth j (ks ctx) 0 = nth j (ks ctx0) 0).
Proof.
  intros Hr (Hk & Hkw & Hs & Hsw) Hkey. unfold camelliaInit. rewrite Hr.
  cbn [k ks nr].
  destruct (loadKey_spec (k ctx0) key keyLength n Hr Hk Hkey)
    as (k1 & E1 & Hw1 & _).
  rewrite E1. cbn [bind].
  destruct (sigma_rounds_keepsKey k1 Hw1) as (k2 & E2 & Hw2 & Hlow).
  rewrite E2. cbn [bind].
  destruct (tables_ok keyLength) as (Hok & _ & Hd).
  destruct (generateSubkeys_values k2 (tableOf keyLength) (ks ctx0) Hw2)
    as (ks' & E3 & Hw3 & Hval & Hfr);
    [split; assumption | exact Hok | apply distinctb_NoDup, Hd |].
  unfold tableOf in E3. rewrite E3. cbn [bind].
  exists (mkCamelliaContext n k2 ks'), k1. cbn [nr k ks].
  split; [reflexivity|]. split; [reflexivity|].
  split; [destruct Hw2, Hw3; repeat split; assumption|].
  split; [rewrite <- E1; apply loadKey_indep; [apply repeat_length | exact Hk]|].
  split; [exact E2|]. split; [exact Hlow|]. split; assumption.
Qed.

End CamelliaSubkeys.

(* ================================================================== *)
(** ** AES: the block functions against FIPS-197                        *)
(* ================================================================== *)

Section AesCipher.

Import Aes.

Lemma isbox_fips b : is_byte b -> tbl isbox b = fipsInvSbox b.
Proof.
  intros Hb. apply Z.eqb_eq. revert b Hb.
  apply (byte_forall (fun b => tbl isbox b =? fipsInvSbox b)).
  vm_compute. reflexivity.
Qed.

Lemma rcon_powers i : (1 <= i <= 10)%nat -> nth i rcon 0 = gfPow2 (i - 1).
Proof.
  intros Hi.
  assert (H : forallb (fun i => nth i rcon 0 =? gfPow2 (i - 1)) (seq 1 10) = true)
    by (vm_compute; reflexivity).
  rewrite forallb_forall in H. apply Z.eqb_eq, H, in_seq. lia.
Qed.

Lemma map_sbox_fips s : Forall is_byte s -> map (tbl sbox) s = map fipsSbox s.
Proof.
  intros H. apply map_ext_in. intros a Ha. rewrite Forall_forall in H.
  apply sbox_fips, H, Ha.
Qed.

Lemma map_isbox_fips s :
  Forall is_byte s -> map (tbl isbox) s = map fipsInvSbox s.
Proof.
  intros H. apply map_ext_in. intros a Ha. rewrite Forall_forall in H.
  apply isbox_fips, H, Ha.
Qed.

Lemma encR_fips c i s :
  bytes 16 s -> encR c i s = fipsRound (roundKey c) i s.
Proof.
  intros Hs. unfold encR, fipsRound.
  rewrite mixColumns_fips by (apply shiftRows_bytes, subBytes_bytes, Hs).
  rewrite shiftRows_fips by (apply (proj1 (subBytes_bytes s Hs))).
  rewrite subBytes_map by (apply (proj1 Hs)).
  rewrite map_sbox_fips by (apply (proj2 Hs)). reflexivity.
Qed.

Lemma decR_fips c i s :
  (4 * i + 4 <= length (w c))%nat -> bytes 16 s ->
  decR c i s = fipsInvRound (roundKey c) i s.
Proof.
  intros Hi Hs. unfold decR, fipsInvRound.
  pose proof (invShiftRows_bytes s Hs) as H1.
  rewrite invMixColumns_fips
    by (apply xorBytes_bytes;
        [apply invSubBytes_bytes, H1 | apply roundKey_bytes, Hi]).
  rewrite invSubBytes_map by (apply (proj1 H1)).
  rewrite map_isbox_fips by (apply (proj2 H1)).
  rewrite invShiftRows_fips by (apply (proj1 Hs)). reflexivity.
Qed.

Lemma encLoop_fips c n s :
  (4 * n + 4 <= length (w c))%nat -> bytes 16 s ->
  encLoop c n s = iterUp (fipsRound (roundKey c)) n s.
Proof.
  intros Hn Hs. induction n as [|n IH]; [reflexivity|].
  rewrite encLoop_S, iterUp_S, <- IH by lia.
  apply encR_fips, encLoop_bytes; [lia | exact Hs].
Qed.

Lemma decLoop_fips c n s :
  (4 * n + 4 <= length (w c))%nat -> bytes 16 s ->
  decLoop c n s = iterDown (fipsInvRound (roundKey c)) n s.
Proof.
  revert s. induction n as [|n IH]; intros s Hn Hs; [reflexivity|].
  rewrite decLoop_S, iterDown_S, <- decR_fips by (assumption || lia).
  apply IH; [lia | apply decR_bytes; [lia | exact Hs]].
Qed.

Lemma aesEncryptBlock_fips c p :
  (1 <= nr c)%nat -> (4 * nr c + 4 <= length (w c))%nat -> bytes 16 p ->
  aesEncryptBlock c p = Some (c, fipsCipher (roundKey c) (nr c) p).
Proof.
  intros Hnr Hw Hp. rewrite aesEncryptBlock_spec by assumption.
  assert (H0 : bytes 16 (xorBytes p (roundKey c 0))).
  { apply xorBytes_bytes; [exact Hp | apply roundKey_bytes; lia]. }
  assert (H1 : bytes 16 (encLoop c (nr c - 1) (xorBytes p (roundKey c 0)))).
  { apply encLoop_bytes; [lia | exact H0]. }
  unfold fipsCipher.
  rewrite <- encLoop_fips by (exact H0 || lia).
  rewrite shiftRows_fips by (apply (proj1 (subBytes_bytes _ H1))).
  rewrite subBytes_map by (apply (proj1 H1)).
  rewrite map_sbox_fips by (apply (proj2 H1)). reflexivity.
Qed.

Lemma aesDecryptBlock_fips c p :
  (1 <= nr c)%nat -> (4 * nr c + 4 <= length (w c))%nat -> bytes 16 p ->
  aesDecryptBlock c p = Some (c, fipsInvCipher (roundKey c) (nr c) p).
Proof.
  intros Hnr Hw Hp. rewrite aesDecryptBlock_spec by assumption.
  assert (H0 : bytes 16 (xorBytes p (roundKey c (nr c)))).
  { apply xorBytes_bytes; [exact Hp | apply roundKey_bytes; lia]. }
  assert (H1 : bytes 16 (decLoop c (nr c - 1) (xorBytes p (roundKey c (nr c))))).
  { apply decLoop_bytes; [lia | exact H0]. }
  pose proof (invShiftRows_bytes _ H1) as H2.
  unfold fipsInvCipher.
  rewrite <- decLoop_fips by (exact H0 || lia).
  rewrite invSubBytes_map by (apply (proj1 H2)).
  rewrite map_isbox_fips by (apply (proj2 H2)).
  rewrite invShiftRows_fips by (apply (proj1 H1)). reflexivity.
Qed.

(** Two runs of aesInit with the same key, on any two contexts. *)
Lemma aesInit_independent (ca0 cb0 : AesContext) (key : list Z)
  (keyLength n : nat) :
  roundsOfKeyLength keyLength = Some n ->
  wfAes ca0 -> wfAes cb0 -> keyBuffer key keyLength ->
  exists ca cb,
    aesInit ca0 key keyLength = Some (NO_ERROR, ca) /\
    aesInit cb0 key keyLength = Some (NO_ERROR, cb) /\
    nr ca = n /\ nr cb = n /\
    length (w ca) = 60%nat /\ length (w cb) = 60%nat /\
    (forall i, (i < 4 * (n + 1))%nat -> nth i (w ca) 0 = nth i (w cb) 0) /\
    (forall i, (i <= n)%nat -> roundKey ca i = roundKey cb i).
Proof.
  intros Hr [Hla _] [Hlb _] [Hk _].
  assert (Hcases := proj1 (roundsOfKeyLength_Some _ _) Hr).
  assert (HNk : (1 <= keyLength / 4 /\ 4 * (n + 1) <= 60)%nat).
  { destruct Hcases as [[-> ->]|[[-> ->]|[-> ->]]]; cbn; lia. }
  destruct HNk as [HNk HN].
  destruct (aesInit_spec ca0 key keyLength n Hr) as (ca & Ea & Hna & Hwa & Hlo_a & Hrec_a);
    [lia | exact Hk |].
  destruct (aesInit_spec cb0 key keyLength n Hr) as (cb & Eb & Hnb & Hwb & Hlo_b & Hrec_b);
    [lia | exact Hk |].
  exists ca, cb.
  assert (Hagree : forall i, (i < 4 * (n + 1))%nat ->
            nth i (w ca) 0 = nth i (w cb) 0).
  { apply (schedule_determined (keyLength / 4) (4 * (n + 1)) key);
      [exact HNk | | exact Hrec_a | exact Hrec_b].
    intros j Hj. rewrite Hlo_a, Hlo_b by exact Hj. reflexivity. }
  repeat (split; [first [assumption | congruence]|]).
  intros i Hi. apply (roundKey_determined ca cb (4 * (n + 1))); try lia.
  exact Hagree.
Qed.

Lemma aes_blocks_determined (ca cb : AesContext) (p : list Z) :
  (1 <= nr ca)%nat -> nr ca = nr cb ->
  (4 * nr ca + 4 <= length (w ca))%nat ->
  (4 * nr ca + 4 <= length (w cb))%nat ->
  (forall i, (i <= nr ca)%nat -> roundKey ca i = roundKey cb i) ->
  bytes 16 p ->
  exists ct pt,
    aesEncryptBlock ca p = Some (ca, ct) /\
    aesEncryptBlock cb p = Some (cb, ct) /\
    aesDecryptBlock ca p = Some (ca, pt) /\
    aesDecryptBlock cb p = Some (cb, pt).
Proof.
  intros Hnr Hn Hwa Hwb Hrk Hp.
  rewrite (aesEncryptBlock_spec ca), (aesEncryptBlock_spec cb),
    (aesDecryptBlock_spec ca), (aesDecryptBlock_spec cb)
    by (assumption || lia).
  rewrite <- Hn.
  rewrite (encLoop_determined ca cb) by (intros; apply Hrk; lia).
  rewrite (decLoop_determined ca cb) by (intros; apply Hrk; lia).
  rewrite (Hrk 0%nat), (Hrk (nr ca)) by lia.
  eexists. eexists. repeat split; reflexivity.
Qed.

Lemma aes_encrypt_injective c p q cp cq ct :
  (1 <= nr c)%nat -> (4 * nr c + 4 <= length (w c))%nat ->
  bytes 16 p -> bytes 16 q ->
  aesEncryptBlock c p = Some (cp, ct) -> aesEncryptBlock c q = Some (cq, ct) ->
  p = q.
Proof.
  intros Hnr Hw Hp Hq Ep Eq.
  destruct (aes_decrypt_encrypt c p Hnr Hw Hp) as (ct1 & E1 & _ & D1).
  destruct (aes_decrypt_encrypt c q Hnr Hw Hq) as (ct2 & E2 & _ & D2).
  rewrite E1 in Ep. rewrite E2 in Eq.
  injection Ep as _ ->. injection Eq as _ ->. congruence.
Qed.

End AesCipher.

(* ================================================================== *)
(** ** Camellia: the context after camelliaInit and the block functions *)
(* ================================================================== *)

Section CamelliaContextFacts.

Import Camellia.

Lemma slots_range keyLength j :
  In j (slots (tableOf keyLength)) <-> (j < subkeyWords keyLength)%nat.
Proof.
  unfold tableOf, subkeyWords. destruct (keyLength =? 16)%nat.
  - split.
    + intros Hin.
      assert (H : forallb (fun j => j <? 52)%nat (slots ks1) = true)
        by (vm_compute; reflexivity).
      rewrite forallb_forall in H. apply Nat.ltb_lt, H, Hin.
    + intros Hj.
      assert (H : forallb (fun j => existsb (Nat.eqb j) (slots ks1)) (seq 0 52)
                  = true) by (vm_compute; reflexivity).
      rewrite forallb_forall in H.
      specialize (H j ltac:(apply in_seq; lia)).
      apply existsb_exists in H. destruct H as (x & Hx & E).
      apply Nat.eqb_eq in E. subst x. exact Hx.
  - split.
    + intros Hin.
      assert (H : forallb (fun j => j <? 68)%nat (slots ks2) = true)
        by (vm_compute; reflexivity).
      rewrite forallb_forall in H. apply Nat.ltb_lt, H, Hin.
    + intros Hj.
      assert (H : forallb (fun j => existsb (Nat.eqb j) (slots ks2)) (seq 0 68)
                  = true) by (vm_compute; reflexivity).
      rewrite forallb_forall in H.
      specialize (H j ltac:(apply in_seq; lia)).
      apply existsb_exists in H. destruct H as (x & Hx & E).
      apply Nat.eqb_eq in E. subst x. exact Hx.
Qed.

Lemma in_slots p e :
  In e p -> In (index e) (slots p) /\ In (index e + 1)%nat (slots p).
Proof.
  intros He. unfold slots. split; apply in_flat_map; exists e;
    (split; [exact He | cbn; auto]).
Qed.

Lemma slot_of p j :
  In j (slots p) ->
  exists e, In e p /\ (j = index e \/ j = (index e + 1)%nat).
Proof.
  unfold slots. intros H. apply in_flat_map in H. destruct H as (e & He & Hj).
  exists e. split; [exact He|]. cbn in Hj. intuition.
Qed.

(** Two runs of camelliaInit with the same key, on any two contexts. *)
Lemma camelliaInit_independent (ca0 cb0 : CamelliaContext) (key : list Z)
  (keyLength n : nat) :
  roundsOfKeyLength keyLength = Some n ->
  wfCamellia ca0 -> wfCamellia cb0 -> keyBuffer key keyLength ->
  exists ca cb,
    camelliaInit ca0 key keyLength = Some (NO_ERROR, ca) /\
    camelliaInit cb0 key keyLength = Some (NO_ERROR, cb) /\
    nr ca = n /\ nr cb = n /\ wfCamellia ca /\ wfCamellia cb /\
    k ca = k cb /\
    (forall j, (j < subkeyWords keyLength)%nat ->
       nth j (ks ca) 0 = nth j (ks cb) 0) /\
    (forall j, (subkeyWords keyLength <= j)%nat ->
       nth j (ks ca) 0 = nth j (ks ca0) 0 /\ nth j (ks cb) 0 = nth j (ks cb0) 0).
Proof.
  intros Hr Ha Hb Hkey.
  destruct (camelliaInit_values ca0 key keyLength n Hr Ha Hkey)
    as (ca & k1 & Ea & Hna & Hwa & El & Es & _ & Hva & Hfa).
  destruct (camelliaInit_values cb0 key keyLength n Hr Hb Hkey)
    as (cb & k1' & Eb & Hnb & Hwb & El' & Es' & _ & Hvb & Hfb).
  exists ca, cb.
  assert (Hk : k ca = k cb) by congruence.
  repeat (split; [assumption|]).
  split.
  - intros j Hj. apply slots_range, slot_of in Hj.
    destruct Hj as (e & He & [-> | ->]).
    + rewrite (proj1 (Hva e He)), (proj1 (Hvb e He)), Hk. reflexivity.
    + rewrite (proj2 (Hva e He)), (proj2 (Hvb e He)), Hk. reflexivity.
  - intros j Hj.
    assert (Hn : ~ In j (slots (tableOf keyLength)))
      by (rewrite slots_range; lia).
    split; [apply Hfa, Hn | apply Hfb, Hn].
Qed.

(** The operations read the subkey words they point to, and no others. *)
Lemma applyOp_agree (N : nat) (ksa ksb : list Z) o b :
  (forall j, (j < N)%nat -> nth j ksa 0 = nth j ksb 0) ->
  opBelow N o = true -> applyOp ksa o b = applyOp ksb o b.
Proof.
  intros H Ho. destruct b as [[[l1 l2] r1] r2].
  destruct o as [p | p]; cbn [opBelow] in Ho; apply Nat.leb_le in Ho;
    cbn [applyOp]; rewrite ?(H p), ?(H (p + 1)%nat), ?(H (p + 2)%nat),
      ?(H (p + 3)%nat) by lia; reflexivity.
Qed.

Lemma undoOp_agree (N : nat) (ksa ksb : list Z) o b :
  (forall j, (j < N)%nat -> nth j ksa 0 = nth j ksb 0) ->
  opBelow N o = true -> undoOp ksa o b = undoOp ksb o b.
Proof.
  intros H Ho. destruct b as [[[l1 l2] r1] r2].
  destruct o as [p | p]; cbn [opBelow] in Ho; apply Nat.leb_le in Ho;
    cbn [undoOp]; rewrite ?(H p), ?(H (p + 1)%nat), ?(H (p + 2)%nat),
      ?(H (p + 3)%nat) by lia; reflexivity.
Qed.

Lemma applyOps_agree (N : nat) (ksa ksb : list Z) l b :
  (forall j, (j < N)%nat -> nth j ksa 0 = nth j ksb 0) ->
  forallb (opBelow N) l = true -> applyOps ksa l b = applyOps ksb l b.
Proof.
  intros H. unfold applyOps. revert b.
  induction l as [|o l IH]; intros b Hl; [reflexivity|].
  cbn [forallb] in Hl. apply andb_prop in Hl. destruct Hl as [Ho Hl].
  cbn [fold_left]. rewrite (applyOp_agree N ksa ksb) by assumption.
  apply IH, Hl.
Qed.

Lemma undoOps_agree (N : nat) (ksa ksb : list Z) l b :
  (forall j, (j < N)%nat -> nth j ksa 0 = nth j ksb 0) ->
  forallb (opBelow N) l = true -> undoOps ksa l b = undoOps ksb l b.
Proof.
  intros H. unfold undoOps. revert b.
  induction l as [|o l IH]; intros b Hl; [reflexivity|].
  cbn [forallb] in Hl. apply andb_prop in Hl. destruct Hl as [Ho Hl].
  cbn [fold_left]. rewrite (undoOp_agree N ksa ksb) by assumption.
  apply IH, Hl.
Qed.

Lemma whiten_agree (N : nat) (ksa ksb : list Z) p b :
  (forall j, (j < N)%nat -> nth j ksa 0 = nth j ksb 0) ->
  (p + 4 <= N)%nat -> whiten ksa p b = whiten ksb p b.
Proof.
  intros H Hp. destruct b as [[[l1 l2] r1] r2]. cbn [whiten].
  rewrite (H p), (H (p + 1)%nat), (H (p + 2)%nat), (H (p + 3)%nat) by lia.
  reflexivity.
Qed.

(** The block functions read the first [advance nr + 8] subkey words only. *)
Lemma camellia_blocks_determined (ca cb : CamelliaContext) (p : list Z) :
  nr ca = 18%nat \/ nr ca = 24%nat -> nr cb = nr ca ->
  words 68 (ks ca) -> words 68 (ks cb) ->
  (forall j, (j < advance (nr ca) + 8)%nat ->
     nth j (ks ca) 0 = nth j (ks cb) 0) ->
  bytes 16 p ->
  exists ct pt,
    camelliaEncryptBlock ca p = Some (ca, ct) /\
    camelliaEncryptBlock cb p = Some (cb, ct) /\
    camelliaDecryptBlock ca p = Some (ca, pt) /\
    camelliaDecryptBlock cb p = Some (cb, pt).
Proof.
  intros Hnr Hn [Hla _] [Hlb _] Hag Hp.
  destruct (camellia_pointers (nr ca) Hnr) as [Hadv Hops].
  assert (Hbelow : forallb (opBelow (advance (nr ca) + 8)) (encOps (nr ca) 4)
                   = true /\
                   forallb (opBelow (advance (nr ca) + 8))
                     (decOps (nr ca) (if (nr ca =? 18)%nat then 48 else 64)%nat)
                   = true).
  { destruct Hnr as [-> | ->]; split; vm_compute; reflexivity. }
  destruct Hbelow as [Hbe Hbd].
  rewrite (camelliaEncryptBlock_spec ca), (camelliaEncryptBlock_spec cb);
    [ | rewrite Hn, Hlb; destruct Hnr as [-> | ->]; cbn; lia | exact Hp
      | rewrite Hla; destruct Hnr as [-> | ->]; cbn; lia | exact Hp ].
  rewrite (camelliaDecryptBlock_spec ca), (camelliaDecryptBlock_spec cb);
    [ | rewrite Hn, Hlb; destruct Hnr as [-> | ->]; cbn; lia
      | rewrite Hn; destruct Hnr as [-> | ->]; cbn; lia | exact Hp
      | rewrite Hla; destruct Hnr as [-> | ->]; cbn; lia
      | destruct Hnr as [-> | ->]; cbn; lia | exact Hp ].
  rewrite Hn.
  set (P := (if (nr ca =? 18)%nat then 48 else 64)%nat) in *.
  assert (HP : (P + 4 = advance (nr ca) + 8)%nat).
  { unfold P. destruct Hnr as [-> | ->]; reflexivity. }
  rewrite (whiten_agree _ (ks ca) (ks cb) 0 _ Hag) by lia.
  rewrite (applyOps_agree _ (ks ca) (ks cb) _ _ Hag Hbe).
  rewrite (whiten_agree _ (ks ca) (ks cb) (4 + advance (nr ca)) _ Hag) by lia.
  rewrite (whiten_agree _ (ks ca) (ks cb) P _ Hag) by lia.
  rewrite (undoOps_agree _ (ks ca) (ks cb) _ _ Hag Hbd).
  rewrite (whiten_agree _ (ks ca) (ks cb) (P - advance (nr ca) - 4) _ Hag) by lia.
  eexists. eexists. repeat split; reflexivity.
Qed.

Lemma camellia_encrypt_injective c p q cp cq ct :
  nr c = 18%nat \/ nr c = 24%nat -> words 68 (ks c) ->
  bytes 16 p -> bytes 16 q ->
  camelliaEncryptBlock c p = Some (cp, ct) ->
  camelliaEncryptBlock c q = Some (cq, ct) -> p = q.
Proof.
  intros Hnr Hw Hp Hq Ep Eq.
  destruct (camellia_decrypt_encrypt c p Hnr Hw Hp) as (ct1 & E1 & _ & D1).
  destruct (camellia_decrypt_encrypt c q Hnr Hw Hq) as (ct2 & E2 & _ & D2).
  rewrite E1 in Ep. rewrite E2 in Eq.
  injection Ep as _ ->. injection Eq as _ ->. congruence.
Qed.

End CamelliaContextFacts.

(* ================================================================== *)
(** ** AES: the key expansion against FIPS-197, 5.2                     *)
(* ================================================================== *)

Section AesKeyExpansion.

Import Aes.

Lemma LOAD32LE_low b : LOAD32LE b 0 0 0 = b.
Proof. unfold LOAD32LE. rewrite !Z.shiftl_0_l, !Z.lor_0_r. reflexivity. Qed.

Lemma gfPow2_is_byte j : (j < 10)%nat -> is_byte (gfPow2 j).
Proof.
  intros Hj.
  assert (H : forallb (fun j => is_byteb (gfPow2 j)) (seq 0 10) = true)
    by (vm_compute; reflexivity).
  rewrite forallb_forall in H. apply is_byteb_spec, H, in_seq. lia.
Qed.

Lemma hostWord_STORE32LE t : is_word32 t -> hostWord (STORE32LE t) = t.
Proof.
  intros Ht. unfold hostWord, STORE32LE. cbn [nth].
  apply LOAD32LE_byteOf, Ht.
Qed.

Lemma subWord_fips t :
  is_word32 t -> subWord t = hostWord (fipsSubWord (STORE32LE t)).
Proof.
  intros Ht. rewrite <- (LOAD32LE_byteOf t Ht) at 1.
  rewrite subWord_LE by apply is_byte_byteOf.
  rewrite !sbox_fips by apply is_byte_byteOf.
  unfold hostWord, fipsSubWord, STORE32LE. cbn [map nth]. reflexivity.
Qed.

Lemma subWord_rotWord_rcon_fips t j :
  is_word32 t -> (1 <= j <= 10)%nat ->
  Z.lxor (subWord (rotWord t)) (nth j rcon 0) =
  hostWord (xorBytes (fipsSubWord (fipsRotWord (STORE32LE t))) (fipsRcon j)).
Proof.
  intros Ht Hj. rewrite <- (LOAD32LE_byteOf t Ht) at 1.
  rewrite rotWord_LE, subWord_LE by apply is_byte_byteOf.
  rewrite !sbox_fips by apply is_byte_byteOf.
  rewrite (rcon_powers j Hj), <- (LOAD32LE_low (gfPow2 (j - 1))).
  assert (Hb : forall b, is_byte b -> is_byte (fipsSbox b)).
  { intros b Hb. rewrite <- sbox_fips by exact Hb. apply sbox_is_byte. }
  rewrite LOAD32LE_lxor;
    try (apply Hb, is_byte_byteOf); try apply is_byte_0;
    [ | apply gfPow2_is_byte; lia ].
  unfold hostWord, fipsSubWord, fipsRotWord, fipsRcon, STORE32LE.
  cbn [app map xorBytes nth]. reflexivity.
Qed.

(** The word the loop of aesInit adds to w[i - Nk] is the one of the
    standard, computed on the bytes of w[i - 1]. *)
Lemma expansionWord_fips Nk i t :
  is_word32 t -> ((i mod Nk = 0)%nat -> (1 <= i / Nk <= 10)%nat) ->
  expansionWord Nk i t = hostWord (fipsExpansionWord Nk i (STORE32LE t)).
Proof.
  intros Ht Hj. unfold expansionWord, fipsExpansionWord.
  destruct (Nat.eqb_spec (i mod Nk) 0) as [E | _].
  - apply subWord_rotWord_rcon_fips; [exact Ht | apply Hj, E].
  - destruct ((6 <? Nk)%nat && (i mod Nk =? 4)%nat).
    + apply subWord_fips, Ht.
    + symmetry. apply hostWord_STORE32LE, Ht.
Qed.

End AesKeyExpansion.

(** C5. For every accepted AES key of 16, 24 or 32 bytes aesInit succeeds
    and afterwards: nr is 10, 12 or 14; the first keyLength/4 words of w are
    the key bytes loaded as host-endian words; and every later word of the
    schedule satisfies w[i] = w[i - Nk] xor t, where t is obtained from the
    bytes of w[i - 1] by the rule of FIPS-197, 5.2: SubWord(RotWord(.)) xor
    Rcon[i/Nk] when i mod Nk = 0, SubWord(.) when Nk > 6 and i mod Nk = 4,
    unchanged otherwise; with RotWord the rotation of the four bytes,
    SubWord the S-box of the standard on each byte, and Rcon[j] the word of
    the bytes {02}^(j-1), 0, 0, 0. *)
Theorem aes_key_expansion
  (ctx0 : Aes.AesContext) (key : list Z) (keyLength : nat) :
  (keyLength = 16 \/ keyLength = 24 \/ keyLength = 32)%nat ->
  keyBuffer key keyLength -> wfAes ctx0 ->
  exists ctx,
    Aes.aesInit ctx0 key keyLength = Some (NO_ERROR, ctx) /\
    Aes.nr ctx = (if (keyLength =? 16)%nat then 10
                  else if (keyLength =? 24)%nat then 12 else 14)%nat /\
    (forall j, (j < keyLength / 4)%nat ->
       nth j (Aes.w ctx) 0 =
       LOAD32LE (nth (4 * j) key 0) (nth (4 * j + 1) key 0)
                (nth (4 * j + 2) key 0) (nth (4 * j + 3) key 0)) /\
    (forall i, (keyLength / 4 <= i < 4 * (Aes.nr ctx + 1))%nat ->
       nth i (Aes.w ctx) 0 =
       Z.lxor (nth (i - keyLength / 4) (Aes.w ctx) 0)
              (hostWord
                 (fipsExpansionWord (keyLength / 4) i
                    (STORE32LE (nth (i - 1) (Aes.w ctx) 0))))).
Proof.
  intros Hlen Hkey Hwf.
  assert (Hr : exists n, Aes.roundsOfKeyLength keyLength = Some n /\
                 (n <= 14)%nat /\
                 n = (if (keyLength =? 16)%nat then 10
                      else if (keyLength =? 24)%nat then 12 else 14)%nat).
  { destruct Hlen as [-> | [-> | ->]]; eexists;
      (split; [reflexivity | split; [|reflexivity]; lia]). }
  destruct Hr as (n & Hr & Hn & Hn').
  destruct (aesInit_shape ctx0 key keyLength n Hr Hwf Hkey)
    as (ctx & E & Hnr & [_ Hwords] & _).
  destruct (aesInit_spec ctx0 key keyLength n Hr)
    as (ctx' & E' & _ & _ & Hkeyw & Hrec);
    [destruct Hwf as [Hl _]; lia | apply Hkey |].
  assert (Ec : ctx' = ctx) by congruence. subst ctx'.
  exists ctx. split; [exact E|]. split; [congruence|].
  split; [exact Hkeyw|]. rewrite Hnr.
  intros i Hi. rewrite (Hrec i Hi). f_equal.
  apply expansionWord_fips; [apply is_word32_nth, Hwords|].
  intros Hm. apply (rcon_index_bound keyLength n i Hr Hi Hm).
Qed.

(** The key expansion of the FIPS-197 256-bit key. *)
Lemma aes_key_expansion_witness :
  (32 = 16 \/ 32 = 24 \/ 32 = 32)%nat /\
  keyBuffer aesKey256 32 /\ wfAes freshAes /\
  exists ctx,
    Aes.aesInit freshAes aesKey256 32 = Some (NO_ERROR, ctx) /\
    Aes.nr ctx = 14%nat /\
    (forall j, (j < 32 / 4)%nat ->
       nth j (Aes.w ctx) 0 =
       LOAD32LE (nth (4 * j) aesKey256 0) (nth (4 * j + 1) aesKey256 0)
                (nth (4 * j + 2) aesKey256 0) (nth (4 * j + 3) aesKey256 0)) /\
    (forall i, (32 / 4 <= i < 4 * (Aes.nr ctx + 1))%nat ->
       nth i (Aes.w ctx) 0 =
       Z.lxor (nth (i - 32 / 4) (Aes.w ctx) 0)
              (hostWord
                 (fipsExpansionWord (32 / 4) i
                    (STORE32LE (nth (i - 1) (Aes.w ctx) 0))))).
Proof.
  assert (H1 : (32 = 16 \/ 32 = 24 \/ 32 = 32)%nat) by (right; right; reflexivity).
  assert (H2 : keyBuffer aesKey256 32) by concrete_keyBuffer.
  assert (H3 : wfAes freshAes) by concrete_wfAes.
  split; [exact H1|]. split; [exact H2|]. split; [exact H3|].
  exact (aes_key_expansion freshAes aesKey256 32 H1 H2 H3).
Defined.

(* ================================================================== *)
(** ** Further properties of the code                                   *)
(* ================================================================== *)

(** *** AES (aes.c) *)

(** X1. The table sbox is the S-box of FIPS-197, 5.1.1: the affine
    transformation of the multiplicative inverse in GF(2^8); the table isbox
    is the inverse S-box of 5.3.2; and each table undoes the other on every
    byte. *)
Theorem aes_sbox_tables (b : Z) :
  is_byte b ->
  tbl Aes.sbox b = fipsSbox b /\
  tbl Aes.isbox b = fipsInvSbox b /\
  tbl Aes.isbox (tbl Aes.sbox b) = b /\
  tbl Aes.sbox (tbl Aes.isbox b) = b.
Proof.
  intros Hb. split; [apply sbox_fips, Hb|]. split; [apply isbox_fips, Hb|].
  split; [apply isbox_sbox, Hb | apply sbox_isbox, Hb].
Qed.

(** X2. The table mul2 is the multiplication by x of FIPS-197, 4.2.1
    (xtime), which is the product by {02} in GF(2^8); and rcon[i], for
    i = 1..10, is the power {02}^(i-1), held in the low byte of the word. *)
Theorem aes_mul2_rcon_tables (b : Z) (i : nat) :
  is_byte b -> (1 <= i <= 10)%nat ->
  tbl Aes.mul2 b = xtime b /\
  tbl Aes.mul2 b = gfMul 2 b /\
  nth i Aes.rcon 0 = gfPow2 (i - 1).
Proof.
  intros Hb Hi. split; [apply mul2_xtime, Hb|].
  split; [apply mul2_gfMul, Hb | apply rcon_powers, Hi].
Qed.

(** X3. subBytes and invSubBytes replace every byte of the state by its
    image in sbox, respectively isbox, and each undoes the other. *)
Theorem aes_subBytes_bytewise (s : list Z) :
  bytes 16 s ->
  Aes.subBytes s = map (tbl Aes.sbox) s /\
  Aes.invSubBytes s = map (tbl Aes.isbox) s /\
  Aes.invSubBytes (Aes.subBytes s) = s /\
  Aes.subBytes (Aes.invSubBytes s) = s.
Proof.
  intros Hs. split; [apply subBytes_map, Hs|].
  split; [apply invSubBytes_map, Hs|].
  split; [apply invSubBytes_subBytes, Hs | apply subBytes_invSubBytes, Hs].
Qed.

(** X4. The sequence of assignments of shiftRows is the ShiftRows of
    FIPS-197, 5.1.2: byte r of column c comes from column c + r (mod 4) of
    the same row; invShiftRows takes it from column c - r; and each undoes
    the other. *)
Theorem aes_shiftRows_rows (s : list Z) :
  length s = 16%nat ->
  Aes.shiftRows s = fipsShiftRows s /\
  Aes.invShiftRows s = fipsInvShiftRows s /\
  Aes.invShiftRows (Aes.shiftRows s) = s /\
  Aes.shiftRows (Aes.invShiftRows s) = s.
Proof.
  intros Hs. split; [apply shiftRows_fips, Hs|].
  split; [apply invShiftRows_fips, Hs|].
  split; [apply invShiftRows_shiftRows, Hs | apply shiftRows_invShiftRows, Hs].
Qed.

(** X5. mixColumns, written with the table mul2 and exclusive ors, is the
    product of every column by the matrix {02 03 01 01} of FIPS-197, 5.1.3,
    in GF(2^8); invMixColumns is the product by {0e 0b 0d 09} of 5.3.3. *)
Theorem aes_mixColumns_matrix (s : list Z) :
  bytes 16 s ->
  Aes.mixColumns s = onColumns fipsMixColumn s /\
  Aes.invMixColumns s = onColumns fipsInvMixColumn s.
Proof.
  intros Hs. split; [apply mixColumns_fips, Hs | apply invMixColumns_fips, Hs].
Qed.

(** X6. addRoundKey, which works on the state as four words, is the
    exclusive or of the sixteen state bytes with the bytes of the four key
    words in memory order; it never faults when four key words are there,
    and a second application with the same key restores the state. *)
Theorem aes_addRoundKey_xor (s k : list Z) :
  bytes 16 s -> (4 <= length k)%nat ->
  Aes.addRoundKey s k = Some (xorBytes s (keyBytes k)) /\
  bytes 16 (xorBytes s (keyBytes k)) /\
  Aes.addRoundKey (xorBytes s (keyBytes k)) k = Some s.
Proof.
  intros Hs Hk.
  assert (Hx : bytes 16 (xorBytes s (keyBytes k))).
  { apply xorBytes_bytes; [exact Hs | apply keyBytes_bytes, Hk]. }
  split; [apply addRoundKey_spec; assumption|]. split; [exact Hx|].
  rewrite addRoundKey_spec by assumption.
  rewrite xorBytes_involutive;
    [reflexivity | apply Hs | apply (keyBytes_bytes k Hk)].
Qed.

(** X7. On a word held in memory as the bytes b0 b1 b2 b3, rotWord yields
    the word of the bytes b1 b2 b3 b0 and subWord the word of the S-box
    images of the four bytes; the two commute. *)
Theorem aes_rotWord_subWord_bytes (b0 b1 b2 b3 : Z) :
  is_byte b0 -> is_byte b1 -> is_byte b2 -> is_byte b3 ->
  Aes.rotWord (LOAD32LE b0 b1 b2 b3) = LOAD32LE b1 b2 b3 b0 /\
  Aes.subWord (LOAD32LE b0 b1 b2 b3) =
    LOAD32LE (tbl Aes.sbox b0) (tbl Aes.sbox b1)
             (tbl Aes.sbox b2) (tbl Aes.sbox b3) /\
  Aes.subWord (Aes.rotWord (LOAD32LE b0 b1 b2 b3)) =
    Aes.rotWord (Aes.subWord (LOAD32LE b0 b1 b2 b3)).
Proof.
  intros H0 H1 H2 H3.
  split; [apply rotWord_LE; assumption|].
  split; [apply subWord_LE; assumption|].
  rewrite rotWord_LE, !subWord_LE, rotWord_LE
    by (assumption || apply sbox_is_byte).
  reflexivity.
Qed.

(** X8. aesInit on a supported key length keeps the schedule an array of
    60 words of 32 bits and leaves the words from 4 (nr + 1) on as they
    were. *)
Theorem aesInit_keeps_shape
  (ctx0 : Aes.AesContext) (key : list Z) (keyLength n : nat) :
  Aes.roundsOfKeyLength keyLength = Some n ->
  wfAes ctx0 -> keyBuffer key keyLength ->
  exists ctx,
    Aes.aesInit ctx0 key keyLength = Some (NO_ERROR, ctx) /\
    Aes.nr ctx = n /\ wfAes ctx /\
    (forall j, (4 * (n + 1) <= j)%nat ->
       nth j (Aes.w ctx) 0 = nth j (Aes.w ctx0) 0).
Proof. exact (aesInit_shape ctx0 key keyLength n). Qed.

(** X9. What aesInit leaves in the first 4 (nr + 1) words of the schedule
    depends on the key only, not on the previous contents of the context:
    after aesInit with the same key on two contexts, the number of rounds
    and these words agree, and the block functions give the same
    output on every block. *)
Theorem aesInit_ignores_old_schedule
  (ca0 cb0 : Aes.AesContext) (key : list Z) (keyLength n : nat) :
  Aes.roundsOfKeyLength keyLength = Some n ->
  wfAes ca0 -> wfAes cb0 -> keyBuffer key keyLength ->
  exists ca cb,
    Aes.aesInit ca0 key keyLength = Some (NO_ERROR, ca) /\
    Aes.aesInit cb0 key keyLength = Some (NO_ERROR, cb) /\
    Aes.nr ca = Aes.nr cb /\
    (forall i, (i < 4 * (n + 1))%nat ->
       nth i (Aes.w ca) 0 = nth i (Aes.w cb) 0) /\
    forall p, bytes 16 p ->
      exists ct pt,
        Aes.aesEncryptBlock ca p = Some (ca, ct) /\
        Aes.aesEncryptBlock cb p = Some (cb, ct) /\
        Aes.aesDecryptBlock ca p = Some (ca, pt) /\
        Aes.aesDecryptBlock cb p = Some (cb, pt).
Proof.
  intros Hr Ha Hb Hk.
  destruct (aesInit_independent ca0 cb0 key keyLength n Hr Ha Hb Hk)
    as (ca & cb & Ea & Eb & Hna & Hnb & Hla & Hlb & Hag & Hrk).
  assert (Hn : (1 <= n <= 14)%nat).
  { destruct (proj1 (roundsOfKeyLength_Some _ _) Hr)
      as [[_ ->]|[[_ ->]|[_ ->]]]; lia. }
  exists ca, cb. split; [exact Ea|]. split; [exact Eb|].
  split; [congruence|]. split; [exact Hag|].
  intros p Hp. apply aes_blocks_determined.
  - rewrite Hna. lia.
  - congruence.
  - rewrite Hna, Hla. lia.
  - rewrite Hna, Hlb. lia.
  - rewrite Hna. exact Hrk.
  - exact Hp.
Qed.

(** X10. aesEncryptBlock is the Cipher of FIPS-197, 5.1, for the round keys
    of the context: the first round key is added, nr - 1 rounds of SubBytes,
    ShiftRows, MixColumns and the addition of the round key follow, and a
    last round without MixColumns, each transformation being the one of the
    standard. *)
Theorem aes_encrypt_is_fips_cipher (c : Aes.AesContext) (p : list Z) :
  (1 <= Aes.nr c)%nat -> (4 * Aes.nr c + 4 <= length (Aes.w c))%nat ->
  bytes 16 p ->
  Aes.aesEncryptBlock c p = Some (c, fipsCipher (roundKey c) (Aes.nr c) p).
Proof. exact (aesEncryptBlock_fips c p). Qed.

(** X11. aesDecryptBlock is the InvCipher of FIPS-197, 5.3, for the round
    keys of the context: the last round key is added, nr - 1 rounds of
    InvShiftRows, InvSubBytes, the addition of the round key and
    InvMixColumns follow from round nr - 1 down to 1, and a last round
    without InvMixColumns that adds the first round key. *)
Theorem aes_decrypt_is_fips_inverse_cipher (c : Aes.AesContext) (p : list Z) :
  (1 <= Aes.nr c)%nat -> (4 * Aes.nr c + 4 <= length (Aes.w c))%nat ->
  bytes 16 p ->
  Aes.aesDecryptBlock c p = Some (c, fipsInvCipher (roundKey c) (Aes.nr c) p).
Proof. exact (aesDecryptBlock_fips c p). Qed.

(** X12. Under any context with at least one round and 4 (nr + 1) words of
    schedule, aesEncryptBlock is a permutation of the 16-byte blocks: the
    output is a block of 16 bytes, two blocks with the same output are
    equal, and every block is the output for some block. *)
Theorem aes_encrypt_permutation (c : Aes.AesContext) :
  (1 <= Aes.nr c)%nat -> (4 * Aes.nr c + 4 <= length (Aes.w c))%nat ->
  (forall p, bytes 16 p ->
     exists ct, Aes.aesEncryptBlock c p = Some (c, ct) /\ bytes 16 ct) /\
  (forall p q cp cq ct, bytes 16 p -> bytes 16 q ->
     Aes.aesEncryptBlock c p = Some (cp, ct) ->
     Aes.aesEncryptBlock c q = Some (cq, ct) -> p = q) /\
  (forall ct, bytes 16 ct ->
     exists p, bytes 16 p /\ Aes.aesEncryptBlock c p = Some (c, ct)).
Proof.
  intros Hnr Hw. split; [|split].
  - intros p Hp.
    destruct (aes_decrypt_encrypt c p Hnr Hw Hp) as (ct & E & Hb & _).
    exists ct. split; assumption.
  - intros p q cp cq ct Hp Hq Ep Eq.
    exact (aes_encrypt_injective c p q cp cq ct Hnr Hw Hp Hq Ep Eq).
  - intros ct Hc.
    destruct (aes_encrypt_decrypt c ct Hnr Hw Hc) as (p & _ & Hb & E).
    exists p. split; assumption.
Qed.

(** *** Camellia (camellia.c) *)

(** X13. The tables sbox2, sbox3 and sbox4 are derived from sbox1 as in
    RFC 3713, 2.4.1: sbox2[x] = sbox1[x] <<< 1, sbox3[x] = sbox1[x] <<< 7,
    sbox4[x] = sbox1[x <<< 1], on bytes; and sbox1 takes no value twice. *)
Theorem camellia_sbox_tables (a b : Z) :
  is_byte a -> is_byte b ->
  tbl Camellia.sbox2 b = rotl8 (tbl Camellia.sbox1 b) 1 /\
  tbl Camellia.sbox3 b = rotl8 (tbl Camellia.sbox1 b) 7 /\
  tbl Camellia.sbox4 b = tbl Camellia.sbox1 (rotl8 b 1) /\
  (tbl Camellia.sbox1 a = tbl Camellia.sbox1 b -> a = b).
Proof.
  intros Ha Hb. destruct (sbox_relations b Hb) as (H2 & H3 & H4).
  repeat (split; [assumption|]). apply sbox1_injective; assumption.
Qed.

(** X14. CAMELLIA_S applies sbox1, sbox2, sbox3, sbox4 to the bytes of the
    first word, most significant first, and sbox2, sbox3, sbox4, sbox1 to
    those of the second.  CAMELLIA_P, four rotations and exclusive ors on
    the two words, computes the eight byte sums of the P-function of
    RFC 3713, 2.4.1, and leaves the two halves exchanged: the first word
    holds z5' .. z8' and the second z1' .. z4'. *)
Theorem camellia_S_P_bytes (zl zr t1 t2 t3 t4 t5 t6 t7 t8 : Z) :
  is_byte t1 -> is_byte t2 -> is_byte t3 -> is_byte t4 ->
  is_byte t5 -> is_byte t6 -> is_byte t7 -> is_byte t8 ->
  Camellia.CAMELLIA_S zl zr =
    (be32 (tbl Camellia.sbox1 (byteOf zl 3)) (tbl Camellia.sbox2 (byteOf zl 2))
          (tbl Camellia.sbox3 (byteOf zl 1)) (tbl Camellia.sbox4 (byteOf zl 0)),
     be32 (tbl Camellia.sbox2 (byteOf zr 3)) (tbl Camellia.sbox3 (byteOf zr 2))
          (tbl Camellia.sbox4 (byteOf zr 1)) (tbl Camellia.sbox1 (byteOf zr 0)))
  /\
  Camellia.CAMELLIA_P (be32 t1 t2 t3 t4) (be32 t5 t6 t7 t8) =
    (be32 (Z.lxor (Z.lxor (Z.lxor (Z.lxor t1 t2) t6) t7) t8)
          (Z.lxor (Z.lxor (Z.lxor (Z.lxor t2 t3) t5) t7) t8)
          (Z.lxor (Z.lxor (Z.lxor (Z.lxor t3 t4) t5) t6) t8)
          (Z.lxor (Z.lxor (Z.lxor (Z.lxor t1 t4) t5) t6) t7),
     be32 (Z.lxor (Z.lxor (Z.lxor (Z.lxor (Z.lxor t1 t3) t4) t6) t7) t8)
          (Z.lxor (Z.lxor (Z.lxor (Z.lxor (Z.lxor t1 t2) t4) t5) t7) t8)
          (Z.lxor (Z.lxor (Z.lxor (Z.lxor (Z.lxor t1 t2) t3) t5) t6) t8)
          (Z.lxor (Z.lxor (Z.lxor (Z.lxor (Z.lxor t2 t3) t4) t5) t6) t7)).
Proof.
  intros H1 H2 H3 H4 H5 H6 H7 H8.
  split; [apply CAMELLIA_S_bytes | apply CAMELLIA_P_bytes; assumption].
Qed.

(** X15. CAMELLIA_ROUND is one round of the Feistel network of RFC 3713,
    2.3: the new left half is the right half xor F(left half, subkey), word
    by word, with F the byte-level F-function of 2.4.1, and the new right
    half is the old left half; for all values of the six words. *)
Theorem camellia_round_is_feistel (l1 l2 r1 r2 k1 k2 : Z) :
  Camellia.CAMELLIA_ROUND l1 l2 r1 r2 k1 k2 =
  (Z.lxor (fst (rfcFWords l1 l2 k1 k2)) r1,
   Z.lxor (snd (rfcFWords l1 l2 k1 k2)) r2, l1, l2).
Proof. exact (CAMELLIA_ROUND_rfc l1 l2 r1 r2 k1 k2). Qed.

(** X16. A round is undone by the round with the same subkey applied to the
    exchanged halves, which is how camelliaDecryptBlock calls it. *)
Theorem camellia_round_undone (l1 l2 r1 r2 k1 k2 : Z) :
  let '(a, b, c, d) := Camellia.CAMELLIA_ROUND l1 l2 r1 r2 k1 k2 in
  Camellia.CAMELLIA_ROUND c d a b k1 k2 = (r1, r2, l1, l2).
Proof.
  destruct (Camellia.CAMELLIA_ROUND l1 l2 r1 r2 k1 k2)
    as [[[a b] c] d] eqn:E.
  exact (round_undo l1 l2 r1 r2 k1 k2 a b c d E).
Qed.

(** X17. CAMELLIA_FL and CAMELLIA_INV_FL with the same subkey pair undo
    each other, in both orders, for all values of the words. *)
Theorem camellia_fl_inverse (xl xr kl kr : Z) :
  (let '(a, b) := Camellia.CAMELLIA_FL xl xr kl kr in
   Camellia.CAMELLIA_INV_FL a b kl kr = (xl, xr)) /\
  (let '(a, b) := Camellia.CAMELLIA_INV_FL xl xr kl kr in
   Camellia.CAMELLIA_FL a b kl kr = (xl, xr)).
Proof.
  split.
  - destruct (Camellia.CAMELLIA_FL xl xr kl kr) as [a b] eqn:E.
    exact (FL_INV_FL xl xr kl kr a b E).
  - destruct (Camellia.CAMELLIA_INV_FL xl xr kl kr) as [a b] eqn:E.
    exact (INV_FL_FL xl xr kl kr a b E).
Qed.

(** X18. The macro CAMELLIA_F, which no function of camellia.c uses,
    overwrites xl ^ kl by xr ^ kr before the S- and P-functions: its result
    depends neither on xl nor on kl, and is the S- then P-function on the
    pair (xr ^ kr, xr). *)
Theorem camellia_unused_F_ignores_left (xl xl' xr kl kl' kr : Z) :
  Unused.CAMELLIA_F xl xr kl kr = Unused.CAMELLIA_F xl' xr kl' kr /\
  Unused.CAMELLIA_F xl xr kl kr =
    (let '(a, b) := Camellia.CAMELLIA_S (Z.lxor xr kr) xr in
     Camellia.CAMELLIA_P a b).
Proof.
  unfold Unused.CAMELLIA_F.
  destruct (Camellia.CAMELLIA_S (Z.lxor xr kr) xr) as [a b].
  destruct (Camellia.CAMELLIA_P a b) as [u v]. split; reflexivity.
Qed.

(** X19. After camelliaInit the words KL and KR of the key material are the
    key read as big-endian words: the six rounds with the sigma constants
    write to KA and KB only.  KR is zero for a 16-byte key, and for a
    24-byte key its last two words are the complements of the first two. *)
Theorem camelliaInit_key_words
  (ctx0 : Camellia.CamelliaContext) (key : list Z) (keyLength n : nat) :
  Camellia.roundsOfKeyLength keyLength = Some n ->
  wfCamellia ctx0 -> keyBuffer key keyLength ->
  exists ctx,
    Camellia.camelliaInit ctx0 key keyLength = Some (NO_ERROR, ctx) /\
    (forall i, (i < keyLength / 4)%nat ->
       nth i (Camellia.k ctx) 0 =
       be32 (nth (4 * i) key 0) (nth (4 * i + 1) key 0)
            (nth (4 * i + 2) key 0) (nth (4 * i + 3) key 0)) /\
    (keyLength = 16%nat ->
     forall i, (4 <= i < 8)%nat -> nth i (Camellia.k ctx) 0 = 0) /\
    (keyLength = 24%nat ->
     nth 6 (Camellia.k ctx) 0 = Camellia.not32 (nth 4 (Camellia.k ctx) 0) /\
     nth 7 (Camellia.k ctx) 0 = Camellia.not32 (nth 5 (Camellia.k ctx) 0)).
Proof.
  intros Hr Hwf Hkey.
  destruct (camelliaInit_values ctx0 key keyLength n Hr Hwf Hkey)
    as (ctx & k1 & E & _ & _ & El & _ & Hlow & _).
  destruct (loadKey_values (repeat 0 16) key keyLength n Hr
              (repeat_length 0 16) Hkey)
    as (k1' & El' & _ & Hv & H16 & H24).
  assert (Ek : k1' = k1) by congruence. subst k1'.
  assert (Hcases := proj1 (camellia_roundsOfKeyLength_Some _ _) Hr).
  exists ctx. split; [exact E|]. split; [|split].
  - intros i Hi. rewrite Hlow; [apply Hv, Hi|].
    destruct Hcases as [[-> _]|[[-> _]|[-> _]]]; cbn in Hi; lia.
  - intros H i Hi. rewrite Hlow by lia. apply H16; assumption.
  - intros H. rewrite !Hlow by lia. apply H24, H.
Qed.

(** X20. Every entry of the schedule table camelliaInit goes through stores
    two consecutive 32-bit words of the 128-bit value of its bank (KL, KR,
    KA or KB) rotated to the left by its shift: words 0 and 1 for the
    position L, words 2 and 3 for the position R.  This is the subkey
    (K <<< shift) >> 64, resp. (K <<< shift) & MASK64, of RFC 3713, 2.2. *)
Theorem camelliaInit_subkeys_are_rotations
  (ctx0 : Camellia.CamelliaContext) (key : list Z) (keyLength n : nat)
  (e : Camellia.CamelliaSubkey) :
  Camellia.roundsOfKeyLength keyLength = Some n ->
  wfCamellia ctx0 -> keyBuffer key keyLength ->
  In e (tableOf keyLength) ->
  exists ctx,
    Camellia.camelliaInit ctx0 key keyLength = Some (NO_ERROR, ctx) /\
    nth (Camellia.index e) (Camellia.ks ctx) 0 =
      word128 (rotl128 (bankAt (Camellia.k ctx) (Camellia.key e))
                       (Z.of_nat (Camellia.shift e)))
              (Z.of_nat (Camellia.position e / 32)) /\
    nth (Camellia.index e + 1) (Camellia.ks ctx) 0 =
      word128 (rotl128 (bankAt (Camellia.k ctx) (Camellia.key e))
                       (Z.of_nat (Camellia.shift e)))
              (Z.of_nat (Camellia.position e / 32 + 1)).
Proof.
  intros Hr Hwf Hkey He.
  destruct (camelliaInit_values ctx0 key keyLength n Hr Hwf Hkey)
    as (ctx & k1 & E & _ & Hw & _ & _ & _ & Hval & _).
  destruct (tables_ok keyLength) as (Hok & Hsl & _).
  rewrite forallb_forall in Hok, Hsl.
  specialize (Hok e He). specialize (Hsl e He).
  destruct (sliceOk_spec e Hsl) as (Hs & j & Hpos & Hj & Ej).
  unfold entryOk in Hok. apply andb_prop in Hok. destruct Hok as [Hk4 _].
  apply Nat.leb_le in Hk4.
  assert (Hkw : words 16 (Camellia.k ctx))
    by (destruct Hw as (H1 & H2 & _); split; assumption).
  exists ctx. split; [exact E|].
  destruct (Hval e He) as [H1 H2].
  rewrite H1, H2, (subkeyPair_rotation (Camellia.k ctx) e j Hkw Hk4 Hs Hpos Hj).
  rewrite <- Ej. split; reflexivity.
Qed.

(** X21. What camelliaInit leaves in the context depends on the key only,
    except for the subkey words it does not write (52 to 67, for a 16-byte
    key), which stay as they were: after camelliaInit with the same key on
    two contexts the number of rounds, the key material and the written
    subkey words agree, and the block functions give the same output on
    every block. *)
Theorem camelliaInit_ignores_old_context
  (ca0 cb0 : Camellia.CamelliaContext) (key : list Z) (keyLength n : nat) :
  Camellia.roundsOfKeyLength keyLength = Some n ->
  wfCamellia ca0 -> wfCamellia cb0 -> keyBuffer key keyLength ->
  exists ca cb,
    Camellia.camelliaInit ca0 key keyLength = Some (NO_ERROR, ca) /\
    Camellia.camelliaInit cb0 key keyLength = Some (NO_ERROR, cb) /\
    Camellia.nr ca = Camellia.nr cb /\ Camellia.k ca = Camellia.k cb /\
    (forall j, (j < subkeyWords keyLength)%nat ->
       nth j (Camellia.ks ca) 0 = nth j (Camellia.ks cb) 0) /\
    (forall j, (subkeyWords keyLength <= j)%nat ->
       nth j (Camellia.ks ca) 0 = nth j (Camellia.ks ca0) 0) /\
    forall p, bytes 16 p ->
      exists ct pt,
        Camellia.camelliaEncryptBlock ca p = Some (ca, ct) /\
        Camellia.camelliaEncryptBlock cb p = Some (cb, ct) /\
        Camellia.camelliaDecryptBlock ca p = Some (ca, pt) /\
        Camellia.camelliaDecryptBlock cb p = Some (cb, pt).
Proof.
  intros Hr Ha Hb Hkey.
  destruct (camelliaInit_independent ca0 cb0 key keyLength n Hr Ha Hb Hkey)
    as (ca & cb & Ea & Eb & Hna & Hnb & Hwa & Hwb & Hk & Hag & Hfr).
  assert (Hcases := proj1 (camellia_roundsOfKeyLength_Some _ _) Hr).
  assert (Hn : (n = 18 \/ n = 24)%nat /\
               (advance n + 8 <= subkeyWords keyLength)%nat).
  { destruct Hcases as [[-> ->]|[[-> ->]|[-> ->]]]; split; auto;
      vm_compute; lia. }
  destruct Hn as [Hn Hadv].
  exists ca, cb. split; [exact Ea|]. split; [exact Eb|].
  split; [congruence|]. split; [exact Hk|]. split; [exact Hag|].
  split; [intros j Hj; apply (Hfr j Hj)|].
  intros p Hp. apply camellia_blocks_determined.
  - rewrite Hna. exact Hn.
  - congruence.
  - destruct Hwa as (_ & _ & H1 & H2). split; assumption.
  - destruct Hwb as (_ & _ & H1 & H2). split; assumption.
  - intros j Hj. apply Hag. rewrite Hna in Hj. lia.
  - exact Hp.
Qed.

(** X22. camelliaDecryptBlock goes through the operations of
    camelliaEncryptBlock in the reverse order and undoes each: it removes
    the final whitening with the four subkey words that follow those of the
    rounds, exchanges the halves, undoes the rounds and FL layers from the
    last to the first, and removes the initial whitening with words 0..3. *)
Theorem camellia_decrypt_mirrors_encrypt
  (c : Camellia.CamelliaContext) (ct : list Z) :
  (Camellia.nr c = 18 \/ Camellia.nr c = 24)%nat ->
  words 68 (Camellia.ks c) -> bytes 16 ct ->
  Camellia.camelliaDecryptBlock c ct =
  Some (c, storeBlock
             (whiten (Camellia.ks c) 0
                (undoOps (Camellia.ks c) (rev (encOps (Camellia.nr c) 4))
                   (swapHalves
                      (whiten (Camellia.ks c) (4 + advance (Camellia.nr c))
                         (loadBlock ct)))))).
Proof.
  intros Hnr [Hl _] Hc.
  destruct (camellia_pointers (Camellia.nr c) Hnr) as [Hadv Hops].
  rewrite camelliaDecryptBlock_spec;
    [ | rewrite Hl; destruct Hnr as [-> | ->]; cbn; lia
      | destruct Hnr as [-> | ->]; cbn; lia | exact Hc ].
  rewrite Hops.
  replace (4 + advance (Camellia.nr c))%nat
    with (if (Camellia.nr c =? 18)%nat then 48%nat else 64%nat)
    by (destruct Hnr as [-> | ->]; reflexivity).
  replace ((if (Camellia.nr c =? 18)%nat then 48 else 64)
           - advance (Camellia.nr c) - 4)%nat with 0%nat
    by (destruct Hnr as [-> | ->]; reflexivity).
  reflexivity.
Qed.

(** X23. Under a context with 18 or 24 rounds camelliaEncryptBlock is a
    permutation of the 16-byte blocks: the output is a block of 16 bytes,
    two blocks with the same output are equal, and every block is the
    output for some block. *)
Theorem camellia_encrypt_permutation (c : Camellia.CamelliaContext) :
  (Camellia.nr c = 18 \/ Camellia.nr c = 24)%nat ->
  words 68 (Camellia.ks c) ->
  (forall p, bytes 16 p ->
     exists ct, Camellia.camelliaEncryptBlock c p = Some (c, ct) /\
                bytes 16 ct) /\
  (forall p q cp cq ct, bytes 16 p -> bytes 16 q ->
     Camellia.camelliaEncryptBlock c p = Some (cp, ct) ->
     Camellia.camelliaEncryptBlock c q = Some (cq, ct) -> p = q) /\
  (forall ct, bytes 16 ct ->
     exists p, bytes 16 p /\ Camellia.camelliaEncryptBlock c p = Some (c, ct)).
Proof.
  intros Hnr Hw. split; [|split].
  - intros p Hp.
    destruct (camellia_decrypt_encrypt c p Hnr Hw Hp) as (ct & E & Hb & _).
    exists ct. split; assumption.
  - intros p q cp cq ct Hp Hq Ep Eq.
    exact (camellia_encrypt_injective c p q cp cq ct Hnr Hw Hp Hq Ep Eq).
  - intros ct Hc.
    destruct (camellia_encrypt_decrypt c ct Hnr Hw Hc) as (p & _ & Hb & E).
    exists p. split; assumption.
Qed.

(** X24. The block functions read the subkey words 0 to 51 only when
    nr = 18, and never the key material: two contexts with the same number
    of rounds that agree on the first 52 words of ks for nr = 18, on all 68
    for nr = 24, give the same outputs, whatever their arrays k hold. *)
Theorem camellia_blocks_read_prefix
  (ca cb : Camellia.CamelliaContext) (p : list Z) :
  (Camellia.nr ca = 18 \/ Camellia.nr ca = 24)%nat ->
  Camellia.nr cb = Camellia.nr ca ->
  words 68 (Camellia.ks ca) -> words 68 (Camellia.ks cb) ->
  (forall j, (j < if (Camellia.nr ca =? 18)%nat then 52 else 68)%nat ->
     nth j (Camellia.ks ca) 0 = nth j (Camellia.ks cb) 0) ->
  bytes 16 p ->
  exists ct pt,
    Camellia.camelliaEncryptBlock ca p = Some (ca, ct) /\
    Camellia.camelliaEncryptBlock cb p = Some (cb, ct) /\
    Camellia.camelliaDecryptBlock ca p = Some (ca, pt) /\
    Camellia.camelliaDecryptBlock cb p = Some (cb, pt).
Proof.
  intros Hnr Hn Hwa Hwb Hag Hp.
  apply camellia_blocks_determined; try assumption.
  intros j Hj. apply Hag.
  destruct Hnr as [E | E]; rewrite E in *; cbn in *; lia.
Qed.

(* ================================================================== *)
(** ** The further properties on concrete inputs                        *)
(* ================================================================== *)

(** The S-box on {53}, the example of FIPS-197, 5.1.1. *)
Lemma aes_sbox_tables_witness :
  is_byte 0x53 /\
  tbl Aes.sbox 0x53 = fipsSbox 0x53 /\
  tbl Aes.isbox 0x53 = fipsInvSbox 0x53 /\
  tbl Aes.isbox (tbl Aes.sbox 0x53) = 0x53 /\
  tbl Aes.sbox (tbl Aes.isbox 0x53) = 0x53.
Proof.
  assert (H1 : is_byte 0x53) by (unfold is_byte; lia).
  split; [exact H1|]. exact (aes_sbox_tables 0x53 H1).
Defined.

(** The product {02}.{57} and the last round constant. *)
Lemma aes_mul2_rcon_tables_witness :
  is_byte 0x57 /\ (1 <= 10 <= 10)%nat /\
  tbl Aes.mul2 0x57 = xtime 0x57 /\
  tbl Aes.mul2 0x57 = gfMul 2 0x57 /\
  nth 10 Aes.rcon 0 = gfPow2 (10 - 1).
Proof.
  assert (H1 : is_byte 0x57) by (unfold is_byte; lia).
  assert (H2 : (1 <= 10 <= 10)%nat) by lia.
  split; [exact H1|]. split; [exact H2|].
  exact (aes_mul2_rcon_tables 0x57 10 H1 H2).
Defined.

(** The byte substitutions on the FIPS-197 plaintext block. *)
Lemma aes_subBytes_bytewise_witness :
  bytes 16 aesPlain /\
  Aes.subBytes aesPlain = map (tbl Aes.sbox) aesPlain /\
  Aes.invSubBytes aesPlain = map (tbl Aes.isbox) aesPlain /\
  Aes.invSubBytes (Aes.subBytes aesPlain) = aesPlain /\
  Aes.subBytes (Aes.invSubBytes aesPlain) = aesPlain.
Proof.
  assert (H1 : bytes 16 aesPlain) by concrete_block.
  split; [exact H1|]. exact (aes_subBytes_bytewise aesPlain H1).
Defined.

(** The row shifts on the FIPS-197 plaintext block. *)
Lemma aes_shiftRows_rows_witness :
  length aesPlain = 16%nat /\
  Aes.shiftRows aesPlain = fipsShiftRows aesPlain /\
  Aes.invShiftRows aesPlain = fipsInvShiftRows aesPlain /\
  Aes.invShiftRows (Aes.shiftRows aesPlain) = aesPlain /\
  Aes.shiftRows (Aes.invShiftRows aesPlain) = aesPlain.
Proof.
  assert (H1 : length aesPlain = 16%nat) by reflexivity.
  split; [exact H1|]. exact (aes_shiftRows_rows aesPlain H1).
Defined.

(** The column products on the FIPS-197 plaintext block. *)
Lemma aes_mixColumns_matrix_witness :
  bytes 16 aesPlain /\
  Aes.mixColumns aesPlain = onColumns fipsMixColumn aesPlain /\
  Aes.invMixColumns aesPlain = onColumns fipsInvMixColumn aesPlain.
Proof.
  assert (H1 : bytes 16 aesPlain) by concrete_block.
  split; [exact H1|]. exact (aes_mixColumns_matrix aesPlain H1).
Defined.

(** The round key addition of the FIPS-197 plaintext block and the four
    words of the 128-bit key. *)
Lemma aes_addRoundKey_xor_witness :
  bytes 16 aesPlain /\
  (4 <= length [0x03020100; 0x07060504; 0x0B0A0908; 0x0F0E0D0C]%Z)%nat /\
  Aes.addRoundKey aesPlain [0x03020100; 0x07060504; 0x0B0A0908; 0x0F0E0D0C] =
    Some (xorBytes aesPlain
            (keyBytes [0x03020100; 0x07060504; 0x0B0A0908; 0x0F0E0D0C])) /\
  bytes 16 (xorBytes aesPlain
              (keyBytes [0x03020100; 0x07060504; 0x0B0A0908; 0x0F0E0D0C])) /\
  Aes.addRoundKey
    (xorBytes aesPlain
       (keyBytes [0x03020100; 0x07060504; 0x0B0A0908; 0x0F0E0D0C]))
    [0x03020100; 0x07060504; 0x0B0A0908; 0x0F0E0D0C] = Some aesPlain.
Proof.
  assert (H1 : bytes 16 aesPlain) by concrete_block.
  assert (H2 : (4 <= length [0x03020100; 0x07060504; 0x0B0A0908; 0x0F0E0D0C]%Z)%nat)
    by (simpl; lia).
  split; [exact H1|]. split; [exact H2|].
  exact (aes_addRoundKey_xor aesPlain
           [0x03020100; 0x07060504; 0x0B0A0908; 0x0F0E0D0C] H1 H2).
Defined.

(** The word 09 cf 4f 3c of the key expansion example of FIPS-197, A.1. *)
Lemma aes_rotWord_subWord_bytes_witness :
  is_byte 0x09 /\ is_byte 0xCF /\ is_byte 0x4F /\ is_byte 0x3C /\
  Aes.rotWord (LOAD32LE 0x09 0xCF 0x4F 0x3C) = LOAD32LE 0xCF 0x4F 0x3C 0x09 /\
  Aes.subWord (LOAD32LE 0x09 0xCF 0x4F 0x3C) =
    LOAD32LE (tbl Aes.sbox 0x09) (tbl Aes.sbox 0xCF)
             (tbl Aes.sbox 0x4F) (tbl Aes.sbox 0x3C) /\
  Aes.subWord (Aes.rotWord (LOAD32LE 0x09 0xCF 0x4F 0x3C)) =
    Aes.rotWord (Aes.subWord (LOAD32LE 0x09 0xCF 0x4F 0x3C)).
Proof.
  assert (H0 : is_byte 0x09) by (unfold is_byte; lia).
  assert (H1 : is_byte 0xCF) by (unfold is_byte; lia).
  assert (H2 : is_byte 0x4F) by (unfold is_byte; lia).
  assert (H3 : is_byte 0x3C) by (unfold is_byte; lia).
  split; [exact H0|]. split; [exact H1|]. split; [exact H2|].
  split; [exact H3|].
  exact (aes_rotWord_subWord_bytes 0x09 0xCF 0x4F 0x3C H0 H1 H2 H3).
Defined.

(** The context after aesInit with the FIPS-197 192-bit key. *)
Lemma aesInit_keeps_shape_witness :
  Aes.roundsOfKeyLength 24 = Some 12%nat /\
  wfAes freshAes /\ keyBuffer aesKey192 24 /\
  exists ctx,
    Aes.aesInit freshAes aesKey192 24 = Some (NO_ERROR, ctx) /\
    Aes.nr ctx = 12%nat /\ wfAes ctx /\
    (forall j, (4 * (12 + 1) <= j)%nat ->
       nth j (Aes.w ctx) 0 = nth j (Aes.w freshAes) 0).
Proof.
  assert (H1 : Aes.roundsOfKeyLength 24 = Some 12%nat) by reflexivity.
  assert (H2 : wfAes freshAes) by concrete_wfAes.
  assert (H3 : keyBuffer aesKey192 24) by concrete_keyBuffer.
  split; [exact H1|]. split; [exact H2|]. split; [exact H3|].
  exact (aesInit_keeps_shape freshAes aesKey192 24 12 H1 H2 H3).
Defined.

(** aesInit with the FIPS-197 128-bit key on a zero context and on a
    context that was set up for 14 rounds and holds ones. *)
Lemma aesInit_ignores_old_schedule_witness :
  Aes.roundsOfKeyLength 16 = Some 10%nat /\
  wfAes freshAes /\ wfAes (Aes.mkAesContext 14 (repeat 1%Z 60)) /\
  keyBuffer aesKey128 16 /\
  exists ca cb,
    Aes.aesInit freshAes aesKey128 16 = Some (NO_ERROR, ca) /\
    Aes.aesInit (Aes.mkAesContext 14 (repeat 1%Z 60)) aesKey128 16
      = Some (NO_ERROR, cb) /\
    Aes.nr ca = Aes.nr cb /\
    forall p, bytes 16 p ->
      exists ct pt,
        Aes.aesEncryptBlock ca p = Some (ca, ct) /\
        Aes.aesEncryptBlock cb p = Some (cb, ct) /\
        Aes.aesDecryptBlock ca p = Some (ca, pt) /\
        Aes.aesDecryptBlock cb p = Some (cb, pt).
Proof.
  assert (H1 : Aes.roundsOfKeyLength 16 = Some 10%nat) by reflexivity.
  assert (H2 : wfAes freshAes) by concrete_wfAes.
  assert (H3 : wfAes (Aes.mkAesContext 14 (repeat 1%Z 60))).
  { split; [reflexivity | cbn [Aes.w repeat]; concrete_words]. }
  assert (H4 : keyBuffer aesKey128 16) by concrete_keyBuffer.
  split; [exact H1|]. split; [exact H2|]. split; [exact H3|].
  split; [exact H4|].
  destruct (aesInit_ignores_old_schedule freshAes
              (Aes.mkAesContext 14 (repeat 1%Z 60)) aesKey128 16 10 H1 H2 H3 H4)
    as (ca & cb & Ea & Eb & Hn & _ & Hblocks).
  exists ca, cb. split; [exact Ea|]. split; [exact Eb|].
  split; [exact Hn | exact Hblocks].
Defined.

(** The cipher under a context of 10 rounds with a zero schedule. *)
Lemma aes_encrypt_is_fips_cipher_witness :
  (1 <= Aes.nr (Aes.mkAesContext 10 (repeat 0%Z 60)))%nat /\
  (4 * Aes.nr (Aes.mkAesContext 10 (repeat 0%Z 60)) + 4
   <= length (Aes.w (Aes.mkAesContext 10 (repeat 0%Z 60))))%nat /\
  bytes 16 aesPlain /\
  Aes.aesEncryptBlock (Aes.mkAesContext 10 (repeat 0%Z 60)) aesPlain =
  Some (Aes.mkAesContext 10 (repeat 0%Z 60),
        fipsCipher (roundKey (Aes.mkAesContext 10 (repeat 0%Z 60)))
          (Aes.nr (Aes.mkAesContext 10 (repeat 0%Z 60))) aesPlain).
Proof.
  assert (H1 : (1 <= Aes.nr (Aes.mkAesContext 10 (repeat 0%Z 60)))%nat)
    by (simpl; lia).
  assert (H2 : (4 * Aes.nr (Aes.mkAesContext 10 (repeat 0%Z 60)) + 4
                <= length (Aes.w (Aes.mkAesContext 10 (repeat 0%Z 60))))%nat)
    by (simpl; lia).
  assert (H3 : bytes 16 aesPlain) by concrete_block.
  split; [exact H1|]. split; [exact H2|]. split; [exact H3|].
  exact (aes_encrypt_is_fips_cipher (Aes.mkAesContext 10 (repeat 0%Z 60))
           aesPlain H1 H2 H3).
Defined.

(** The inverse cipher under a context of 12 rounds with a zero schedule. *)
Lemma aes_decrypt_is_fips_inverse_cipher_witness :
  (1 <= Aes.nr (Aes.mkAesContext 12 (repeat 0%Z 60)))%nat /\
  (4 * Aes.nr (Aes.mkAesContext 12 (repeat 0%Z 60)) + 4
   <= length (Aes.w (Aes.mkAesContext 12 (repeat 0%Z 60))))%nat /\
  bytes 16 aesCipher192 /\
  Aes.aesDecryptBlock (Aes.mkAesContext 12 (repeat 0%Z 60)) aesCipher192 =
  Some (Aes.mkAesContext 12 (repeat 0%Z 60),
        fipsInvCipher (roundKey (Aes.mkAesContext 12 (repeat 0%Z 60)))
          (Aes.nr (Aes.mkAesContext 12 (repeat 0%Z 60))) aesCipher192).
Proof.
  assert (H1 : (1 <= Aes.nr (Aes.mkAesContext 12 (repeat 0%Z 60)))%nat)
    by (simpl; lia).
  assert (H2 : (4 * Aes.nr (Aes.mkAesContext 12 (repeat 0%Z 60)) + 4
                <= length (Aes.w (Aes.mkAesContext 12 (repeat 0%Z 60))))%nat)
    by (simpl; lia).
  assert (H3 : bytes 16 aesCipher192) by concrete_block.
  split; [exact H1|]. split; [exact H2|]. split; [exact H3|].
  exact (aes_decrypt_is_fips_inverse_cipher
           (Aes.mkAesContext 12 (repeat 0%Z 60)) aesCipher192 H1 H2 H3).
Defined.

(** The encryption under a context of 14 rounds with a zero schedule. *)
Lemma aes_encrypt_permutation_witness :
  (1 <= Aes.nr (Aes.mkAesContext 14 (repeat 0%Z 60)))%nat /\
  (4 * Aes.nr (Aes.mkAesContext 14 (repeat 0%Z 60)) + 4
   <= length (Aes.w (Aes.mkAesContext 14 (repeat 0%Z 60))))%nat /\
  (forall p q cp cq ct, bytes 16 p -> bytes 16 q ->
     Aes.aesEncryptBlock (Aes.mkAesContext 14 (repeat 0%Z 60)) p = Some (cp, ct) ->
     Aes.aesEncryptBlock (Aes.mkAesContext 14 (repeat 0%Z 60)) q = Some (cq, ct) ->
     p = q).
Proof.
  assert (H1 : (1 <= Aes.nr (Aes.mkAesContext 14 (repeat 0%Z 60)))%nat)
    by (simpl; lia).
  assert (H2 : (4 * Aes.nr (Aes.mkAesContext 14 (repeat 0%Z 60)) + 4
                <= length (Aes.w (Aes.mkAesContext 14 (repeat 0%Z 60))))%nat)
    by (simpl; lia).
  split; [exact H1|]. split; [exact H2|].
  exact (proj1 (proj2 (aes_encrypt_permutation
                         (Aes.mkAesContext 14 (repeat 0%Z 60)) H1 H2))).
Defined.

(** The four S-boxes on the bytes {00} and {01}. *)
Lemma camellia_sbox_tables_witness :
  is_byte 0 /\ is_byte 1 /\
  tbl Camellia.sbox2 1 = rotl8 (tbl Camellia.sbox1 1) 1 /\
  tbl Camellia.sbox3 1 = rotl8 (tbl Camellia.sbox1 1) 7 /\
  tbl Camellia.sbox4 1 = tbl Camellia.sbox1 (rotl8 1 1) /\
  (tbl Camellia.sbox1 0 = tbl Camellia.sbox1 1 -> 0 = 1).
Proof.
  assert (H0 : is_byte 0) by (unfold is_byte; lia).
  assert (H1 : is_byte 1) by (unfold is_byte; lia).
  split; [exact H0|]. split; [exact H1|].
  exact (camellia_sbox_tables 0 1 H0 H1).
Defined.

(** The P-function on the bytes 01 .. 08. *)
Lemma camellia_S_P_bytes_witness :
  is_byte 1 /\ is_byte 2 /\ is_byte 3 /\ is_byte 4 /\
  is_byte 5 /\ is_byte 6 /\ is_byte 7 /\ is_byte 8 /\
  Camellia.CAMELLIA_P (be32 1 2 3 4) (be32 5 6 7 8) =
    (be32 (Z.lxor (Z.lxor (Z.lxor (Z.lxor 1 2) 6) 7) 8)
          (Z.lxor (Z.lxor (Z.lxor (Z.lxor 2 3) 5) 7) 8)
          (Z.lxor (Z.lxor (Z.lxor (Z.lxor 3 4) 5) 6) 8)
          (Z.lxor (Z.lxor (Z.lxor (Z.lxor 1 4) 5) 6) 7),
     be32 (Z.lxor (Z.lxor (Z.lxor (Z.lxor (Z.lxor 1 3) 4) 6) 7) 8)
          (Z.lxor (Z.lxor (Z.lxor (Z.lxor (Z.lxor 1 2) 4) 5) 7) 8)
          (Z.lxor (Z.lxor (Z.lxor (Z.lxor (Z.lxor 1 2) 3) 5) 6) 8)
          (Z.lxor (Z.lxor (Z.lxor (Z.lxor (Z.lxor 2 3) 4) 5) 6) 7)).
Proof.
  assert (H1 : is_byte 1) by (unfold is_byte; lia).
  assert (H2 : is_byte 2) by (unfold is_byte; lia).
  assert (H3 : is_byte 3) by (unfold is_byte; lia).
  assert (H4 : is_byte 4) by (unfold is_byte; lia).
  assert (H5 : is_byte 5) by (unfold is_byte; lia).
  assert (H6 : is_byte 6) by (unfold is_byte; lia).
  assert (H7 : is_byte 7) by (unfold is_byte; lia).
  assert (H8 : is_byte 8) by (unfold is_byte; lia).
  repeat (split; [assumption|]).
  exact (proj2 (camellia_S_P_bytes 0x01234567 0x89ABCDEF 1 2 3 4 5 6 7 8
                  H1 H2 H3 H4 H5 H6 H7 H8)).
Defined.

(** The key material of the RFC 3713 192-bit key after camelliaInit. *)
Lemma camelliaInit_key_words_witness :
  Camellia.roundsOfKeyLength 24 = Some 24%nat /\
  wfCamellia freshCamellia /\ keyBuffer camelliaKey192 24 /\
  exists ctx,
    Camellia.camelliaInit freshCamellia camelliaKey192 24
      = Some (NO_ERROR, ctx) /\
    (forall i, (i < 24 / 4)%nat ->
       nth i (Camellia.k ctx) 0 =
       be32 (nth (4 * i) camelliaKey192 0) (nth (4 * i + 1) camelliaKey192 0)
            (nth (4 * i + 2) camelliaKey192 0)
            (nth (4 * i + 3) camelliaKey192 0)) /\
    nth 6 (Camellia.k ctx) 0 = Camellia.not32 (nth 4 (Camellia.k ctx) 0) /\
    nth 7 (Camellia.k ctx) 0 = Camellia.not32 (nth 5 (Camellia.k ctx) 0).
Proof.
  assert (H1 : Camellia.roundsOfKeyLength 24 = Some 24%nat) by reflexivity.
  assert (H2 : wfCamellia freshCamellia) by concrete_wfCamellia.
  assert (H3 : keyBuffer camelliaKey192 24) by concrete_keyBuffer.
  split; [exact H1|]. split; [exact H2|]. split; [exact H3|].
  destruct (camelliaInit_key_words freshCamellia camelliaKey192 24 24 H1 H2 H3)
    as (ctx & E & Hv & _ & H24).
  exists ctx. split; [exact E|]. split; [exact Hv | exact (H24 eq_refl)].
Defined.

(** The subkey k4 of the RFC 3713 128-bit key: the right half of
    KL <<< 15. *)
Lemma camelliaInit_subkeys_are_rotations_witness :
  Camellia.roundsOfKeyLength 16 = Some 18%nat /\
  wfCamellia freshCamellia /\ keyBuffer camelliaKey128 16 /\
  In (Camellia.mkSubkey 10 Camellia.KL 15 Camellia.R) (tableOf 16) /\
  exists ctx,
    Camellia.camelliaInit freshCamellia camelliaKey128 16
      = Some (NO_ERROR, ctx) /\
    nth (Camellia.index (Camellia.mkSubkey 10 Camellia.KL 15 Camellia.R))
        (Camellia.ks ctx) 0 =
      word128
        (rotl128
           (bankAt (Camellia.k ctx)
              (Camellia.key (Camellia.mkSubkey 10 Camellia.KL 15 Camellia.R)))
           (Z.of_nat
              (Camellia.shift (Camellia.mkSubkey 10 Camellia.KL 15 Camellia.R))))
        (Z.of_nat
           (Camellia.position (Camellia.mkSubkey 10 Camellia.KL 15 Camellia.R)
            / 32)).
Proof.
  assert (H1 : Camellia.roundsOfKeyLength 16 = Some 18%nat) by reflexivity.
  assert (H2 : wfCamellia freshCamellia) by concrete_wfCamellia.
  assert (H3 : keyBuffer camelliaKey128 16) by concrete_keyBuffer.
  assert (H4 : In (Camellia.mkSubkey 10 Camellia.KL 15 Camellia.R) (tableOf 16)).
  { vm_compute. do 5 right. left. reflexivity. }
  split; [exact H1|]. split; [exact H2|]. split; [exact H3|].
  split; [exact H4|].
  destruct (camelliaInit_subkeys_are_rotations freshCamellia camelliaKey128 16
              18 (Camellia.mkSubkey 10 Camellia.KL 15 Camellia.R) H1 H2 H3 H4)
    as (ctx & E & Hlo & _).
  exists ctx. split; [exact E | exact Hlo].
Defined.

(** camelliaInit with the RFC 3713 128-bit key on a zero context and on a
    context that was set up for 24 rounds and holds ones. *)
Lemma camelliaInit_ignores_old_context_witness :
  Camellia.roundsOfKeyLength 16 = Some 18%nat /\
  wfCamellia freshCamellia /\
  wfCamellia (Camellia.mkCamelliaContext 24 (repeat 1%Z 16) (repeat 1%Z 68)) /\
  keyBuffer camelliaKey128 16 /\
  exists ca cb,
    Camellia.camelliaInit freshCamellia camelliaKey128 16
      = Some (NO_ERROR, ca) /\
    Camellia.camelliaInit
      (Camellia.mkCamelliaContext 24 (repeat 1%Z 16) (repeat 1%Z 68))
      camelliaKey128 16 = Some (NO_ERROR, cb) /\
    Camellia.nr ca = Camellia.nr cb /\ Camellia.k ca = Camellia.k cb /\
    forall p, bytes 16 p ->
      exists ct pt,
        Camellia.camelliaEncryptBlock ca p = Some (ca, ct) /\
        Camellia.camelliaEncryptBlock cb p = Some (cb, ct) /\
        Camellia.camelliaDecryptBlock ca p = Some (ca, pt) /\
        Camellia.camelliaDecryptBlock cb p = Some (cb, pt).
Proof.
  assert (H1 : Camellia.roundsOfKeyLength 16 = Some 18%nat) by reflexivity.
  assert (H2 : wfCamellia freshCamellia) by concrete_wfCamellia.
  assert (H3 : wfCamellia
                 (Camellia.mkCamelliaContext 24 (repeat 1%Z 16) (repeat 1%Z 68))).
  { unfold wfCamellia. cbn [Camellia.k Camellia.ks repeat].
    split; [reflexivity|]. split; [concrete_words|].
    split; [reflexivity | concrete_words]. }
  assert (H4 : keyBuffer camelliaKey128 16) by concrete_keyBuffer.
  split; [exact H1|]. split; [exact H2|]. split; [exact H3|].
  split; [exact H4|].
  destruct (camelliaInit_ignores_old_context freshCamellia
              (Camellia.mkCamelliaContext 24 (repeat 1%Z 16) (repeat 1%Z 68))
              camelliaKey128 16 18 H1 H2 H3 H4)
    as (ca & cb & Ea & Eb & Hn & Hk & _ & _ & Hblocks).
  exists ca, cb. split; [exact Ea|]. split; [exact Eb|].
  split; [exact Hn|]. split; [exact Hk | exact Hblocks].
Defined.

(** The decryption under a context of 18 rounds with zero subkeys. *)
Lemma camellia_decrypt_mirrors_encrypt_witness :
  (Camellia.nr (Camellia.mkCamelliaContext 18 (repeat 0%Z 16) (repeat 0%Z 68)) = 18
   \/ Camellia.nr (Camellia.mkCamelliaContext 18 (repeat 0%Z 16) (repeat 0%Z 68))
      = 24)%nat /\
  words 68
    (Camellia.ks (Camellia.mkCamelliaContext 18 (repeat 0%Z 16) (repeat 0%Z 68))) /\
  bytes 16 camelliaCipher128 /\
  exists out,
    Camellia.camelliaDecryptBlock
      (Camellia.mkCamelliaContext 18 (repeat 0%Z 16) (repeat 0%Z 68))
      camelliaCipher128
    = Some (Camellia.mkCamelliaContext 18 (repeat 0%Z 16) (repeat 0%Z 68), out).
Proof.
  assert (H1 : (Camellia.nr
                  (Camellia.mkCamelliaContext 18 (repeat 0%Z 16) (repeat 0%Z 68))
                = 18 \/
                Camellia.nr
                  (Camellia.mkCamelliaContext 18 (repeat 0%Z 16) (repeat 0%Z 68))
                = 24)%nat) by (left; reflexivity).
  assert (H2 : words 68
                 (Camellia.ks
                    (Camellia.mkCamelliaContext 18 (repeat 0%Z 16) (repeat 0%Z 68)))).
  { split; [reflexivity | cbn [Camellia.ks repeat]; concrete_words]. }
  assert (H3 : bytes 16 camelliaCipher128) by concrete_block.
  split; [exact H1|]. split; [exact H2|]. split; [exact H3|].
  eexists.
  exact (camellia_decrypt_mirrors_encrypt
           (Camellia.mkCamelliaContext 18 (repeat 0%Z 16) (repeat 0%Z 68))
           camelliaCipher128 H1 H2 H3).
Defined.

(** The encryption under a context of 24 rounds with zero subkeys. *)
Lemma camellia_encrypt_permutation_witness :
  (Camellia.nr (Camellia.mkCamelliaContext 24 (repeat 0%Z 16) (repeat 0%Z 68)) = 18
   \/ Camellia.nr (Camellia.mkCamelliaContext 24 (repeat 0%Z 16) (repeat 0%Z 68))
      = 24)%nat /\
  words 68
    (Camellia.ks (Camellia.mkCamelliaContext 24 (repeat 0%Z 16) (repeat 0%Z 68))) /\
  (forall p q cp cq ct, bytes 16 p -> bytes 16 q ->
     Camellia.camelliaEncryptBlock
       (Camellia.mkCamelliaContext 24 (repeat 0%Z 16) (repeat 0%Z 68)) p
     = Some (cp, ct) ->
     Camellia.camelliaEncryptBlock
       (Camellia.mkCamelliaContext 24 (repeat 0%Z 16) (repeat 0%Z 68)) q
     = Some (cq, ct) -> p = q).
Proof.
  assert (H1 : (Camellia.nr
                  (Camellia.mkCamelliaContext 24 (repeat 0%Z 16) (repeat 0%Z 68))
                = 18 \/
                Camellia.nr
                  (Camellia.mkCamelliaContext 24 (repeat 0%Z 16) (repeat 0%Z 68))
                = 24)%nat) by (right; reflexivity).
  assert (H2 : words 68
                 (Camellia.ks
                    (Camellia.mkCamelliaContext 24 (repeat 0%Z 16) (repeat 0%Z 68)))).
  { split; [reflexivity | cbn [Camellia.ks repeat]; concrete_words]. }
  split; [exact H1|]. split; [exact H2|].
  exact (proj1 (proj2 (camellia_encrypt_permutation
                         (Camellia.mkCamelliaContext 24 (repeat 0%Z 16)
                            (repeat 0%Z 68)) H1 H2))).
Defined.

(** Two contexts of 18 rounds with zero subkeys in the first 52 words, and
    different key material and last 16 words. *)
Lemma camellia_blocks_read_prefix_witness :
  (Camellia.nr (Camellia.mkCamelliaContext 18 (repeat 0%Z 16) (repeat 0%Z 68)) = 18
   \/ Camellia.nr (Camellia.mkCamelliaContext 18 (repeat 0%Z 16) (repeat 0%Z 68))
      = 24)%nat /\
  Camellia.nr
    (Camellia.mkCamelliaContext 18 (repeat 1%Z 16) (repeat 0%Z 52 ++ repeat 1%Z 16))
  = Camellia.nr (Camellia.mkCamelliaContext 18 (repeat 0%Z 16) (repeat 0%Z 68)) /\
  words 68
    (Camellia.ks (Camellia.mkCamelliaContext 18 (repeat 0%Z 16) (repeat 0%Z 68))) /\
  words 68
    (Camellia.ks
       (Camellia.mkCamelliaContext 18 (repeat 1%Z 16)
          (repeat 0%Z 52 ++ repeat 1%Z 16))) /\
  bytes 16 camelliaPlain /\
  exists ct pt,
    Camellia.camelliaEncryptBlock
      (Camellia.mkCamelliaContext 18 (repeat 0%Z 16) (repeat 0%Z 68)) camelliaPlain
    = Some (Camellia.mkCamelliaContext 18 (repeat 0%Z 16) (repeat 0%Z 68), ct) /\
    Camellia.camelliaEncryptBlock
      (Camellia.mkCamelliaContext 18 (repeat 1%Z 16) (repeat 0%Z 52 ++ repeat 1%Z 16))
      camelliaPlain
    = Some (Camellia.mkCamelliaContext 18 (repeat 1%Z 16)
              (repeat 0%Z 52 ++ repeat 1%Z 16), ct) /\
    Camellia.camelliaDecryptBlock
      (Camellia.mkCamelliaContext 18 (repeat 0%Z 16) (repeat 0%Z 68)) camelliaPlain
    = Some (Camellia.mkCamelliaContext 18 (repeat 0%Z 16) (repeat 0%Z 68), pt) /\
    Camellia.camelliaDecryptBlock
      (Camellia.mkCamelliaContext 18 (repeat 1%Z 16) (repeat 0%Z 52 ++ repeat 1%Z 16))
      camelliaPlain
    = Some (Camellia.mkCamelliaContext 18 (repeat 1%Z 16)
              (repeat 0%Z 52 ++ repeat 1%Z 16), pt).
Proof.
  assert (H1 : (Camellia.nr
                  (Camellia.mkCamelliaContext 18 (repeat 0%Z 16) (repeat 0%Z 68))
                = 18 \/
                Camellia.nr
                  (Camellia.mkCamelliaContext 18 (repeat 0%Z 16) (repeat 0%Z 68))
                = 24)%nat) by (left; reflexivity).
  assert (H2 : Camellia.nr
                 (Camellia.mkCamelliaContext 18 (repeat 1%Z 16)
                    (repeat 0%Z 52 ++ repeat 1%Z 16))
               = Camellia.nr
                   (Camellia.mkCamelliaContext 18 (repeat 0%Z 16) (repeat 0%Z 68)))
    by reflexivity.
  assert (H3 : words 68
                 (Camellia.ks
                    (Camellia.mkCamelliaContext 18 (repeat 0%Z 16) (repeat 0%Z 68)))).
  { split; [reflexivity | cbn [Camellia.ks repeat]; concrete_words]. }
  assert (H4 : words 68
                 (Camellia.ks
                    (Camellia.mkCamelliaContext 18 (repeat 1%Z 16)
                       (repeat 0%Z 52 ++ repeat 1%Z 16)))).
  { split; [reflexivity | cbn [Camellia.ks repeat app]; concrete_words]. }
  assert (H5 : forall j,
             (j < if (Camellia.nr
                        (Camellia.mkCamelliaContext 18 (repeat 0%Z 16)
                           (repeat 0%Z 68)) =? 18)%nat then 52 else 68)%nat ->
             nth j (Camellia.ks
                      (Camellia.mkCamelliaContext 18 (repeat 0%Z 16)
                         (repeat 0%Z 68))) 0 =
             nth j (Camellia.ks
                      (Camellia.mkCamelliaContext 18 (repeat 1%Z 16)
                         (repeat 0%Z 52 ++ repeat 1%Z 16))) 0).
  { intros j Hj. cbn [Camellia.nr Camellia.ks Nat.eqb] in *.
    rewrite app_nth1 by (rewrite repeat_length; exact Hj).
    rewrite !nth_repeat. reflexivity. }
  assert (H6 : bytes 16 camelliaPlain) by concrete_block.
  split; [exact H1|]. split; [exact H2|]. split; [exact H3|].
  split; [exact H4|]. split; [exact H6|].
  exact (camellia_blocks_read_prefix
           (Camellia.mkCamelliaContext 18 (repeat 0%Z 16) (repeat 0%Z 68))
           (Camellia.mkCamelliaContext 18 (repeat 1%Z 16)
              (repeat 0%Z 52 ++ repeat 1%Z 16))
           camelliaPlain H1 H2 H3 H4 H5 H6).
Defined.

